(** * scdlpicker: association of picks with an origin, event workspace

    A shallow embedding of the parts of
      - [lib/dbutil.py]                    (module [DbUtil]),
      - [bin/scdlpicker-client.py]         (module [Client]),
      - [bin/scdlpicker-relocate-event.py] (module [Relocate])
    that the specification talks about, and the properties of the
    specification stated over them.

    Conventions of the embedding.
      - Times (seconds), distances (degrees) and residuals are Python
        floats in the source; a float is the rational [Q] it stands for.
        The mean of [numpy.average] is rounded as the source rounds it:
        its additions and its division give the nearest double
        ([Client.float64]).  Elsewhere floats are compared, multiplied by
        2 or 4, which is exact, and times are added and subtracted, for
        which the exact result is taken.
      - A Python [dict] is insertion ordered: it is an association list
        with in-place replacement ([dict_set]).
      - A Python exception that leaves a function is a value [Raise e] of
        the type [result]; an exception caught by a [try]/[except] of the
        source is handled where the source handles it.
      - SeisComP itself (database, travel-time tables, geodesy, record
        stream) is outside the repository: it appears as records of
        functions ([Query], [Seismology], ...) over which every theorem is
        quantified. *)

From Stdlib Require Import QArith Qpower Lqa.
From stdpp Require Import base decidable option list strings sorting.

Local Open Scope string_scope.
Local Open Scope list_scope.

(** ** Python runtime: exceptions and dictionaries *)

Module Py.

Inductive exn : Type :=
  | KeyError | IndexError | NameError | ValueError
  | TypeError | AttributeError | RuntimeError.

Inductive result (A : Type) : Type :=
  | Ok (a : A)
  | Raise (e : exn).
Arguments Ok {A} a.
Arguments Raise {A} e.

#[global] Instance exn_eq_dec : EqDecision exn.
Proof. solve_decision. Defined.

#[global] Instance result_ret : MRet result := fun _ a => Ok a.
#[global] Instance result_bind : MBind result := fun _ _ k m =>
  match m with
  | Ok a => k a
  | Raise e => Raise e
  end.

(** A [for] loop whose body may raise: the loop stops at the first
    exception. *)
Fixpoint foldlM {A S : Type} (body : S -> A -> result S) (s : S) (l : list A)
  : result S :=
  match l with
  | [] => Ok s
  | x :: l' => s' ← body s x; foldlM body s' l'
  end.

Definition dict (K V : Type) : Type := list (K * V).

Section dict_ops.
Context {K V : Type} `{EqDecision K}.

Fixpoint dict_get (k : K) (d : dict K V) : option V :=
  match d with
  | [] => None
  | (k', v) :: d' => if decide (k = k') then Some v else dict_get k d'
  end.

(** [k in d] *)
Definition dict_mem (k : K) (d : dict K V) : bool :=
  match dict_get k d with Some _ => true | None => false end.

(** [d[k] = v]: replaces the value of an existing key where it stands,
    appends a new key at the end. *)
Fixpoint dict_set (k : K) (v : V) (d : dict K V) : dict K V :=
  match d with
  | [] => [(k, v)]
  | (k', v') :: d' =>
      if decide (k = k') then (k, v) :: d' else (k', v') :: dict_set k v d'
  end.

(** [del d[k]] for a key that is present. *)
Fixpoint dict_del (k : K) (d : dict K V) : dict K V :=
  match d with
  | [] => []
  | (k', v') :: d' =>
      if decide (k = k') then d' else (k', v') :: dict_del k d'
  end.

Definition dict_keys (d : dict K V) : list K := fst <$> d.
Definition dict_values (d : dict K V) : list V := snd <$> d.
End dict_ops.

(** Comparison of floats. *)
Definition Qltb (x y : Q) : bool := negb (Qle_bool y x).

(** A stable sort by a rational key, as [sorted(l, key=...)]: equal keys
    keep their order. *)
Section stable_sort.
Context {A : Type}.

Fixpoint insert_by_key (x : Q * A) (l : list (Q * A)) : list (Q * A) :=
  match l with
  | [] => [x]
  | y :: l' =>
      if Qle_bool (fst x) (fst y) then x :: y :: l'
      else y :: insert_by_key x l'
  end.

Fixpoint sort_by_key (l : list (Q * A)) : list (Q * A) :=
  match l with
  | [] => []
  | x :: l' => insert_by_key x (sort_by_key l')
  end.

(** The order that [sort_by_key] establishes. *)
Definition key_le (x y : Q * A) : Prop := (fst x <= fst y)%Q.
End stable_sort.

End Py.
Export Py.

(** ** The SeisComP data model, as far as the repository reads it *)

Record WaveformStreamID : Type := mkWaveformStreamID {
  networkCode : string;
  stationCode : string;
  locationCode : string;
  channelCode : string
}.

#[global] Instance WaveformStreamID_eq_dec : EqDecision WaveformStreamID.
Proof. solve_decision. Defined.

Inductive EvaluationMode : Type := MANUAL | AUTOMATIC.

#[global] Instance EvaluationMode_eq_dec : EqDecision EvaluationMode.
Proof. solve_decision. Defined.

(** [pick_author] and [pick_creationTime] are the two fields of
    [pick.creationInfo()]; reading an unset one raises [ValueError]. *)
Record Pick : Type := mkPick {
  pick_publicID : string;
  pick_waveformID : WaveformStreamID;
  pick_time : Q;
  pick_phaseHint : option string;
  pick_methodID : option string;
  pick_evaluationMode : option EvaluationMode;
  pick_author : option string;
  pick_creationTime : option Q
}.

Record Arrival : Type := mkArrival {
  arr_pickID : string;
  arr_phase : string;
  arr_timeUsed : option bool;
  arr_weight : Q;
  arr_distance : option Q
}.

Record Origin : Type := mkOrigin {
  origin_publicID : string;
  origin_time : Q;
  origin_latitude : Q;
  origin_longitude : Q;
  origin_depth : Q;
  origin_agencyID : string;
  origin_arrivals : list Arrival
}.

Record Event : Type := mkEvent {
  event_publicID : string;
  preferredOriginID : string
}.

Record Station : Type := mkStation {
  sta_latitude : Q;
  sta_longitude : Q
}.

(** One entry of the list returned by [TravelTimeTable.compute]. *)
Record TravelTime : Type := mkTravelTime {
  tt_phase : string;
  tt_time : Q
}.

(** A miniSEED record of a stream. *)
Record Record_ : Type := mkRecord {
  rec_streamID : string;
  rec_nslc : string * string * string * string;
  rec_startTime : Q;
  rec_endTime : Q
}.

(** What a database iterator yields before [Pick.Cast]. *)
Inductive Object : Type :=
  | ObjPick (p : Pick)
  | ObjOther.

Definition Pick_Cast (obj : Object) : option Pick :=
  match obj with
  | ObjPick p => Some p
  | ObjOther => None
  end.

(** [seiscomp.math] and [seiscomp.seismology]: geodesy and travel-time
    tables.  Only the distance of [delazi]/[delazi_wgs84] is used by the
    source. *)
Record Seismology : Type := mkSeismology {
  delazi_wgs84 : Q -> Q -> Q -> Q -> Q;
  delazi : Q -> Q -> Q -> Q -> Q;
  (** [ttt.compute(0, 0, depth, 0, delta, 0, 0)] *)
  ttt_compute : Q -> Q -> list TravelTime
}.

(** The database reader ([query]). *)
Record Query : Type := mkQuery {
  getPicks_timespan : Q -> Q -> list Object;
  getPicks_origin : string -> list Object;
  loadArrivals : string -> list Arrival
}.

Definition NSLC : Type := string * string * string * string.

(** ** [scdlpicker.util] and [scdlpicker.inventory] *)

Module Util.

(** Modelled from the spec: [scdlpicker/util.py] is not part of the
    sources at hand.  [nslc] gives the (network, station, location,
    channel) tuple by which the spec groups picks. *)
Definition nslc (pick : Pick) : NSLC :=
  let w := pick_waveformID pick in
  (networkCode w, stationCode w, locationCode w, channelCode w).

(** Modelled from the spec: [authorOf] reads the authorship of a pick
    ([None] when the pick carries none). *)
Definition authorOf (pick : Pick) : option string := pick_author pick.

(** Modelled from the spec: a manual pick is one whose evaluation mode is
    manual. *)
Definition manual (pick : Pick) : bool :=
  bool_decide (pick_evaluationMode pick = Some MANUAL).

(** Modelled from the spec: [clearAllArrivals] empties the arrival list of
    the origin. *)
Definition clearAllArrivals (origin : Origin) : Origin :=
  mkOrigin (origin_publicID origin) (origin_time origin)
           (origin_latitude origin) (origin_longitude origin)
           (origin_depth origin) (origin_agencyID origin) [].

Definition setArrivals (origin : Origin) (arrs : list Arrival) : Origin :=
  mkOrigin (origin_publicID origin) (origin_time origin)
           (origin_latitude origin) (origin_longitude origin)
           (origin_depth origin) (origin_agencyID origin) arrs.

(** Modelled from the spec: [clearAutomaticArrivals] strips the automatic
    arrivals and retains the manual ones.  Which arrival counts as manual
    is decided by [util.py]; it is the parameter [manualArrival]. *)
Definition clearAutomaticArrivals (manualArrival : Arrival -> bool)
    (origin : Origin) : Origin :=
  setArrivals origin (filter (fun arr => manualArrival arr = true)
                             (origin_arrivals origin)).

(** Modelled from the spec: a stream is gappy when two consecutive
    records are further apart than the tolerance. *)
Fixpoint gappy (records : list Record_) (tolerance : Q) : bool :=
  match records with
  | [] => false
  | r1 :: rest =>
      match rest with
      | [] => false
      | r2 :: _ =>
          Qltb tolerance (rec_startTime r2 - rec_endTime r1)
          || gappy rest tolerance
      end
  end.

End Util.

Module InventoryUtil.

(** One station of the inventory with the epoch it is valid in. *)
Record StationEpoch : Type := mkStationEpoch {
  se_network : string;
  se_station : string;
  se_start : Q;
  se_end : option Q;
  se_coordinates : Station
}.

Definition Inventory : Type := list StationEpoch.

Definition operational (e : StationEpoch) (t : Q) : bool :=
  Qle_bool (se_start e) t
  && match se_end e with
     | Some t1 => Qle_bool t t1
     | None => true
     end.

(** Modelled from the spec: [scdlpicker/inventory.py] is not part of the
    sources at hand.  [getStations] flattens the inventory, at an instant,
    into a lookup from (network, station) to the station. *)
Definition getStations (inventory : Inventory) (t : Q)
  : dict (string * string) Station :=
  foldl (fun d e =>
           if operational e t
           then dict_set (se_network e, se_station e) (se_coordinates e) d
           else d)
        [] inventory.

End InventoryUtil.

(** ** [lib/dbutil.py] *)

Module DbUtil.
Import Util InventoryUtil.

(** [_util.authorOf(pick) not in allowedAuthorIDs], negated. *)
Definition allowedAuthor (allowedAuthorIDs : list string) (pick : Pick) : bool :=
  match authorOf pick with
  | Some a => bool_decide (a ∈ allowedAuthorIDs)
  | None => false
  end.

(** [loadPicksForTimespan] as [loadPicksForOrigin] calls it, that is with
    [withAmplitudes=False]: the function returns at line 118. *)
Definition loadPicksForTimespan (query : Query) (startTime endTime : Q)
    (allowedAuthorIDs : list string) : dict string Pick :=
  foldl (fun objects obj =>
           match Pick_Cast obj with
           | Some pick =>
               if allowedAuthor allowedAuthorIDs pick
               then dict_set (pick_publicID pick) pick objects
               else objects
           | None => objects
           end)
        [] (getPicks_timespan query startTime endTime).

(** [not -k*maxResidual < dt < k*maxResidual] *)
Definition outsideWindow (k maxResidual dt : Q) : bool :=
  negb (Qltb (- k * maxResidual) dt && Qltb dt (k * maxResidual)).

(** Outcome of lines 162-180, which lines 244-262 repeat: the station of
    the pick is looked up, its distance is compared with [maxDelta] and
    the residual against the first predicted arrival is computed. *)
Inductive Located : Type :=
  | UnknownStation            (* KeyError, caught: continue *)
  | BeyondMaxDelta            (* delta > maxDelta: continue *)
  | Residual (delta dt : Q).

Section loadPicksForOrigin.
Variable sm : Seismology.
Variable manualArrival : Arrival -> bool.
Variable origin : Origin.
Variable inventory : Inventory.
Variable allowedAuthorIDs : list string.
Variables maxDelta maxResidual : Q.
Variable query : Query.
Variable keepManualPicks : bool.

Let etime := origin_time origin.
Let elat := origin_latitude origin.
Let elon := origin_longitude origin.
Let edep := origin_depth origin.
Let station := getStations inventory etime.

Definition locate (nslc : NSLC) (pick : Pick) : result Located :=
  let '(n, s, l, c) := nslc in
  match dict_get (n, s) station with
  | None => Ok UnknownStation
  | Some sta =>
      let slat := sta_latitude sta in
      let slon := sta_longitude sta in
      let delta := delazi_wgs84 sm elat elon slat slon in
      if Qltb maxDelta delta then Ok BeyondMaxDelta
      else
        match ttt_compute sm edep delta with
        | [] => Raise IndexError                     (* ttimes[0] *)
        | ptime :: _ =>
            let theo := (etime + tt_time ptime)%Q in
            Ok (Residual delta (pick_time pick - theo)%Q)
        end
  end.

(** Lines 157-187. *)
Definition picks_of_interest (picks : dict string Pick)
  : result (dict string Pick) :=
  foldlM (fun (acc : dict string Pick) '((pickID, pick) : string * Pick) =>
            loc ← locate (nslc pick) pick;
            match loc with
            | Residual _ dt =>
                if outsideWindow 4 maxResidual dt then Ok acc
                else Ok (dict_set pickID pick acc)
            | _ => Ok acc
            end)
         [] picks.

(** Lines 191-197. *)
Definition picks_per_nslc (picks : dict string Pick)
  : dict NSLC (list Pick) :=
  foldl (fun (acc : dict NSLC (list Pick)) '((pickID, pick) : string * Pick) =>
           let k := nslc pick in
           let acc := if dict_mem k acc then acc else dict_set k [] acc in
           dict_set k (default [] (dict_get k acc) ++ [pick]) acc)
        [] picks.

(** The keys of [sorted(..., key=lambda p: p.creationInfo().creationTime())];
    a pick without creation time raises [ValueError]. *)
Fixpoint decorate (l : list Pick) : result (list (Q * Pick)) :=
  match l with
  | [] => Ok []
  | p :: l' =>
      match pick_creationTime p with
      | None => Raise ValueError
      | Some t => keyed ← decorate l'; Ok ((t, p) :: keyed)
      end
  end.

Definition sorted_by_creationTime (l : list Pick) : result (list Pick) :=
  keyed ← decorate l; Ok (snd <$> sort_by_key keyed).

(** Lines 199-202: every value of the dictionary is replaced by its
    sorted version; keys keep their place. *)
Fixpoint sort_groups (groups : dict NSLC (list Pick))
  : result (dict NSLC (list Pick)) :=
  match groups with
  | [] => Ok []
  | (k, g) :: rest =>
      g' ← sorted_by_creationTime g;
      rest' ← sort_groups rest;
      Ok ((k, g') :: rest')
  end.

(** Lines 157-202: the channel groups handed to the association loop. *)
Definition candidate_groups : result (dict NSLC (list Pick)) :=
  let startTime := origin_time origin in
  let endTime := (startTime + 1200)%Q in
  let picks := loadPicksForTimespan query startTime endTime allowedAuthorIDs in
  picks ← picks_of_interest picks;
  sort_groups (picks_per_nslc picks).

(** Lines 206-211. *)
Definition associated_picks (originID : string) : dict string Pick :=
  foldl (fun acc obj =>
           match Pick_Cast obj with
           | Some pick => dict_set (pick_publicID pick) pick acc
           | None => acc
           end)
        [] (getPicks_origin query originID).

(** Lines 215-227: the loop over the retained arrivals;
    [associated_picks[pickID]] raises [KeyError]. *)
Definition manual_arrivals (associated : dict string Pick)
    (arrs : list Arrival)
  : result (dict string Pick * list (WaveformStreamID * string)) :=
  foldlM (fun '(manual_picks, stream_phase_list) arr =>
            let pickID := arr_pickID arr in
            match dict_get pickID associated with
            | None => Raise KeyError
            | Some pick =>
                Ok (dict_set pickID pick manual_picks,
                    stream_phase_list ++ [(pick_waveformID pick, arr_phase arr)])
            end)
         ([], []) arrs.

(** Lines 233-280, one turn of the loop.  [stream_phase_list] is [None]
    while the name is unbound.  The state is the arrival list of the
    origin and the list [picks]. *)
Definition associate_step
    (stream_phase_list : option (list (WaveformStreamID * string)))
    (st : list Arrival * list Pick) (entry : NSLC * list Pick)
  : result (list Arrival * list Pick) :=
  let '(nslc, group) := entry in
  match group with
  | [] => Raise IndexError
  | pick :: _ =>
      let pickID := pick_publicID pick in
      match stream_phase_list with
      | None => Raise NameError
      | Some spl =>
          if bool_decide ((pick_waveformID pick, "P") ∈ spl) then Ok st
          else
            loc ← locate nslc pick;
            match loc with
            | Residual delta dt =>
                if outsideWindow 2 maxResidual dt then Ok st
                else
                  let arr := mkArrival pickID "P"
                               (Some (Qle_bool delta maxDelta)) 1 None in
                  Ok (st.1 ++ [arr], st.2 ++ [pick])
            | _ => Ok st
            end
      end
  end.

(** Lines 204-231: the origin with the arrivals that are kept, the
    list [picks] and the binding of [stream_phase_list]. *)
Definition retained_arrivals
  : result (Origin * list Pick * option (list (WaveformStreamID * string))) :=
  let origin := clearAllArrivals origin in
  let origin :=
    setArrivals origin
      (origin_arrivals origin ++ loadArrivals query (origin_publicID origin)) in
  let associated := associated_picks (origin_publicID origin) in
  if keepManualPicks then
    let origin := clearAutomaticArrivals manualArrival origin in
    '(manual_picks, stream_phase_list) ←
      manual_arrivals associated (origin_arrivals origin);
    Ok (origin, dict_values manual_picks, Some stream_phase_list)
  else
    Ok (clearAllArrivals origin, [], None).

(** Lines 135-287.  The closing loop (lines 282-285) only logs. *)
Definition loadPicksForOrigin : result (Origin * list Pick) :=
  groups ← candidate_groups;
  '(origin, picks, stream_phase_list) ← retained_arrivals;
  '(arrs, picks) ←
    foldlM (associate_step stream_phase_list)
           (origin_arrivals origin, picks) groups;
  Ok (setArrivals origin arrs, picks).

End loadPicksForOrigin.

End DbUtil.

(** ** [bin/scdlpicker-client.py] *)

Module Client.
Import Util.

(** Module-level parameters of the client (lines 48-59).  The assignment
    in [initConfiguration] binds a local name, so these stay empty. *)
Definition ignoredAuthors : list string := [].
Definition emptyOriginAgencyIDs : list string := [].

(** Attributes of the application object that [processOrigin] reads. *)
Record App : Type := mkApp {
  app_author : string;                        (* self.author() *)
  app_ignoredAgencyIDs : list string;         (* self.ignoredAgencyIDs *)
  app_emptyOriginAgencyIDs : list string;     (* self.emptyOriginAgencyIDs *)
  repickManualPicks : bool;                   (* self.pickingConfig... *)
  tryUpickedStations : bool;
  beforeP : Q;
  afterP : Q;
  components : dict NSLC (list string);       (* self.components *)
  configuredStreams : list NSLC               (* self.configuredStreams *)
}.

(** One stream of the inventory as [InventoryIterator] yields it. *)
Record InventoryStream : Type := mkInventoryStream {
  inv_network : string;
  inv_station : string;
  inv_location : string;
  inv_stream : string;
  inv_coordinates : Station
}.

(** One [stream.addStream(net, sta, loc, cha, t1, t2)]. *)
Definition StreamRequest : Type := string * string * string * string * Q * Q.

(** What lies outside the process: the file system, the record stream,
    the inventory at the present time, the registry of public objects and
    the helpers of [util.py] that the spec does not describe. *)
Record Environment : Type := mkEnvironment {
  mseedExists : string -> string -> bool;     (* eventID, stream key *)
  recordStream : list StreamRequest -> list (option Record_);
  inventoryIterator : list InventoryStream;
  Pick_Find : string -> bool;
  (** [time.toString("%Y%m%d.%H%M%S.%f000000")[:18]] *)
  timestamp : Q -> string;
  (** [_util.prepare] *)
  prepare : list Record_ -> list Record_
}.

(** The per-event workspace ([scdlpicker/eventworkspace.py]), as far as
    the client reads and writes it. *)
Record Workspace : Type := mkWorkspace {
  ws_origin : option Origin;
  all_picks : dict string Pick;
  new_picks : dict string Pick;
  attempted_picks : dict string Pick;
  mlpicks : dict string Pick;
  waveforms : dict string (list Record_)
}.

Definition set_all_picks (d : dict string Pick) (w : Workspace) : Workspace :=
  mkWorkspace (ws_origin w) d (new_picks w) (attempted_picks w) (mlpicks w)
              (waveforms w).
Definition set_new_picks (d : dict string Pick) (w : Workspace) : Workspace :=
  mkWorkspace (ws_origin w) (all_picks w) d (attempted_picks w) (mlpicks w)
              (waveforms w).
Definition set_attempted_picks (d : dict string Pick) (w : Workspace)
  : Workspace :=
  mkWorkspace (ws_origin w) (all_picks w) (new_picks w) d (mlpicks w)
              (waveforms w).
Definition set_waveforms (d : dict string (list Record_)) (w : Workspace)
  : Workspace :=
  mkWorkspace (ws_origin w) (all_picks w) (new_picks w) (attempted_picks w)
              (mlpicks w) d.
Definition set_origin (o : Origin) (w : Workspace) : Workspace :=
  mkWorkspace (Some o) (all_picks w) (new_picks w) (attempted_picks w)
              (mlpicks w) (waveforms w).

(** The log lines that report a decision of the code.  Lines that only
    report counts or progress are left out. *)
Inductive LogLine : Type :=
  | AddedToWorkspace (pickID : string)
  | SkippingManualPick (pickID : string)
  | SkippingAlreadyRepicked (pickID : string)
  | SkippingPreviouslyAttempted (pickID : string)
  | SkippingRepick (pickID : string)
  | SkippedAttemptedWaveformID (pickID : string)
  | AddingNewPick (pickID : string)
  | GappyStreamIgnored (streamID : string)
  | IncompleteStreamIgnored (streamID : string)
  | NoArrivalsSkipped (originID : string).

Definition methodIDs : list string :=
  ["DL"; "PhaseNet"; "PHN"; "EQTransformer"; "EQT"; "XYZ"].

(** Lines 75-93.  An unset attribute raises inside the [try]. *)
Definition isRepick (pick : Pick) (author : option string) : bool :=
  match pick_methodID pick with
  | Some m => bool_decide (m ∈ methodIDs)
  | None => false
  end
  || match author, pick_author pick with
     | Some a, Some pa => bool_decide (pa = a)
     | _, _ => false
     end.

(** A float: a finite value, [nan] or an infinity. *)
Inductive Float : Type :=
  | Num (q : Q)
  | NaN
  | Inf (negative : bool).

(** [delta > maxDelta]; false when [maxDelta] is [nan]. *)
Definition exceeds (delta : Q) (maxDelta : Float) : bool :=
  match maxDelta with
  | Num m => Qltb m delta
  | NaN => false
  | Inf negative => negative
  end.

(** [l[-3:]] *)
Definition last3 {A : Type} (l : list A) : list A :=
  drop (length l - 3) l.

(** The integer nearest to [num / den], for [0 <= num] and [0 < den];
    of two nearest integers the even one. *)
Definition nearest_even (num den : Z) : Z :=
  let k := (num / den)%Z in
  let r := (num mod den)%Z in
  match (2 * r ?= den)%Z with
  | Lt => k
  | Gt => (k + 1)%Z
  | Eq => if Z.even k then k else (k + 1)%Z
  end.

(** The integer [p] with [2^p <= n / d < 2^(p+1)], for [0 < n]. *)
Definition floor_log2 (n : Z) (d : positive) : Z :=
  let l := (Z.log2 n - Z.log2 (Zpos d))%Z in
  if (0 <=? l)%Z
  then if (Zpos d * 2 ^ l <=? n)%Z then l else (l - 1)%Z
  else if (Zpos d <=? n * 2 ^ (- l))%Z then l else (l - 1)%Z.

(** The result of an arithmetic operation on floats whose exact value
    is [x]: the nearest IEEE 754 double (binary64: significands of 53
    bits, least exponent -1074, ties to the even significand), an
    infinity from [2^1024] on. *)
Definition float64 (x : Q) : Float :=
  let n := Z.abs (Qnum x) in
  if (n =? 0)%Z then Num 0
  else
    let e := Z.max (floor_log2 n (Qden x) - 52) (-1074) in
    let m :=
      if (0 <=? e)%Z then nearest_even n (Zpos (Qden x) * 2 ^ e)
      else nearest_even (n * 2 ^ (- e)) (Zpos (Qden x)) in
    if (0 <=? e)%Z && (2 ^ 1024 <=? m * 2 ^ e)%Z then Inf (Qnum x <? 0)%Z
    else Num (Qred (inject_Z (Z.sgn (Qnum x) * m) * Qpower 2 e)).

(** [x + y] and [x / n] in floats, for a finite [y] and [0 < n]. *)
Definition float64_add (x : Float) (y : Q) : Float :=
  match x with
  | Num a => float64 (a + y)
  | NaN => NaN
  | Inf negative => Inf negative
  end.

Definition float64_div (x : Float) (n : nat) : Float :=
  match x with
  | Num a => float64 (a / inject_Z (Z.of_nat n))
  | NaN => NaN
  | Inf negative => Inf negative
  end.

(** [numpy.average] of a list of floats that is shorter than eight, as
    line 736 calls it: numpy adds such elements one after the other,
    starting from zero, and divides the sum by their number; for the
    empty list the result is [nan]. *)
Definition average (l : list Q) : Float :=
  match l with
  | [] => NaN
  | _ => float64_div (foldl float64_add (Num 0) l) (length l)
  end.

(** [delta.sort()] *)
Definition sort_floats (l : list Q) : list Q :=
  fst <$> sort_by_key ((fun d => (d, tt)) <$> l).

Section client.
Variable sm : Seismology.
Variable env : Environment.
Variable query : Query.
Variable self : App.

(** Lines 320-326. *)
Definition computeTravelTimes (delta depth : Q) : list TravelTime :=
  ttt_compute sm depth delta.

Definition dashed (loc : string) : string :=
  if decide (loc = "") then "--" else loc.

Definition dotted (net sta loc cha : string) : string :=
  (net +:+ "." +:+ sta +:+ "." +:+ loc +:+ "." +:+ cha)%string.

(** Lines 349-388, one stream of the inventory. *)
Definition findUnpickedStations_step (origin : Origin) (maxDelta : Float)
    (net_sta_blacklist : list (string * string))
    (predictedPicks : dict string Pick) (item : InventoryStream)
  : result (dict string Pick) :=
  let net := inv_network item in
  let sta := inv_station item in
  let loc := inv_location item in
  let cha := String.substring 0 2 (inv_stream item) in
  if bool_decide ((net, sta) ∈ net_sta_blacklist) then Ok predictedPicks
  else if negb (bool_decide ((net, sta, dashed loc, cha) ∈ configuredStreams self))
  then Ok predictedPicks
  else
    let slat := sta_latitude (inv_coordinates item) in
    let slon := sta_longitude (inv_coordinates item) in
    let delta :=
      delazi sm (origin_latitude origin) (origin_longitude origin) slat slon in
    if exceeds delta maxDelta then Ok predictedPicks
    else
      match computeTravelTimes delta (origin_depth origin) with
      | [] => Raise IndexError                       (* arrivals[0] *)
      | firstArrival :: _ =>
          let time := (origin_time origin + tt_time firstArrival)%Q in
          let pickID :=
            (timestamp env time +:+ "-PRE-" +:+ dotted net sta loc cha)%string in
          if Pick_Find env pickID then Ok predictedPicks
          else
            let wfid := mkWaveformStreamID net sta loc (cha +:+ "Z")%string in
            let predictedPick :=
              mkPick pickID wfid time (Some "P") None None None None in
            if dict_mem pickID predictedPicks then Ok predictedPicks
            else Ok (dict_set pickID predictedPick predictedPicks)
      end.

(** Lines 328-389. *)
Definition findUnpickedStations (origin : Origin) (maxDelta : Float)
    (picks : dict string Pick) : result (dict string Pick) :=
  let net_sta_blacklist :=
    map (fun '((_, pick) : string * Pick) =>
           let '(net, sta, loc, cha) := nslc pick in (net, sta))
        picks in
  foldlM (findUnpickedStations_step origin maxDelta net_sta_blacklist)
         [] (inventoryIterator env).

(** Order of the request keys in [sorted(request.keys())]. *)
Definition nslc_compare (a b : NSLC) : comparison :=
  let '(n1, s1, l1, c1) := a in
  let '(n2, s2, l2, c2) := b in
  match String.compare n1 n2 with
  | Eq =>
      match String.compare s1 s2 with
      | Eq =>
          match String.compare l1 l2 with
          | Eq => String.compare c1 c2
          | c => c
          end
      | c => c
      end
  | c => c
  end.

Fixpoint insert_key (k : NSLC) (l : list NSLC) : list NSLC :=
  match l with
  | [] => [k]
  | k' :: l' =>
      match nslc_compare k k' with
      | Gt => k' :: insert_key k l'
      | _ => k :: k' :: l'
      end
  end.

Definition sorted_keys (l : list NSLC) : list NSLC :=
  foldr insert_key [] l.

(** Lines 405-439, one pick. *)
Definition request_step (eventID : string) (request : dict NSLC (Q * Q))
    (item : string * Pick) : dict NSLC (Q * Q) :=
  let pick := item.2 in
  let wfid := pick_waveformID pick in
  let net := networkCode wfid in
  let sta := stationCode wfid in
  let loc := dashed (locationCode wfid) in
  let cha := channelCode wfid in
  let cha := if Nat.eqb (String.length cha) 2 then (cha +:+ "Z")%string else cha in
  let key := dotted net sta loc cha in
  if mseedExists env eventID key then request
  else
    let t0 := pick_time pick in
    let t1 := (t0 + - beforeP self)%Q in
    let t2 := (t0 + afterP self)%Q in
    if negb (dict_mem (net, sta, loc, String.substring 0 2 cha) (components self))
    then request
    else dict_set (net, sta, loc, cha) (t1, t2) request.

(** Lines 449-455: the streams added to the record stream. *)
Definition requested_streams (request : dict NSLC (Q * Q))
  : list StreamRequest :=
  flat_map
    (fun nslc : NSLC =>
       let '(net, sta, loc, cha) := nslc in
       match dict_get nslc request with
       | None => []
       | Some (t1, t2) =>
           map (fun comp : string =>
                  let _loc := if decide (loc = "--") then "" else loc in
                  (net, sta, _loc, (String.substring 0 2 cha +:+ comp)%string,
                   t1, t2))
               (default []
                  (dict_get (net, sta, loc, String.substring 0 2 cha)
                            (components self)))
       end)
    (sorted_keys (dict_keys request)).

(** Lines 460-467: records are filed per stream until the iterator
    yields [None]. *)
Fixpoint receive (records : list (option Record_))
    (waveforms : dict string (list Record_)) : dict string (list Record_) :=
  match records with
  | [] => waveforms
  | None :: _ => waveforms
  | Some rec :: rest =>
      let streamID := rec_streamID rec in
      let waveforms :=
        if dict_mem streamID waveforms then waveforms
        else dict_set streamID [] waveforms in
      receive rest
        (dict_set streamID (default [] (dict_get streamID waveforms) ++ [rec])
                  waveforms)
  end.

(** Lines 480-484, one stream. *)
Definition gappy_step (st : dict string (list Record_) * list string)
    (streamID : string) : dict string (list Record_) * list string :=
  let '(waveforms, gappyStreams) := st in
  let records := prepare env (default [] (dict_get streamID waveforms)) in
  let waveforms := dict_set streamID records waveforms in
  if gappy records 1 then (waveforms, gappyStreams ++ [streamID])
  else (waveforms, gappyStreams).

(** Lines 403-488. *)
Definition _loadWaveformsForPicks (picks : dict string Pick) (event : Event)
  : dict string (list Record_) * list LogLine :=
  let request := foldl (request_step (event_publicID event)) [] picks in
  match request with
  | [] => ([], [])
  | _ =>
      let waveforms := receive (recordStream env (requested_streams request)) [] in
      let '(waveforms, gappyStreams) :=
        foldl gappy_step (waveforms, []) (dict_keys waveforms) in
      (waveforms, GappyStreamIgnored <$> gappyStreams)
  end.

(** Lines 599-617.  A pick without author raises inside the [try] and
    is passed over. *)
Definition getAssociatedPicksForOrigin (originID : string) : list Pick :=
  foldl (fun associated_picks obj =>
           match Pick_Cast obj with
           | Some pick =>
               match pick_author pick with
               | Some a =>
                   if bool_decide (a ∈ ignoredAuthors) then associated_picks
                   else associated_picks ++ [pick]
               | None => associated_picks
               end
           | None => associated_picks
           end)
        [] (getPicks_origin query originID).

(** Lines 654-695, one associated pick. *)
Definition processOrigin_pick (st : Workspace * list LogLine) (pick : Pick)
  : Workspace * list LogLine :=
  let '(workspace, log) := st in
  let pickID := pick_publicID pick in
  let '(workspace, log) :=
    if dict_mem pickID (all_picks workspace) then (workspace, log)
    else (set_all_picks (dict_set pickID pick (all_picks workspace)) workspace,
          log ++ [AddedToWorkspace pickID]) in
  if manual pick && negb (repickManualPicks self)
  then (workspace, log ++ [SkippingManualPick pickID])
  else
    let log :=
      if dict_mem pickID (mlpicks workspace)
      then log ++ [SkippingAlreadyRepicked pickID]
      else log in
    if dict_mem pickID (attempted_picks workspace)
    then (workspace, log ++ [SkippingPreviouslyAttempted pickID])
    else if isRepick pick (Some (app_author self))
    then (workspace, log ++ [SkippingRepick pickID])
    else
      let found :=
        existsb (fun '((_, _pick) : string * Pick) =>
                   bool_decide (pick_waveformID _pick = pick_waveformID pick))
                (attempted_picks workspace) in
      if found then (workspace, log ++ [SkippedAttemptedWaveformID pickID])
      else
        (set_attempted_picks
           (dict_set pickID pick (attempted_picks workspace))
           (set_new_picks (dict_set pickID pick (new_picks workspace))
                          workspace),
         log ++ [AddingNewPick pickID]).

(** Lines 702-703 and 761-762. *)
Definition store_waveforms (wf : dict string (list Record_))
    (workspace : Workspace) : Workspace :=
  set_waveforms
    (foldl (fun acc '((streamID, recs) : string * list Record_) =>
              dict_set streamID recs acc)
           (waveforms workspace) wf)
    workspace.

(** Lines 723-732: the distances of the used arrivals, sorted. *)
Definition used_distances (origin : Origin) : list Q :=
  foldl (fun delta arr =>
           if Qltb (arr_weight arr) (1 # 2) then delta
           else match arr_distance arr with
                | Some d => delta ++ [d]
                | None => delta                  (* ValueError, caught *)
                end)
        [] (origin_arrivals origin).

(** Lines 709-741.  [workspace.origin] is [origin] at this point
    (line 642). *)
Definition adaptiveMaxDelta (origin : Origin) : Float :=
  if bool_decide (origin_agencyID origin ∈ emptyOriginAgencyIDs) then Num 105
  else
    let delta := sort_floats (used_distances origin) in
    match average (last3 delta) with
    | Num maxDelta => if Qltb 40 maxDelta then Num 105 else Num maxDelta
    | NaN => NaN
    | Inf negative => if negative then Inf true else Num 105
    end.

(** Lines 748-757, one predicted pick. *)
Definition processOrigin_predicted (st : Workspace * list LogLine)
    (item : string * Pick) : Workspace * list LogLine :=
  let '(workspace, log) := st in
  let '(pickID, pick) := item in
  if dict_mem pickID (all_picks workspace) then (workspace, log)
  else
    let workspace :=
      set_all_picks (dict_set pickID pick (all_picks workspace)) workspace in
    if dict_mem pickID (attempted_picks workspace)
    then (workspace, log ++ [SkippingPreviouslyAttempted pickID])
    else
      (set_attempted_picks
         (dict_set pickID pick (attempted_picks workspace))
         (set_new_picks (dict_set pickID pick (new_picks workspace))
                        workspace),
       log).

(** Lines 770-776; [workspace.waveforms[streamID][0]] raises
    [IndexError] on a stream without records. *)
Definition streams_per_nsl (wf : dict string (list Record_))
  : result (dict (string * string * string) (list string)) :=
  foldlM (fun (streamIDs : dict (string * string * string) (list string))
              '((streamID, recs) : string * list Record_) =>
            match recs with
            | [] => Raise IndexError
            | firstRecord :: _ =>
                let '(net, sta, loc, cha) := rec_nslc firstRecord in
                let streamIDs :=
                  if dict_mem (net, sta, loc) streamIDs then streamIDs
                  else dict_set (net, sta, loc) [] streamIDs in
                Ok (dict_set (net, sta, loc)
                      (default [] (dict_get (net, sta, loc) streamIDs)
                         ++ [streamID])
                      streamIDs)
            end)
         [] wf.

(** Lines 779-784. *)
Definition drop_incomplete
    (streamIDs : dict (string * string * string) (list string))
    (st : Workspace * list LogLine) : Workspace * list LogLine :=
  foldl (fun st '((nsl, ids) : string * string * string * list string) =>
           if (length ids <? 3)%nat then
             foldl (fun '((workspace, log) : Workspace * list LogLine)
                        (streamID : string) =>
                      (set_waveforms (dict_del streamID (waveforms workspace))
                                     workspace,
                       log ++ [IncompleteStreamIgnored streamID]))
                   st ids
           else st)
        st streamIDs.

Inductive ReturnValue : Type := ReturnTrue | ReturnNone.

(** Lines 743-762.  An exception of [findUnpickedStations] leaves the
    workspace as it is at the call. *)
Definition predict_unpicked (origin : Origin) (event : Event)
    (maxDelta : Float) (st : Workspace * list LogLine)
  : Workspace * list LogLine * result unit :=
  let '(workspace, log) := st in
  if tryUpickedStations self then
    match findUnpickedStations origin maxDelta (all_picks workspace) with
    | Raise e => (workspace, log, Raise e)
    | Ok predictedPicks =>
        if (0 <? length predictedPicks)%nat then
          let '(workspace, log) :=
            foldl processOrigin_predicted (workspace, log) predictedPicks in
          let '(wf, log') := _loadWaveformsForPicks (new_picks workspace) event in
          (store_waveforms wf workspace, log ++ log', Ok ())
        else (workspace, log, Ok ())
    end
  else (workspace, log, Ok ()).

(** Lines 619-784.  The workspace is the one registered for the event
    ([self.workspaces[event.publicID()]]); it is mutated in place, so
    the state reached is returned also when an exception is raised.
    [workspace.dump] writes files only. *)
Definition processOrigin (origin : Origin) (event : Event)
    (workspace : Workspace)
  : Workspace * list LogLine * result ReturnValue :=
  if bool_decide (origin_agencyID origin ∈ app_ignoredAgencyIDs self)
  then (workspace, [], Ok ReturnTrue)
  else
    let originID := origin_publicID origin in
    if (length (origin_arrivals origin) =? 0)%nat
       && negb (bool_decide
                  (origin_agencyID origin ∈ app_emptyOriginAgencyIDs self))
    then (workspace, [NoArrivalsSkipped originID], Ok ReturnNone)
    else
      let workspace := set_new_picks [] (set_origin origin workspace) in
      let associated_picks := getAssociatedPicksForOrigin originID in
      let '(workspace, log) :=
        foldl processOrigin_pick (workspace, []) associated_picks in
      let '(wf, log') := _loadWaveformsForPicks (new_picks workspace) event in
      let workspace := store_waveforms wf workspace in
      let log := log ++ log' in
      let maxDelta := adaptiveMaxDelta origin in
      match predict_unpicked origin event maxDelta (workspace, log) with
      | (workspace, log, Raise e) => (workspace, log, Raise e)
      | (workspace, log, Ok _) =>
          match streams_per_nsl (waveforms workspace) with
          | Raise e => (workspace, log, Raise e)
          | Ok streamIDs =>
              let '(workspace, log) :=
                drop_incomplete streamIDs (workspace, log) in
              (workspace, log, Ok ReturnNone)
          end
      end.

End client.

End Client.

(** ** [bin/scdlpicker-relocate-event.py] *)

Module Relocate.
Import InventoryUtil.

(** The Python values the relocator handles. *)
Inductive value : Type :=
  | VNone
  | VBool (b : bool)
  | VFloat (x : Q)
  | VStr (s : string)
  | VStrs (l : list string)
  | VQuery (q : Query)
  | VInventory (i : Inventory)
  | VEvent (e : Event)
  | VOrigin (o : Origin)
  | VPair (a b : value).

(** The parameter list of a [def]: the names in order, the last ones with
    a default value. *)
Record signature : Type := mkSignature {
  sig_required : list string;
  sig_defaults : list (string * value)
}.

Definition sig_params (sg : signature) : list string :=
  sig_required sg ++ (fst <$> sig_defaults sg).

(** The parameter lists of [lib/dbutil.py] (lines 27, 53 and 135). *)
Definition loadEvent_sig : signature :=
  mkSignature ["query"; "publicID"] [].
Definition loadOrigin_sig : signature :=
  mkSignature ["query"; "publicID"] [].
Definition loadPicksForOrigin_sig : signature :=
  mkSignature
    ["origin"; "inventory"; "allowedAuthorIDs"; "maxDelta"; "maxResidual"; "query"]
    [("keepManualPicks", VBool true)].

(** Keyword arguments are bound after the positional ones: an unknown
    name and a name already bound raise [TypeError]. *)
Definition bind_keyword (sg : signature) (bound : dict string value)
    (kw : string * value) : result (dict string value) :=
  let '(name, v) := kw in
  if negb (bool_decide (name ∈ sig_params sg)) then Raise TypeError
  else if dict_mem name bound then Raise TypeError
  else Ok (dict_set name v bound).

(** Parameters left unbound take their default; one without default
    raises [TypeError]. *)
Definition bind_rest (sg : signature) (bound : dict string value)
  : result (dict string value) :=
  if forallb (fun name => dict_mem name bound) (sig_required sg) then
    Ok (foldl (fun b '((name, v) : string * value) =>
                 if dict_mem name b then b else dict_set name v b)
              bound (sig_defaults sg))
  else Raise TypeError.

(** Binding of the arguments of a call to the parameters of the callee. *)
Definition bind_arguments (sg : signature) (args : list value)
    (kwargs : list (string * value)) : result (dict string value) :=
  if (length (sig_params sg) <? length args)%nat then Raise TypeError
  else
    bound ← foldlM (bind_keyword sg) (zip (sig_params sg) args) kwargs;
    bind_rest sg bound.

Definition call (sg : signature) (body : dict string value -> result value)
    (args : list value) (kwargs : list (string * value)) : result value :=
  locals ← bind_arguments sg args kwargs; body locals.

(** [self.name]: an attribute that was never assigned raises
    [AttributeError]. *)
Definition getattr (self : dict string value) (name : string) : result value :=
  match dict_get name self with
  | Some v => Ok v
  | None => Raise AttributeError
  end.

(** The command line of the process. *)
Record CommandLine : Type := mkCommandLine {
  optionString : string -> option string;
  optionDouble : string -> option Q;
  hasOption : string -> bool
}.

(** The bodies of the functions the relocator calls in other modules
    ([scdlpicker.dbutil], [scdlpicker.relocation], [scdlpicker.util],
    the messaging connection), each over the bound parameters. *)
Record Library : Type := mkLibrary {
  loadEvent_body : dict string value -> result value;
  loadOrigin_body : dict string value -> result value;
  loadPicksForOrigin_body : dict string value -> result value;
  relocate : list value -> result value;
  publish : value -> value -> result unit;
  str_split : string -> list string
}.

Section relocator.
Variable lib : Library.
Variable cl : CommandLine.
Variable query : Query.

(** Lines 44-51; [allowedAuthorIDs] is [_defaults.allowedAuthorIDs]. *)
Definition __init__ (allowedAuthorIDs : list string) : dict string value :=
  dict_set "allowedAuthorIDs" (VStrs allowedAuthorIDs) [].

(** Lines 86-92. *)
Definition init (inventory : Inventory) (self : dict string value)
  : dict string value :=
  dict_set "inventory" (VInventory inventory) self.

(** Lines 144-163 of [run]: the attributes [run] assigns.
    [pickAuthors] is a local name. *)
Definition run_attributes (self : dict string value) : dict string value :=
  let self :=
    dict_set "author"
      (VStr (default "dl-reloc" (optionString cl "author"))) self in
  let self :=
    dict_set "agencyID"
      (VStr (default "GFZ" (optionString cl "agency"))) self in
  dict_set "fixedDepth"
    (match optionDouble cl "fixed-depth" with
     | Some d => VFloat d
     | None => VNone
     end) self.

(** [event.preferredOriginID()] *)
Definition preferredOriginID_of (event : value) : result value :=
  match event with
  | VEvent e => Ok (VStr (preferredOriginID e))
  | _ => Raise AttributeError
  end.

(** Lines 101-139. *)
Definition processEvent (self : dict string value) (eventID : string)
  : result unit :=
  event ← call loadEvent_sig (loadEvent_body lib)
            [VQuery query; VStr eventID] [("full", VBool true)];
  originID ← preferredOriginID_of event;
  origin ← call loadOrigin_sig (loadOrigin_body lib)
             [VQuery query; originID] [("full", VBool false)];
  inventory ← getattr self "inventory";
  allowedAuthorIDs ← getattr self "allowedAuthorIDs";
  maxDelta ← getattr self "maxDelta";
  loaded ← call loadPicksForOrigin_sig (loadPicksForOrigin_body lib)
             [VQuery query; origin; inventory; allowedAuthorIDs; maxDelta] [];
  origin ← match loaded with
           | VPair origin picks => Ok origin
           | _ => Raise TypeError
           end;
  fixedDepth ← getattr self "fixedDepth";
  minimumDepth ← getattr self "minimumDepth";
  maxResidual ← getattr self "maxResidual";
  relocated ← relocate lib
                [origin; VStr eventID; fixedDepth; minimumDepth; maxResidual];
  match relocated with
  | VNone => Ok ()
  | _ =>
      author ← getattr self "author";
      agencyID ← getattr self "agencyID";
      if hasOption cl "test" then Ok ()
      else publish lib relocated event
  end.

(** Lines 141-169. *)
Definition run (self : dict string value) : result bool :=
  let self := run_attributes self in
  match optionString cl "event" with
  | None => Raise RuntimeError
  | Some ids =>
      _ ← foldlM (fun (_ : unit) eventID => processEvent self eventID)
                 () (str_split lib ids);
      Ok true
  end.

End relocator.

(** The application object at the time [run] calls [processEvent]. *)
Definition self_in_run (cl : CommandLine) (allowedAuthorIDs : list string)
    (inventory : Inventory) : dict string value :=
  run_attributes cl (init inventory (__init__ allowedAuthorIDs)).

End Relocate.

(** ** [lib/dbutil.py]: picks and amplitudes of a time span *)

Module DbUtilAmplitudes.
Import Util DbUtil.

(** An amplitude, as far as [loadPicksForTimespan] reads it. *)
Record Amplitude : Type := mkAmplitude {
  ampl_publicID : string;
  ampl_pickID : string
}.

(** A value of the dictionary that [loadPicksForTimespan] returns. *)
Inductive PickOrAmplitude : Type :=
  | APick (p : Pick)
  | AnAmplitude (a : Amplitude).

(** The database reader with its amplitude iterator; an object that
    [Amplitude.Cast] rejects is [None]. *)
Record AmplitudeQuery : Type := mkAmplitudeQuery {
  pick_query : Query;
  getAmplitudes : Q -> Q -> list (option Amplitude)
}.

(** Lines 97-132. *)
Definition loadPicksForTimespan (query : AmplitudeQuery) (startTime endTime : Q)
    (allowedAuthorIDs : list string) (withAmplitudes : bool)
  : dict string PickOrAmplitude :=
  let objects :=
    foldl (fun objects obj =>
             match Pick_Cast obj with
             | Some pick =>
                 if allowedAuthor allowedAuthorIDs pick
                 then dict_set (pick_publicID pick) (APick pick) objects
                 else objects
             | None => objects
             end)
          [] (getPicks_timespan (pick_query query) startTime endTime) in
  if negb withAmplitudes then objects
  else
    foldl (fun objects obj =>
             match obj with
             | Some ampl =>
                 if decide (ampl_pickID ampl = "") then objects
                 else if negb (dict_mem (ampl_pickID ampl) objects) then objects
                 else dict_set (ampl_publicID ampl) (AnAmplitude ampl) objects
             | None => objects
             end)
          objects (getAmplitudes query startTime endTime).

End DbUtilAmplitudes.

(** ** [bin/scdlpicker-client.py]: configuration and event handling *)

Module ClientEvents.
Import Util Client Relocate.

(** Module-level parameters (lines 42-53). *)
Definition streamTimeout : Q := 5.
Definition targetMessagingGroup : string := "MLTEST".
Definition ignoredAgencyIDs : list string := [].

(** The configuration of the application; a parameter that is not
    configured raises [RuntimeError], here [None]. *)
Record Configuration : Type := mkConfiguration {
  configGetString : string -> option string;
  configGetStrings : string -> option (list string);
  configGetDouble : string -> option Q
}.

(** The attributes that [initConfiguration] assigns.  The first and the
    last one do not exist before. *)
Record Settings : Type := mkSettings {
  self_targetMessagingGroup : option string;
  self_ignoredAuthors : list string;
  self_ignoredAgencyIDs : list string;
  self_emptyOriginAgencyIDs : list string;
  self_streamTimeout : option Q
}.

(** Lines 100-102 of [__init__]. *)
Definition __init__ : Settings :=
  mkSettings None ignoredAuthors ignoredAgencyIDs emptyOriginAgencyIDs None.

(** Lines 124-163.  [emptyOriginAgencyIDs] is assigned in the function
    and therefore a local name: when the parameter is not configured the
    name is unbound at line 156 ([UnboundLocalError], a [NameError]).
    [author] is [self.author()]. *)
Definition initConfiguration (super_initConfiguration : bool)
    (config : Configuration) (author : string) (self : Settings)
  : Settings * result bool :=
  if negb super_initConfiguration then (self, Ok false)
  else
    let self :=
      mkSettings
        (Some (default targetMessagingGroup
                 (configGetString config "scdlpicker.messagingGroup")))
        (self_ignoredAuthors self) (self_ignoredAgencyIDs self)
        (self_emptyOriginAgencyIDs self) (self_streamTimeout self) in
    let self :=
      mkSettings
        (self_targetMessagingGroup self)
        (default ignoredAuthors
           (configGetStrings config "scdlpicker.ignoredAuthors") ++ [author])
        (self_ignoredAgencyIDs self)
        (self_emptyOriginAgencyIDs self) (self_streamTimeout self) in
    let self :=
      mkSettings
        (self_targetMessagingGroup self) (self_ignoredAuthors self)
        (default [] (configGetStrings config "scdlpicker.ignoredAgencyIDs"))
        (self_emptyOriginAgencyIDs self) (self_streamTimeout self) in
    match configGetStrings config "scdlpicker.emptyOriginAgencyIDs" with
    | None => (self, Raise NameError)
    | Some emptyOriginAgencyIDs =>
        let self :=
          mkSettings
            (self_targetMessagingGroup self) (self_ignoredAuthors self)
            (self_ignoredAgencyIDs self) emptyOriginAgencyIDs
            (self_streamTimeout self) in
        (mkSettings
           (self_targetMessagingGroup self) (self_ignoredAuthors self)
           (self_ignoredAgencyIDs self) (self_emptyOriginAgencyIDs self)
           (Some (default streamTimeout
                    (configGetDouble config "scdlpicker.streamTimeout"))),
         Ok true)
    end.

(** Lines 588-597; [workspace.origin.time()] raises [AttributeError]
    when the workspace has no origin yet.  [now] is the time of the
    call. *)
Definition cleanup (now timeout : Q) (workspaces : dict string Workspace)
  : result (dict string Workspace) :=
  let tmin := (now - timeout)%Q in
  blacklist ←
    foldlM (fun (blacklist : list string)
                '((eventID, workspace) : string * Workspace) =>
              match ws_origin workspace with
              | None => Raise AttributeError
              | Some origin =>
                  if Qltb (origin_time origin) tmin
                  then Ok (blacklist ++ [eventID])
                  else Ok blacklist
              end)
           [] workspaces;
  Ok (foldl (fun workspaces eventID => dict_del eventID workspaces)
            workspaces blacklist).

(** The default of [timeout] (line 588). *)
Definition cleanup_timeout : Q := 30 * 3600.

Section events.
Variable sm : Seismology.
Variable env : Environment.
Variable lib : Library.
Variable query : Query.
Variable self : App.
(** [_ews.EventWorkspace()] *)
Variable EventWorkspace : Workspace.

(** Lines 397-401. *)
Definition _loadEvent (publicID : string) : result value :=
  call loadEvent_sig (loadEvent_body lib)
       [VQuery query; VStr publicID] [("full", VBool true)].

Definition _loadOrigin (publicID : string) : result value :=
  call loadOrigin_sig (loadOrigin_body lib)
       [VQuery query; VStr publicID] [("full", VBool false)].

(** [self.processOrigin(origin, event)] on the workspaces of the
    application: line 640 looks the workspace up under the ID of the
    event it is given, after the two early returns of lines 624-636. *)
Definition processOrigin_of (workspaces : dict string Workspace)
    (origin : Origin) (event : Event)
  : dict string Workspace * result ReturnValue :=
  match dict_get (event_publicID event) workspaces with
  | Some workspace =>
      let '(workspace, _, r) :=
        processOrigin sm env query self origin event workspace in
      (dict_set (event_publicID event) workspace workspaces, r)
  | None =>
      if bool_decide (origin_agencyID origin ∈ app_ignoredAgencyIDs self)
      then (workspaces, Ok ReturnTrue)
      else if (length (origin_arrivals origin) =? 0)%nat
              && negb (bool_decide
                         (origin_agencyID origin ∈ app_emptyOriginAgencyIDs self))
      then (workspaces, Ok ReturnNone)
      else (workspaces, Raise KeyError)
  end.

(** Lines 786-809.  The workspaces are those of the application; they
    are mutated in place, so the state reached is returned also when an
    exception is raised.  [now] is the time at which [cleanup] is
    called.  The assignment to [workspace.event] is left out. *)
Definition processEvent (now : Q) (workspaces : dict string Workspace)
    (event : Event) : dict string Workspace * result unit :=
  let eventID := event_publicID event in
  let workspaces :=
    if dict_mem eventID workspaces then workspaces
    else dict_set eventID EventWorkspace workspaces in
  match dict_get eventID workspaces with
  | None => (workspaces, Raise KeyError)
  | Some workspace =>
      match _loadEvent eventID with
      | Raise e => (workspaces, Raise e)
      | Ok (VEvent event) =>
          let originID := preferredOriginID event in
          if match ws_origin workspace with
             | Some o => bool_decide (originID = origin_publicID o)
             | None => false
             end
          then (workspaces, Ok ())
          else
            match call loadOrigin_sig (loadOrigin_body lib)
                       [VQuery query; VStr originID] [("full", VBool true)] with
            | Raise e => (workspaces, Raise e)
            | Ok (VOrigin origin) =>
                match processOrigin_of workspaces origin event with
                | (workspaces, Raise e) => (workspaces, Raise e)
                | (workspaces, Ok _) =>
                    match cleanup now cleanup_timeout workspaces with
                    | Raise e => (workspaces, Raise e)
                    | Ok workspaces => (workspaces, Ok ())
                    end
                end
            | Ok _ => (workspaces, Raise AttributeError)
            end
      | Ok _ => (workspaces, Raise AttributeError)
      end
  end.

(** [sorted(self.pendingEvents.keys())] *)
Fixpoint insert_string (k : string) (l : list string) : list string :=
  match l with
  | [] => [k]
  | k' :: l' =>
      match String.compare k k' with
      | Gt => k' :: insert_string k l'
      | _ => k :: k' :: l'
      end
  end.

Definition sorted_strings (l : list string) : list string :=
  foldr insert_string [] l.

(** Lines 314-318, the loop over the keys as they were sorted at its
    start.  [pollRepickerResults] sends what the repicker left in its
    outgoing directory; it reads neither the pending events nor the
    workspaces.  [now] gives the time of [cleanup] for each event. *)
Fixpoint processPendingEvents_loop (now : string -> Q) (eventIDs : list string)
    (pendingEvents : dict string Event) (workspaces : dict string Workspace)
  : dict string Event * dict string Workspace * result unit :=
  match eventIDs with
  | [] => (pendingEvents, workspaces, Ok ())
  | eventID :: rest =>
      match dict_get eventID pendingEvents with
      | None => (pendingEvents, workspaces, Raise KeyError)
      | Some event =>
          let pendingEvents := dict_del eventID pendingEvents in
          match processEvent (now eventID) workspaces event with
          | (workspaces, Raise e) => (pendingEvents, workspaces, Raise e)
          | (workspaces, Ok _) =>
              processPendingEvents_loop now rest pendingEvents workspaces
          end
      end
  end.

Definition processPendingEvents (now : string -> Q)
    (pendingEvents : dict string Event) (workspaces : dict string Workspace)
  : dict string Event * dict string Workspace * result unit :=
  processPendingEvents_loop now (sorted_strings (dict_keys pendingEvents))
                            pendingEvents workspaces.

End events.

End ClientEvents.

(** * Vocabulary of the properties and sample data *)

Module Vocabulary.

(** An arrival is used by the location when its weight is at least 0.5. *)
Definition usedArrival (arr : Arrival) : bool := Qle_bool (1 # 2) (arr_weight arr).

(** The distances of the used arrivals that carry a distance. *)
Definition usedArrivalDistances (origin : Origin) : list Q :=
  omap (fun arr => if usedArrival arr then arr_distance arr else None)
       (origin_arrivals origin).

(** [a], [b], [c] are three largest members of [l]. *)
Definition three_largest (l : list Q) (a b c : Q) : Prop :=
  exists rest,
    l ≡ₚ a :: b :: c :: rest
    /\ Forall (fun x => (x <= a)%Q /\ (x <= b)%Q /\ (x <= c)%Q) rest.

(** The claim on the adaptive maximum distance, with the mean of the
    three largest used distances taken exactly. *)
Definition maxDelta_is_exact_mean : Prop :=
  forall origin : Origin,
    origin_agencyID origin ∉ Client.emptyOriginAgencyIDs ->
    (3 <= length (usedArrivalDistances origin))%nat ->
    exists a b c,
      three_largest (usedArrivalDistances origin) a b c
      /\ ((a + b + c) / 3 <= 40 ->
          exists m, m == (a + b + c) / 3
                    /\ Client.adaptiveMaxDelta origin = Client.Num m)%Q
      /\ (40 < (a + b + c) / 3 ->
          Client.adaptiveMaxDelta origin = Client.Num 105)%Q.

(** Half the distance between neighbouring doubles, relative to their
    size: [2^-53]. *)
Definition unit_roundoff : Q := 1 # 9007199254740992.

(** Half the least positive double: [2^-1075]. *)
Definition half_least_subnormal : Q := (2 ^ (-1075))%Q.

(** [2^-43]: how far the mean computed from three distances between 0
    and 180 degrees can be from their exact mean. *)
Definition mean_accuracy : Q := 1 # 8796093022208.

(** A dictionary of picks keyed by their public ID, each key once. *)
Definition keyed_by_publicID (d : dict string Pick) : Prop :=
  NoDup (dict_keys d) /\ Forall (fun e => fst e = pick_publicID (snd e)) d.

(** [None] for the empty list. *)
Definition nonempty {A : Type} (l : list A) : option (list A) :=
  match l with
  | [] => None
  | _ => Some l
  end.

(** The picks of a channel among a list of picks, in the order of the
    list. *)
Definition channel_group (k : NSLC) (l : list Pick) : list Pick :=
  filter (fun p => Util.nslc p = k) l.

(** [-k*maxResidual < dt < k*maxResidual] *)
Definition within_window (k maxResidual dt : Q) : Prop :=
  (- k * maxResidual < dt /\ dt < k * maxResidual)%Q.

(** The test of the candidate stage on one entry of the pick dictionary
    (lines 160-183). *)
Definition interesting (sm : Seismology) (origin : Origin)
    (inventory : InventoryUtil.Inventory) (maxDelta maxResidual : Q)
    (e : string * Pick) : bool :=
  match DbUtil.locate sm origin inventory maxDelta (Util.nslc (snd e)) (snd e) with
  | Ok (DbUtil.Residual _ dt) => negb (DbUtil.outsideWindow 4 maxResidual dt)
  | _ => false
  end.

(** The arrival that the association loop builds for a pick at the
    distance [delta] (lines 272-279). *)
Definition automatic_arrival (maxDelta : Q) (pick : Pick) (delta : Q) : Arrival :=
  mkArrival (pick_publicID pick) "P" (Some (Qle_bool delta maxDelta)) 1 None.

(** The time span of the query of [loadPicksForOrigin]. *)
Definition loaded_picks (origin : Origin) (allowedAuthorIDs : list string)
    (query : Query) : dict string Pick :=
  DbUtil.loadPicksForTimespan query (origin_time origin)
    (origin_time origin + 1200)%Q allowedAuthorIDs.

(** A manual arrival with phase "P" is retained on the origin for the
    waveform ID [w]: [retained] are the arrivals kept, [associated] the
    picks they reference. *)
Definition manual_P_retained (retained : list Arrival)
    (associated : dict string Pick) (w : WaveformStreamID) : Prop :=
  exists m pm,
    m ∈ retained
    /\ dict_get (arr_pickID m) associated = Some pm
    /\ pick_waveformID pm = w
    /\ arr_phase m = "P".

(** The picks delivered by the catalog for the time span of an origin. *)
Definition delivered (origin : Origin) (query : Query) : list Object :=
  getPicks_timespan query (origin_time origin) (origin_time origin + 1200)%Q.

(** The choice of the representative of every channel group does not
    depend on the order of delivery. *)
Definition representative_independent_of_delivery : Prop :=
  forall sm origin inventory allowedAuthorIDs maxDelta maxResidual
         query1 query2 groups1 groups2 k rep1 rest1 rep2 rest2,
    delivered origin query1 ≡ₚ delivered origin query2 ->
    DbUtil.candidate_groups sm origin inventory allowedAuthorIDs maxDelta
      maxResidual query1 = Ok groups1 ->
    DbUtil.candidate_groups sm origin inventory allowedAuthorIDs maxDelta
      maxResidual query2 = Ok groups2 ->
    dict_get k groups1 = Some (rep1 :: rest1) ->
    dict_get k groups2 = Some (rep2 :: rest2) ->
    rep1 = rep2.

(** A public ID names one pick. *)
Definition publicID_unique (objs : list Object) : Prop :=
  forall p q, ObjPick p ∈ objs -> ObjPick q ∈ objs ->
              pick_publicID p = pick_publicID q -> p = q.

(** The distance at which the candidate stage of [loadPicksForOrigin]
    consults the travel-time table for a pick: the station of the pick is
    known and not farther than [maxDelta]. *)
Definition consulted_for_pick (sm : Seismology) (origin : Origin)
    (inventory : InventoryUtil.Inventory) (maxDelta : Q) (pick : Pick)
  : option Q :=
  let '(n, s, l, c) := Util.nslc pick in
  match dict_get (n, s)
          (InventoryUtil.getStations inventory (origin_time origin)) with
  | None => None
  | Some sta =>
      let delta :=
        delazi_wgs84 sm (origin_latitude origin) (origin_longitude origin)
                     (sta_latitude sta) (sta_longitude sta) in
      if Qltb maxDelta delta then None else Some delta
  end.

(** The stations represented by a pick (lines 338-342). *)
Definition represented_stations (picks : dict string Pick)
  : list (string * string) :=
  map (fun '((_, pick) : string * Pick) =>
         let '(net, sta, loc, cha) := Util.nslc pick in (net, sta))
      picks.

(** The distance at which [findUnpickedStations] consults the travel-time
    table for a stream of the inventory: the station is not represented
    by a pick, the stream is configured and not farther than
    [maxDelta]. *)
Definition consulted_for_stream (sm : Seismology) (self : Client.App)
    (origin : Origin) (maxDelta : Client.Float)
    (net_sta_blacklist : list (string * string))
    (item : Client.InventoryStream) : option Q :=
  let net := Client.inv_network item in
  let sta := Client.inv_station item in
  if bool_decide ((net, sta) ∈ net_sta_blacklist) then None
  else if negb (bool_decide
                  ((net, sta, Client.dashed (Client.inv_location item),
                    String.substring 0 2 (Client.inv_stream item))
                     ∈ Client.configuredStreams self))
  then None
  else
    let delta :=
      delazi sm (origin_latitude origin) (origin_longitude origin)
             (sta_latitude (Client.inv_coordinates item))
             (sta_longitude (Client.inv_coordinates item)) in
    if Client.exceeds delta maxDelta then None else Some delta.

(** The claim as the specification states it: whatever the travel-time
    table answers, neither caller raises. *)
Definition empty_travel_times_are_passed_over : Prop :=
  (forall sm origin inventory maxDelta maxResidual picks,
     exists poi,
       DbUtil.picks_of_interest sm origin inventory maxDelta maxResidual picks
       = Ok poi)
  /\ (forall sm env self origin maxDelta picks,
        exists predictedPicks,
          Client.findUnpickedStations sm env self origin maxDelta picks
          = Ok predictedPicks).

(** [passes ws ws']: the workspace [ws'] is reached from [ws] by a
    sequence of processing passes ([processOrigin]), whatever the origins
    and whatever the state of the world at each pass. *)
Inductive passes : Client.Workspace -> Client.Workspace -> Prop :=
  | passes_none (ws : Client.Workspace) : passes ws ws
  | passes_more (ws ws1 ws2 : Client.Workspace)
      (sm : Seismology) (env : Client.Environment) (query : Query)
      (self : Client.App) (origin : Origin) (event : Event)
      (log : list Client.LogLine) (r : result Client.ReturnValue) :
      Client.processOrigin sm env query self origin event ws = (ws1, log, r) ->
      passes ws1 ws2 ->
      passes ws ws2.

(** The pick [id] is registered as attempted, is not among the new picks
    and was not reported as added. *)
Definition attempted_not_new (id : string) (p : Pick)
    (st : Client.Workspace * list Client.LogLine) : Prop :=
  dict_get id (Client.attempted_picks (fst st)) = Some p
  /\ dict_mem id (Client.new_picks (fst st)) = false
  /\ Client.AddingNewPick id ∉ snd st.

(** The new picks of a workspace are attempted picks, and the attempted
    picks are known picks. *)
Definition workspace_consistent (ws : Client.Workspace) : Prop :=
  (forall id p, dict_get id (Client.new_picks ws) = Some p ->
                dict_get id (Client.attempted_picks ws) = Some p)
  /\ (forall id, dict_mem id (Client.attempted_picks ws) = true ->
                 dict_mem id (Client.all_picks ws) = true).

(** No two entries of the dictionary are picks of one waveform ID. *)
Definition one_pick_per_waveformID (d : dict string Pick) : Prop :=
  forall e1 e2, e1 ∈ d -> e2 ∈ d ->
                pick_waveformID (snd e1) = pick_waveformID (snd e2) ->
                fst e1 = fst e2.

(** The records that a record stream yields before its end marker. *)
Fixpoint until_None {A : Type} (l : list (option A)) : list A :=
  match l with
  | Some x :: l' => x :: until_None l'
  | _ => []
  end.

(** The (network, station, location) of a stream, read off its first
    record. *)
Definition nsl_of (records : list Record_) : option (string * string * string) :=
  match records with
  | [] => None
  | r :: _ => let '(net, sta, loc, cha) := rec_nslc r in Some (net, sta, loc)
  end.

(** The number of streams of the waveform set that share the (network,
    station, location) of the given records. *)
Definition components_of (wf : dict string (list Record_))
    (records : list Record_) : nat :=
  length (filter (fun e => nsl_of (snd e) = nsl_of records) wf).

(** The (network, station) of a pick. *)
Definition station_of (pick : Pick) : string * string :=
  (networkCode (pick_waveformID pick), stationCode (pick_waveformID pick)).

(** The stream [item] of the inventory belongs to a station that none of
    [picks] represents, its band is configured, the station is not beyond
    [maxDelta] from the origin and [firstArrival] is the first entry of
    the travel-time list for it. *)
Definition unpicked_station (sm : Seismology) (self : Client.App)
    (origin : Origin) (maxDelta : Client.Float) (picks : dict string Pick)
    (item : Client.InventoryStream) (firstArrival : TravelTime) : Prop :=
  let delta :=
    delazi sm (origin_latitude origin) (origin_longitude origin)
           (sta_latitude (Client.inv_coordinates item))
           (sta_longitude (Client.inv_coordinates item)) in
  (forall e, e ∈ picks ->
     station_of (snd e) <> (Client.inv_network item, Client.inv_station item))
  /\ ((Client.inv_network item, Client.inv_station item,
       Client.dashed (Client.inv_location item),
       String.substring 0 2 (Client.inv_stream item))
      ∈ Client.configuredStreams self)
  /\ Client.exceeds delta maxDelta = false
  /\ head (ttt_compute sm (origin_depth origin) delta) = Some firstArrival.

(** The pick predicted for a stream of the inventory: a "P" pick at the
    predicted time on the vertical component, without method, evaluation
    mode or creation info. *)
Definition predicted_pick (env : Client.Environment) (origin : Origin)
    (item : Client.InventoryStream) (firstArrival : TravelTime) : Pick :=
  let time := (origin_time origin + tt_time firstArrival)%Q in
  let cha := String.substring 0 2 (Client.inv_stream item) in
  mkPick (Client.timestamp env time +:+ "-PRE-"
          +:+ Client.dotted (Client.inv_network item) (Client.inv_station item)
                            (Client.inv_location item) cha)%string
         (mkWaveformStreamID (Client.inv_network item) (Client.inv_station item)
                             (Client.inv_location item) (cha +:+ "Z")%string)
         time (Some "P") None None None None.

(** The entry [key], [window] of the waveform request is the one that
    [_loadWaveformsForPicks] files for [pick]: the stream of the pick
    (with "--" for an empty location code and "Z" appended to a
    two-letter channel code) has no miniSEED file for the event yet, its
    band has components in the inventory, and the window reaches from
    [beforeP] before to [afterP] after the pick time. *)
Definition requested_for (env : Client.Environment) (self : Client.App)
    (eventID : string) (pick : Pick) (key : NSLC) (window : Q * Q) : Prop :=
  let wfid := pick_waveformID pick in
  let '(net, sta, loc, cha) := key in
  net = networkCode wfid
  /\ sta = stationCode wfid
  /\ loc = Client.dashed (locationCode wfid)
  /\ cha = (if Nat.eqb (String.length (channelCode wfid)) 2
            then (channelCode wfid +:+ "Z")%string else channelCode wfid)
  /\ Client.mseedExists env eventID (Client.dotted net sta loc cha) = false
  /\ dict_mem (net, sta, loc, String.substring 0 2 cha) (Client.components self)
     = true
  /\ window = ((pick_time pick + - Client.beforeP self)%Q,
               (pick_time pick + Client.afterP self)%Q).

(** The origin of the workspace is older than [timeout] at [now]. *)
Definition expired (now timeout : Q) (ws : Client.Workspace) : bool :=
  match Client.ws_origin ws with
  | Some origin => Qltb (origin_time origin) (now - timeout)
  | None => false
  end.

(** The workspaces with the one of the event registered: an event
    without workspace gets the fresh one. *)
Definition registered (fresh : Client.Workspace)
    (workspaces : dict string Client.Workspace) (event : Event)
  : dict string Client.Workspace :=
  if dict_mem (event_publicID event) workspaces then workspaces
  else dict_set (event_publicID event) fresh workspaces.

End Vocabulary.

(** Sample data. *)
Module Sample.
Local Open Scope Q_scope.

Definition arrival_at (weight distance : Q) : Arrival :=
  mkArrival "20240101.120000.00-AIC-GE.APE..BHZ" "P" (Some true) weight
            (Some distance).

(** An origin at (0, 0), 10 km deep, whose arrivals are used at the given
    distances. *)
Definition origin_used_at (distances : list Q) : Origin :=
  mkOrigin "Origin/1" 0 0 0 10 "GFZ" (arrival_at 1 <$> distances).

(** Three used distances whose exact mean exceeds 40 degrees by a third
    of [2^-47], the distance from 40 to the next double. *)
Definition near_forty : list Q := [40; 40; 40 + (1 # 140737488355328)].

(** A toy earth: the stations lie on the meridian of the epicentre, the
    first arrival takes 10 s per degree, and the table ends at 100
    degrees. *)
Definition sample_sm : Seismology :=
  mkSeismology
    (fun elat elon slat slon => slat - elat)%Q
    (fun elat elon slat slon => slat - elat)%Q
    (fun depth delta =>
       if Qle_bool delta 100
       then [mkTravelTime "P" (10 * delta); mkTravelTime "PP" (15 * delta)]
       else []).

Definition sample_inventory : InventoryUtil.Inventory :=
  [ InventoryUtil.mkStationEpoch "GE" "APE" 0 None (mkStation 20 0);
    InventoryUtil.mkStationEpoch "GE" "KARP" 0 None (mkStation 30 0);
    InventoryUtil.mkStationEpoch "GE" "FAR" 0 None (mkStation 102 0) ].

(** Origin time 1000 s: P is expected at 1200 s at APE, at 1300 s at
    KARP. *)
Definition sample_origin : Origin :=
  mkOrigin "Origin/1" 1000 0 0 10 "GFZ" [].

Definition bhz (sta : string) : WaveformStreamID :=
  mkWaveformStreamID "GE" sta "" "BHZ".

Definition dl_pick (id sta : string) (time created : Q) : Pick :=
  mkPick id (bhz sta) time (Some "P") (Some "DL") (Some AUTOMATIC)
         (Some "dlpicker") (Some created).

Definition manual_pick (id sta : string) (time : Q) : Pick :=
  mkPick id (bhz sta) time (Some "P") None (Some MANUAL)
         (Some "analyst") (Some 4000).

(** A database that delivers [delivered] for the time span and knows the
    arrivals [arrs] and their picks [associated] for the origin. *)
Definition sample_query (delivered : list Pick) (associated : list Pick)
    (arrs : list Arrival) : Query :=
  mkQuery (fun _ _ => ObjPick <$> delivered)
          (fun _ => ObjPick <$> associated)
          (fun _ => arrs).

Definition sample_manualArrival (arr : Arrival) : bool :=
  bool_decide (arr_pickID arr = "manual-APE").

Definition manual_APE : Pick := manual_pick "manual-APE" "APE" 1200.
Definition arrival_manual_APE : Arrival :=
  mkArrival "manual-APE" "P" (Some true) 1 (Some 20).
Definition arrival_auto_KARP : Arrival :=
  mkArrival "auto-KARP" "P" (Some true) 1 (Some 30).

Definition dl_APE : Pick := dl_pick "dl-APE" "APE" 1201 5000.
Definition dl_APE_twin : Pick := dl_pick "dl-APE-twin" "APE" (2401 # 2) 5000.
Definition dl_APE_late : Pick := dl_pick "dl-APE-late" "APE" 1199 5001.
Definition dl_KARP : Pick := dl_pick "dl-KARP" "KARP" 1302 5002.
(** Residuals 10 s and 5 s: on the boundaries for [maxResidual] 2.5 s. *)
Definition dl_KARP_10 : Pick := dl_pick "dl-KARP-10" "KARP" 1310 5003.
Definition dl_APE_5 : Pick := dl_pick "dl-APE-5" "APE" 1205 5004.
Definition dl_FAR : Pick := dl_pick "dl-FAR" "FAR" 2020 5005.

Definition sample_authors : list string := ["dlpicker"].

(** Two picks on APE (one blocked by the manual arrival when it is kept),
    one on KARP, and two picks whose residuals lie on the boundaries of
    the two windows for [maxResidual] 2.5 s. *)
Definition sample_delivered : list Pick :=
  [dl_APE_late; dl_APE; dl_KARP; dl_KARP_10; dl_APE_5].

Definition sample_catalog : Query :=
  sample_query sample_delivered [manual_APE]
               [arrival_manual_APE; arrival_auto_KARP].

(** The client: three configured stations with three components each. *)
Definition bh (sta : string) : NSLC := ("GE", sta, "--", "BH").

Definition sample_app : Client.App :=
  Client.mkApp "dlpicker" [] [] false true 60 120
    [(bh "APE", ["Z"; "N"; "E"]); (bh "KARP", ["Z"; "N"; "E"]);
     (bh "FAR", ["Z"; "N"; "E"])]
    [bh "APE"; bh "KARP"; bh "FAR"].

Definition inventory_stream (sta : string) (lat : Q) : Client.InventoryStream :=
  Client.mkInventoryStream "GE" sta "" "BHZ" (mkStation lat 0).

(** An environment without files on disk and without registered public
    objects, whose record stream delivers [records] and whose inventory
    holds [streams]; [prepare] leaves the records as they are. *)
Definition sample_env (records : list (option Record_))
    (streams : list Client.InventoryStream) : Client.Environment :=
  Client.mkEnvironment (fun _ _ => false) (fun _ => records) streams
                       (fun _ => false) (fun _ => "19700101.002000.00")
                       (fun recs => recs).

Definition record_APE (startTime endTime : Q) : Record_ :=
  mkRecord "GE.APE..BHZ" ("GE", "APE", "", "BHZ") startTime endTime.

(** Two records 1.01 s apart, and two records 0.99 s apart. *)
Definition gap_101 : list (option Record_) :=
  [Some (record_APE 1140 1170); Some (record_APE (117101 # 100) 1320)].
Definition gap_099 : list (option Record_) :=
  [Some (record_APE 1140 1170); Some (record_APE (117099 # 100) 1320)].

Definition sample_event : Event := mkEvent "Event/1" "Origin/1".

Definition empty_workspace : Client.Workspace :=
  Client.mkWorkspace None [] [] [] [] [].

Definition auto_pick (id sta : string) (time : Q) : Pick :=
  mkPick id (bhz sta) time (Some "P") (Some "AIC") (Some AUTOMATIC)
         (Some "scautopick") (Some 3000).

(** A workspace in which a repick result for "auto-APE" is registered, and
    an origin to which that pick is associated. *)
Definition repicked_workspace : Client.Workspace :=
  Client.mkWorkspace None [] [] []
    [("auto-APE", dl_pick "dl-APE" "APE" 1201 5000)] [].

Definition origin_with_arrival : Origin :=
  mkOrigin "Origin/1" 1000 0 0 10 "GFZ" [arrival_at 1 20].

Definition attempted_workspace : Client.Workspace :=
  Client.mkWorkspace None [] [] [("auto-APE", auto_pick "auto-APE" "APE" 1200)]
    [] [].

(** A pick on KARP without creation info, and a catalog that delivers it
    alone on its channel. *)
Definition dl_KARP_undated : Pick :=
  mkPick "dl-KARP-undated" (bhz "KARP") 1301 (Some "P") (Some "DL")
         (Some AUTOMATIC) (Some "dlpicker") None.

Definition undated_catalog : Query :=
  sample_query [dl_APE; dl_KARP_undated] [] [].

(** A catalog that delivers a pick of the station at 102 degrees. *)
Definition far_catalog : Query :=
  sample_query [dl_APE; dl_FAR] [manual_APE] [arrival_manual_APE].

(** A catalog whose manual arrival references a pick that the database
    does not return for the origin. *)
Definition orphan_catalog : Query :=
  sample_query [dl_KARP] [] [arrival_manual_APE].

(** A workspace with the three components of APE and one of KARP. *)
Definition sample_record (sta cha : string) : Record_ :=
  mkRecord ("GE." +:+ sta +:+ ".." +:+ cha)%string ("GE", sta, "", cha) 0 1.

Definition sample_stream (sta cha : string) : string * list Record_ :=
  (("GE." +:+ sta +:+ ".." +:+ cha)%string, [sample_record sta cha]).

Definition three_and_one_workspace : Client.Workspace :=
  Client.mkWorkspace None [] [] [] []
    [sample_stream "APE" "BHZ"; sample_stream "KARP" "BHZ";
     sample_stream "APE" "BHN"; sample_stream "APE" "BHE"].

(** A library whose functions return [None]. *)
Definition sample_library : Relocate.Library :=
  Relocate.mkLibrary (fun _ => Ok Relocate.VNone) (fun _ => Ok Relocate.VNone)
                     (fun _ => Ok Relocate.VNone) (fun _ => Ok Relocate.VNone)
                     (fun _ _ => Ok ()) (fun s => [s]).

Definition sample_pending : dict string Event :=
  [("Event/2", mkEvent "Event/2" "Origin/2"); ("Event/1", sample_event)].

(** Two loaded picks and the amplitudes delivered with them: one of the
    pick "dl-APE", one of the pick "dl-KARP" that carries the public ID
    of the pick "dl-APE", an object that is no amplitude, and one of a
    pick that is not loaded. *)
Definition sample_amplitudes : DbUtilAmplitudes.AmplitudeQuery :=
  DbUtilAmplitudes.mkAmplitudeQuery
    (sample_query [dl_APE; dl_KARP] [] [])
    (fun _ _ =>
       [Some (DbUtilAmplitudes.mkAmplitude "ampl-APE" "dl-APE");
        Some (DbUtilAmplitudes.mkAmplitude "dl-APE" "dl-KARP");
        None;
        Some (DbUtilAmplitudes.mkAmplitude "ampl-FAR" "dl-FAR")]).

End Sample.

(** * Properties *)

(** ** Facts about the Python runtime model *)

Module PyFacts.

Lemma Qltb_lt (x y : Q) : Qltb x y = true <-> (x < y)%Q.
Proof.
  unfold Qltb. rewrite negb_true_iff, <- not_true_iff_false, Qle_bool_iff.
  split; [apply Qnot_le_lt | apply Qlt_not_le].
Qed.

Lemma Qltb_ge (x y : Q) : Qltb x y = false <-> (y <= x)%Q.
Proof.
  unfold Qltb. rewrite negb_false_iff. apply Qle_bool_iff.
Qed.

Lemma bind_Ok {A B : Type} (m : result A) (k : A -> result B) (b : B) :
  m ≫= k = Ok b <-> exists a, m = Ok a /\ k a = Ok b.
Proof.
  destruct m as [a|e]; cbn; split.
  - eauto.
  - intros (a' & [= ->] & Hk); exact Hk.
  - discriminate.
  - intros (a' & Hm & _); discriminate.
Qed.

(** Invariants of a loop with exceptions. *)
Lemma foldlM_invariant {A S : Type} (P : S -> Prop)
    (body : S -> A -> result S) (l : list A) (s s' : S) :
  (forall s x s', x ∈ l -> P s -> body s x = Ok s' -> P s') ->
  P s -> foldlM body s l = Ok s' -> P s'.
Proof.
  revert s; induction l as [|x l IH]; intros s Hstep HP Hrun; cbn in Hrun.
  - injection Hrun as <-; exact HP.
  - apply bind_Ok in Hrun as (s1 & H1 & H2).
    apply (IH s1); [ | | exact H2].
    + intros t y t' Hy; apply Hstep; right; exact Hy.
    + apply (Hstep s x s1); [left | exact HP | exact H1].
Qed.

Lemma foldl_invariant {A S : Type} (P : S -> Prop) (f : S -> A -> S)
    (l : list A) (s : S) :
  (forall s x, x ∈ l -> P s -> P (f s x)) -> P s -> P (foldl f s l).
Proof.
  revert s; induction l as [|x l IH]; intros s Hstep HP; cbn; [exact HP|].
  apply IH.
  - intros t y Hy; apply Hstep; right; exact Hy.
  - apply Hstep; [left | exact HP].
Qed.

(** A loop whose body raises [e] exactly on the bad items either
    completes, and then no item is bad, or raises [e], and then some item
    is bad. *)
Lemma foldlM_cases {A S : Type} (body : S -> A -> result S) (bad : A -> Prop)
    (e : exn) (l : list A) (s : S) :
  (forall s x, x ∈ l ->
     (bad x /\ body s x = Raise e) \/ (~ bad x /\ exists s', body s x = Ok s')) ->
  (exists s', foldlM body s l = Ok s' /\ forall x, x ∈ l -> ~ bad x)
  \/ (foldlM body s l = Raise e /\ exists x, x ∈ l /\ bad x).
Proof.
  revert s; induction l as [|x l IH]; intros s Hbody; cbn.
  - left. exists s. split; [reflexivity|]. intros x Hx; inversion Hx.
  - destruct (Hbody s x (list_elem_of_here _ _)) as [[Hbad ->]|[Hgood [s1 ->]]]; cbn.
    + right. split; [reflexivity|]. exists x. split; [left | exact Hbad].
    + destruct (IH s1) as [(s' & Hs' & Hall)|(Hraise & y & Hy & Hbad)].
      * intros t y Hy. apply Hbody. right; exact Hy.
      * left. exists s'. split; [exact Hs'|].
        intros y Hy. apply elem_of_cons in Hy as [->|Hy]; [exact Hgood | auto].
      * right. split; [exact Hraise|]. exists y. split; [right; exact Hy | exact Hbad].
Qed.

Section dict_facts.
Context {K V : Type} `{EqDecision K}.
Implicit Types (k : K) (v : V) (d : dict K V).

Lemma dict_get_set k k' v d :
  dict_get k (dict_set k' v d) = if decide (k = k') then Some v else dict_get k d.
Proof.
  induction d as [|[k0 v0] d IH]; cbn.
  - destruct (decide (k = k')); reflexivity.
  - destruct (decide (k' = k0)) as [->|Hne]; cbn.
    + destruct (decide (k = k0)); reflexivity.
    + destruct (decide (k = k0)) as [->|Hne'].
      * destruct (decide (k0 = k')); [congruence | reflexivity].
      * exact IH.
Qed.

Lemma dict_mem_set k k' v d :
  dict_mem k (dict_set k' v d) = bool_decide (k = k') || dict_mem k d.
Proof.
  unfold dict_mem. rewrite dict_get_set.
  destruct (decide (k = k')) as [->|Hne].
  - rewrite bool_decide_eq_true_2 by reflexivity. reflexivity.
  - rewrite bool_decide_eq_false_2 by exact Hne. reflexivity.
Qed.

Lemma dict_mem_keys k d : dict_mem k d = true <-> k ∈ dict_keys d.
Proof.
  unfold dict_mem, dict_keys.
  induction d as [|[k0 v0] d IH]; cbn.
  - split; [discriminate | intros Hin; inversion Hin].
  - destruct (decide (k = k0)) as [->|Hne].
    + split; [intros _; left | reflexivity].
    + rewrite IH. split; [intros Hin; right; exact Hin|].
      intros Hin. inversion Hin; subst; [congruence | assumption].
Qed.

Lemma dict_get_Some_elem k v d : dict_get k d = Some v -> (k, v) ∈ d.
Proof.
  induction d as [|[k0 v0] d IH]; cbn; [discriminate|].
  destruct (decide (k = k0)) as [->|Hne].
  - intros [= ->]; left.
  - intros Hget; right; exact (IH Hget).
Qed.

Lemma dict_keys_set k v d :
  dict_keys (dict_set k v d)
  = if dict_mem k d then dict_keys d else dict_keys d ++ [k].
Proof.
  unfold dict_mem, dict_keys.
  induction d as [|[k0 v0] d IH]; cbn; [reflexivity|].
  destruct (decide (k = k0)) as [->|Hne]; cbn; [reflexivity|].
  rewrite IH. destruct (dict_get k d); reflexivity.
Qed.

Lemma dict_set_fresh k v d : dict_mem k d = false -> dict_set k v d = d ++ [(k, v)].
Proof.
  unfold dict_mem.
  induction d as [|[k0 v0] d IH]; cbn; [reflexivity|].
  destruct (decide (k = k0)) as [->|Hne]; [discriminate|].
  intros Hd; rewrite (IH Hd); reflexivity.
Qed.

Lemma dict_elem_get k v d :
  NoDup (dict_keys d) -> (k, v) ∈ d -> dict_get k d = Some v.
Proof.
  unfold dict_keys.
  induction d as [|[k0 v0] d IH]; cbn; intros Hnd Hin; [inversion Hin|].
  apply NoDup_cons in Hnd as [Hk0 Hnd].
  destruct (decide (k = k0)) as [->|Hne].
  - inversion Hin; subst; [reflexivity|].
    exfalso; apply Hk0. apply (list_elem_of_fmap_2 fst _ (k0, v)). assumption.
  - inversion Hin; subst; [congruence | auto].
Qed.

Lemma dict_set_elem k v d (e : K * V) :
  e ∈ dict_set k v d -> e ∈ d \/ e = (k, v).
Proof.
  induction d as [|[k0 v0] d IH]; cbn; intros Hin.
  - apply list_elem_of_singleton in Hin; right; exact Hin.
  - destruct (decide (k = k0)).
    + apply elem_of_cons in Hin as [->|Hin]; [right; reflexivity|].
      left; right; exact Hin.
    + apply elem_of_cons in Hin as [->|Hin]; [left; left|].
      destruct (IH Hin) as [Hd|He]; [left; right; exact Hd | right; exact He].
Qed.

Lemma dict_keys_set_NoDup k v d :
  NoDup (dict_keys d) -> NoDup (dict_keys (dict_set k v d)).
Proof.
  intros Hnd. rewrite dict_keys_set.
  destruct (dict_mem k d) eqn:Hmem; [exact Hnd|].
  apply NoDup_app. split; [exact Hnd|]. split; [|apply NoDup_singleton].
  intros k' Hk Hk'. apply list_elem_of_singleton in Hk' as ->.
  apply dict_mem_keys in Hk. congruence.
Qed.

End dict_facts.

Section sort_facts.
Context {A : Type}.
Implicit Types (x : Q * A) (l : list (Q * A)).

Lemma insert_by_key_perm x l : insert_by_key x l ≡ₚ x :: l.
Proof.
  induction l as [|y l IH]; cbn; [reflexivity|].
  destruct (Qle_bool x.1 y.1); [reflexivity|].
  rewrite IH. apply perm_swap.
Qed.

Lemma sort_by_key_perm l : sort_by_key l ≡ₚ l.
Proof.
  induction l as [|x l IH]; cbn; [reflexivity|].
  rewrite insert_by_key_perm, IH. reflexivity.
Qed.

Lemma insert_by_key_sorted x l :
  StronglySorted key_le l -> StronglySorted key_le (insert_by_key x l).
Proof.
  induction l as [|y l IH]; cbn; intros Hs.
  - repeat constructor.
  - apply StronglySorted_inv in Hs as [Hl Hy].
    destruct (Qle_bool x.1 y.1) eqn:Hxy.
    + apply Qle_bool_iff in Hxy.
      constructor; [constructor; assumption|].
      constructor; [exact Hxy|].
      eapply Forall_impl; [exact Hy|].
      intros z Hz; unfold key_le in *; eapply Qle_trans; eassumption.
    + constructor; [apply IH; exact Hl|].
      rewrite insert_by_key_perm. constructor; [|exact Hy].
      unfold key_le. apply Qlt_le_weak, Qnot_le_lt.
      intros Hle; apply Qle_bool_iff in Hle; congruence.
Qed.

Lemma sort_by_key_sorted l : StronglySorted key_le (sort_by_key l).
Proof.
  induction l as [|x l IH]; cbn; [constructor|].
  apply insert_by_key_sorted, IH.
Qed.

(** The first element of a sorted list is a minimum of the input. *)
Lemma sort_by_key_head x l l' :
  sort_by_key l = x :: l' -> x ∈ l /\ Forall (key_le x) l.
Proof.
  intros Hsort.
  pose proof (sort_by_key_perm l) as Hperm.
  pose proof (sort_by_key_sorted l) as Hs.
  rewrite Hsort in Hperm, Hs.
  apply StronglySorted_inv in Hs as [_ Hall].
  split.
  - rewrite <- Hperm; left.
  - rewrite <- Hperm. constructor; [apply Qle_refl | exact Hall].
Qed.

(** The sort is stable: the first element of the sorted list stands in
    the input behind elements with a greater key only. *)
Lemma sort_by_key_head_stable x l l' :
  sort_by_key l = x :: l' ->
  exists l1 l2,
    l = l1 ++ x :: l2
    /\ Forall (fun y => (fst x < fst y)%Q) l1
    /\ Forall (key_le x) l2.
Proof.
  revert x l'. induction l as [|y l IH]; intros x l' Hsort; [discriminate|].
  cbn in Hsort.
  destruct (sort_by_key l) as [|z s] eqn:Hs.
  - pose proof (sort_by_key_perm l) as Hperm. rewrite Hs in Hperm.
    apply Permutation_nil_l in Hperm. subst l.
    cbn in Hsort. injection Hsort as <- <-.
    exists [], []. repeat split; constructor.
  - cbn in Hsort. destruct (Qle_bool y.1 z.1) eqn:Hyz.
    + injection Hsort as <- <-.
      exists [], l. split; [reflexivity|]. split; [constructor|].
      destruct (sort_by_key_head _ _ _ Hs) as [_ Hmin].
      apply Qle_bool_iff in Hyz.
      eapply Forall_impl; [exact Hmin|].
      intros w Hw; unfold key_le in *; eapply Qle_trans; eassumption.
    + injection Hsort as <- <-.
      destruct (IH _ _ eq_refl) as (l1 & l2 & -> & H1 & H2).
      exists (y :: l1), l2. split; [reflexivity|]. split; [|exact H2].
      constructor; [|exact H1].
      apply Qnot_le_lt. intros Hle; apply Qle_bool_iff in Hle; congruence.
Qed.

End sort_facts.

End PyFacts.

(** ** Rounding to binary64 *)

Module Binary64Facts.
Import Client Vocabulary.

Local Open Scope Z_scope.

(** The integer chosen is within one half of the quotient. *)
Lemma nearest_even_error (num den : Z) :
  0 <= num -> 0 < den ->
  0 <= nearest_even num den
  /\ - den <= 2 * (nearest_even num den * den - num) <= den.
Proof.
  intros Hnum Hden. unfold nearest_even.
  pose proof (Z.div_mod num den ltac:(lia)) as Hdiv.
  pose proof (Z.mod_pos_bound num den Hden) as Hmod.
  pose proof (Z.div_pos num den Hnum Hden) as Hk.
  destruct (Z.compare_spec (2 * (num mod den)) den) as [Heq|Hlt|Hgt].
  - destruct (Z.even (num / den)); nia.
  - nia.
  - nia.
Qed.

(** The lower bound of [floor_log2]. *)
Lemma floor_log2_lower (n : Z) (d : positive) :
  0 < n ->
  let p := floor_log2 n d in
  (0 <= p -> Zpos d * 2 ^ p <= n) /\ (p < 0 -> Zpos d <= n * 2 ^ (- p)).
Proof.
  intros Hn. unfold floor_log2.
  pose proof (Z.log2_spec n Hn) as [Hn1 _].
  pose proof (Z.log2_spec (Zpos d) (Pos2Z.is_pos d)) as [_ Hd2].
  pose proof (Z.log2_nonneg n) as Hln.
  pose proof (Z.log2_nonneg (Zpos d)) as Hld.
  set (ln := Z.log2 n) in *. set (ld := Z.log2 (Zpos d)) in *.
  rewrite <- Z.add_1_r in Hd2.
  destruct (Z.leb_spec 0 (ln - ld)) as [Hl|Hl].
  - destruct (Z.leb_spec (Zpos d * 2 ^ (ln - ld)) n) as [Ht|Ht].
    + split; [intros _; exact Ht | lia].
    + split.
      * intros Hp.
        assert (Hpow : 2 ^ ln = 2 ^ (ld + 1) * 2 ^ (ln - ld - 1)).
        { rewrite <- Z.pow_add_r by lia. f_equal. lia. }
        pose proof (Z.pow_pos_nonneg 2 (ln - ld - 1) ltac:(lia) ltac:(lia)).
        nia.
      * intros Hp. assert (Hl0 : ln - ld = 0) by lia.
        replace (- (ln - ld - 1)) with 1 by lia.
        assert (Hpow : 2 ^ (ld + 1) = 2 * 2 ^ ln).
        { replace ln with ld by lia. rewrite Z.pow_add_r by lia. lia. }
        lia.
  - destruct (Z.leb_spec (Zpos d) (n * 2 ^ (- (ln - ld)))) as [Ht|Ht].
    + split; [lia | intros _; exact Ht].
    + split; [lia|]. intros _.
      assert (Hpow : 2 ^ (ld + 1) = 2 ^ ln * 2 ^ (- (ln - ld - 1))).
      { rewrite <- Z.pow_add_r by lia. f_equal. lia. }
      pose proof (Z.pow_pos_nonneg 2 (- (ln - ld - 1)) ltac:(lia) ltac:(lia)).
      nia.
Qed.

Local Open Scope Q_scope.

Lemma two_power_pos (e : Z) : 0 < 2 ^ e.
Proof. apply Qpower_0_lt. reflexivity. Qed.

Lemma two_power_nonneg (e : Z) :
  (0 <= e)%Z -> 2 ^ e == inject_Z (2 ^ e).
Proof. intros He. rewrite Zpower_Qpower by exact He. reflexivity. Qed.

Lemma two_power_neg (e : Z) :
  (e < 0)%Z -> 2 ^ e * inject_Z (2 ^ (- e)) == 1.
Proof.
  intros He. rewrite <- two_power_nonneg by lia.
  rewrite <- Qpower_plus by discriminate.
  replace (e + - e)%Z with 0%Z by lia. reflexivity.
Qed.

(** [2 ^ floor_log2 <= n / d] *)
Lemma floor_log2_le (n : Z) (d : positive) :
  (0 < n)%Z -> 2 ^ floor_log2 n d <= n # d.
Proof.
  intros Hn. destruct (floor_log2_lower n d Hn) as [Hpos Hneg].
  set (p := floor_log2 n d) in *.
  assert (HD : 0 < inject_Z (Zpos d)) by reflexivity.
  rewrite (Qmake_Qdiv n d). apply Qle_shift_div_l; [exact HD|].
  destruct (Z_le_gt_dec 0 p) as [Hp|Hp].
  - rewrite two_power_nonneg by exact Hp. rewrite <- inject_Z_mult.
    rewrite <- Zle_Qle. specialize (Hpos Hp). lia.
  - specialize (Hneg ltac:(lia)). rewrite Zle_Qle, inject_Z_mult in Hneg.
    pose proof (two_power_neg p ltac:(lia)) as Hinv.
    pose proof (two_power_pos p) as Hppos.
    set (P := 2 ^ p) in *. set (N := inject_Z n) in *.
    set (D := inject_Z (Zpos d)) in *. set (P' := inject_Z (2 ^ (- p))) in *.
    assert (HN : 0 <= N).
    { unfold N. change 0 with (inject_Z 0). rewrite <- Zle_Qle. lia. }
    nra.
Qed.

Ltac push_inject_Z H :=
  unfold Z.sub in H;
  repeat first [ rewrite inject_Z_mult in H
               | rewrite inject_Z_plus in H
               | rewrite inject_Z_opp in H ].

(** The significand chosen by [float64], scaled, is within half a unit
    in the last place of the value. *)
Lemma significand_error (n : Z) (d : positive) (e : Z) :
  (0 < n)%Z ->
  let m := if (0 <=? e)%Z then nearest_even n (Zpos d * 2 ^ e)
           else nearest_even (n * 2 ^ (- e)) (Zpos d) in
  (0 <= m)%Z
  /\ (n # d) - 2 ^ e * (1 # 2) <= inject_Z m * 2 ^ e
  /\ inject_Z m * 2 ^ e <= (n # d) + 2 ^ e * (1 # 2).
Proof.
  intros Hn m.
  pose proof (two_power_pos e) as HT.
  assert (HD : 0 < inject_Z (Zpos d)) by reflexivity.
  assert (HX : (n # d) * inject_Z (Zpos d) == inject_Z n).
  { rewrite (Qmake_Qdiv n d). field. discriminate. }
  destruct (Z.leb_spec 0 e) as [He|He]; subst m.
  - assert (HE : (0 < 2 ^ e)%Z) by (apply Z.pow_pos_nonneg; lia).
    destruct (nearest_even_error n (Zpos d * 2 ^ e) ltac:(lia) ltac:(lia))
      as [Hm [Hlo Hhi]].
    set (m := nearest_even n (Zpos d * 2 ^ e)) in *.
    split; [exact Hm|].
    rewrite Zle_Qle in Hlo, Hhi.
    push_inject_Z Hlo. push_inject_Z Hhi.
    rewrite <- two_power_nonneg in Hlo, Hhi by exact He.
    rewrite <- HX in Hlo, Hhi.
    set (X := n # d) in *. set (D := inject_Z (Zpos d)) in *.
    set (T := 2 ^ e) in *. set (M := inject_Z m) in *.
    change (inject_Z 2) with 2 in *.
    assert (H1 : 0 <= D * (2 * (M * T - X) + T)) by lra.
    assert (H2 : 0 <= D * (T - 2 * (M * T - X))) by lra.
    assert (H3 : 0 <= 2 * (M * T - X) + T).
    { destruct (Qlt_le_dec (2 * (M * T - X) + T) 0) as [Hc|Hc]; [|exact Hc].
      exfalso. nra. }
    assert (H4 : 0 <= T - 2 * (M * T - X)).
    { destruct (Qlt_le_dec (T - 2 * (M * T - X)) 0) as [Hc|Hc]; [|exact Hc].
      exfalso. nra. }
    split; lra.
  - assert (HE : (0 < 2 ^ (- e))%Z) by (apply Z.pow_pos_nonneg; lia).
    destruct (nearest_even_error (n * 2 ^ (- e)) (Zpos d) ltac:(lia) ltac:(lia))
      as [Hm [Hlo Hhi]].
    set (m := nearest_even (n * 2 ^ (- e)) (Zpos d)) in *.
    split; [exact Hm|].
    rewrite Zle_Qle in Hlo, Hhi.
    push_inject_Z Hlo. push_inject_Z Hhi.
    rewrite <- HX in Hlo, Hhi.
    pose proof (two_power_neg e He) as Hinv.
    assert (HE' : 0 < inject_Z (2 ^ (- e))).
    { change 0 with (inject_Z 0). rewrite <- Zlt_Qlt. exact HE. }
    set (X := n # d) in *. set (D := inject_Z (Zpos d)) in *.
    set (T := 2 ^ e) in *. set (M := inject_Z m) in *.
    set (E' := inject_Z (2 ^ (- e))) in *.
    change (inject_Z 2) with 2 in *.
    assert (H1 : 0 <= D * (2 * (M - X * E') + 1)) by lra.
    assert (H2 : 0 <= D * (1 - 2 * (M - X * E'))) by lra.
    assert (H3 : 0 <= 2 * (M - X * E') + 1).
    { destruct (Qlt_le_dec (2 * (M - X * E') + 1) 0) as [Hc|Hc]; [|exact Hc].
      exfalso. nra. }
    assert (H4 : 0 <= 1 - 2 * (M - X * E')).
    { destruct (Qlt_le_dec (1 - 2 * (M - X * E')) 0) as [Hc|Hc]; [|exact Hc].
      exfalso. nra. }
    assert (H5 : 0 <= T * (2 * (M - X * E') + 1)) by nra.
    assert (H6 : 0 <= T * (1 - 2 * (M - X * E'))) by nra.
    assert (H7 : T * (X * E') == X).
    { transitivity (X * (T * E')); [ring|]. rewrite Hinv. ring. }
    split; lra.
Qed.

Lemma half_least_subnormal_pos : 0 < half_least_subnormal.
Proof. apply two_power_pos. Qed.

(** Half a unit in the last place of the result is at most the relative
    bound, or half the least subnormal. *)
Lemma unit_bound (n : Z) (d : positive) :
  (0 < n)%Z ->
  let e := Z.max (floor_log2 n d - 52) (-1074) in
  2 ^ e * (1 # 2) <= (n # d) * unit_roundoff + half_least_subnormal.
Proof.
  intros Hn e.
  pose proof (floor_log2_le n d Hn) as Hp.
  pose proof half_least_subnormal_pos as Heta.
  assert (HX : 0 < n # d) by (unfold Qlt; cbn; lia).
  assert (H2 : ~ 2 == 0) by discriminate.
  destruct (Z.max_spec (floor_log2 n d - 52) (-1074)) as [[Hlt He]|[Hle He]];
    fold e in He; rewrite He.
  - assert (Heq : 2 ^ (-1074) * (1 # 2) == half_least_subnormal).
    { unfold half_least_subnormal.
      change (-1075)%Z with (-1074 + -1)%Z.
      rewrite (Qpower_plus 2 (-1074) (-1) H2).
      apply Qmult_comp; reflexivity. }
    rewrite Heq.
    assert (0 <= (n # d) * unit_roundoff)
      by (apply Qmult_le_0_compat; [apply Qlt_le_weak; exact HX | discriminate]).
    lra.
  - assert (Heq : 2 ^ (floor_log2 n d - 52) * (1 # 2)
                  == 2 ^ floor_log2 n d * unit_roundoff).
    { unfold Z.sub. rewrite (Qpower_plus 2 (floor_log2 n d) (- 52) H2).
      rewrite <- Qmult_assoc. apply Qmult_comp; reflexivity. }
    rewrite Heq. unfold unit_roundoff in *.
    set (P := 2 ^ floor_log2 n d) in *. set (X := n # d) in *.
    generalize dependent half_least_subnormal. intros eta Heta. lra.
Qed.

Lemma Qpower_2_1023 : 1 <= 2 ^ 1023.
Proof. vm_compute. discriminate. Qed.

Lemma half_least_subnormal_small : half_least_subnormal <= 1 # 1000000000000000000.
Proof. vm_compute. discriminate. Qed.

(** Rounding a non-negative number below the overflow threshold gives a
    double within the relative error [unit_roundoff], or half the least
    subnormal. *)
Lemma float64_error (x : Q) :
  0 <= x -> x <= 2 ^ 1023 ->
  exists r,
    float64 x = Num r /\ 0 <= r
    /\ x - (x * unit_roundoff + half_least_subnormal) <= r
    /\ r <= x + (x * unit_roundoff + half_least_subnormal).
Proof.
  destruct x as [n d]. intros H0 Hmax.
  assert (Hn : (0 <= n)%Z) by (unfold Qle in H0; cbn in H0; lia).
  pose proof half_least_subnormal_pos as Heta.
  pose proof half_least_subnormal_small as Heta'.
  unfold float64. cbn [Qnum Qden]. rewrite Z.abs_eq by exact Hn.
  destruct (Z.eqb_spec n 0) as [->|Hne].
  - exists 0. assert (Hx : 0 # d == 0) by reflexivity.
    split; [reflexivity|]. rewrite Hx. unfold unit_roundoff.
    repeat split; lra.
  - assert (Hpos : (0 < n)%Z) by lia.
    pose proof (unit_bound n d Hpos) as Hu. cbv zeta in Hu.
    set (e := Z.max (floor_log2 n d - 52) (-1074)) in *.
    pose proof (significand_error n d e Hpos) as Hs. cbv zeta in Hs.
    set (m := if (0 <=? e)%Z then nearest_even n (Zpos d * 2 ^ e)
              else nearest_even (n * 2 ^ (- e)) (Zpos d)) in *.
    destruct Hs as (Hm & Hlo & Hhi).
    assert (Hover : ((0 <=? e)%Z && (2 ^ 1024 <=? m * 2 ^ e)%Z) = false).
    { destruct (Z.leb_spec 0 e) as [He|He]; [cbn|reflexivity].
      apply Z.leb_gt. rewrite Zlt_Qlt, inject_Z_mult.
      rewrite <- (two_power_nonneg e He).
      change (2 ^ 1024)%Z with (2 * 2 ^ 1023)%Z.
      rewrite inject_Z_mult, <- (two_power_nonneg 1023) by discriminate.
      change (inject_Z 2) with 2.
      pose proof Qpower_2_1023 as HB.
      unfold unit_roundoff in *.
      set (B := 2 ^ 1023) in *. set (X := n # d) in *.
      set (T := 2 ^ e) in *. set (M := inject_Z m) in *.
      generalize dependent half_least_subnormal. intros eta Hu Heta Heta'.
      lra. }
    rewrite Hover.
    eexists. split; [reflexivity|].
    rewrite Qred_correct.
    replace (Z.sgn n * m)%Z with m by (rewrite Z.sgn_pos by exact Hpos; lia).
    split; [|split; lra].
    apply Qmult_le_0_compat; [|apply Qlt_le_weak, two_power_pos].
    change 0 with (inject_Z 0). rewrite <- Zle_Qle. exact Hm.
Qed.

Lemma float64_not_NaN (x : Q) : float64 x <> NaN.
Proof.
  unfold float64.
  destruct (Z.abs (Qnum x) =? 0)%Z; [discriminate|].
  cbv zeta.
  match goal with |- context [if ?b then Inf _ else _] => destruct b end;
    discriminate.
Qed.

Lemma float64_add_not_NaN (l : list Q) (s : Float) :
  s <> NaN -> foldl float64_add s l <> NaN.
Proof.
  revert s. induction l as [|x l IH]; intros s Hs; cbn; [exact Hs|].
  apply IH. destruct s as [a| |b]; cbn;
    [apply float64_not_NaN | congruence | discriminate].
Qed.

(** The mean is not-a-number for the empty list only. *)
Lemma average_NaN (l : list Q) : average l = NaN <-> l = [].
Proof.
  split; [|intros ->; reflexivity].
  destruct l as [|x l]; [reflexivity|].
  unfold average. intros H. exfalso.
  pose proof (float64_add_not_NaN (x :: l) (Num 0) ltac:(discriminate)) as Hs.
  destruct (foldl float64_add (Num 0) (x :: l)) as [a| |b];
    cbn in H; [|congruence|discriminate].
  exact (float64_not_NaN _ H).
Qed.

Lemma Qpower_2_1023_large : 1000 <= 2 ^ 1023.
Proof. vm_compute. discriminate. Qed.

(** The mean of three distances between 0 and 180 degrees, as
    [numpy.average] computes it, is within [mean_accuracy] of their
    exact mean. *)
Lemma average3_error (a b c : Q) :
  0 <= a -> a <= 180 -> 0 <= b -> b <= 180 -> 0 <= c -> c <= 180 ->
  exists m,
    average [a; b; c] = Num m
    /\ (a + b + c) / 3 - mean_accuracy <= m
    /\ m <= (a + b + c) / 3 + mean_accuracy.
Proof.
  intros Ha0 Ha Hb0 Hb Hc0 Hc.
  pose proof half_least_subnormal_pos as Heta.
  pose proof half_least_subnormal_small as Heta'.
  pose proof Qpower_2_1023_large as HB.
  unfold average. cbn [foldl length float64_add].
  unfold unit_roundoff, mean_accuracy in *.
  destruct (float64_error (0 + a)) as (r1 & -> & H1 & H1lo & H1hi);
    [lra | lra |].
  cbn [float64_add].
  destruct (float64_error (r1 + b)) as (r2 & -> & H2 & H2lo & H2hi);
    [lra | unfold unit_roundoff in *; lra |].
  cbn [float64_add].
  destruct (float64_error (r2 + c)) as (r3 & -> & H3 & H3lo & H3hi);
    [lra | unfold unit_roundoff in *; lra |].
  cbn [float64_div]. change (inject_Z (Z.of_nat 3)) with 3.
  assert (Hq : r3 / 3 * 3 == r3) by (field; discriminate).
  assert (Hmean : (a + b + c) / 3 * 3 == a + b + c) by (field; discriminate).
  set (q := r3 / 3) in *. set (mean := (a + b + c) / 3) in *.
  destruct (float64_error q) as (m & -> & H4 & H4lo & H4hi);
    [lra | unfold unit_roundoff in *; lra |].
  exists m. split; [reflexivity|].
  unfold unit_roundoff in *.
  generalize dependent half_least_subnormal. intros eta Heta Heta'. intros.
  split; lra.
Qed.

Lemma sum_perm (l l' : list Q) :
  l ≡ₚ l' -> foldr Qplus 0 l == foldr Qplus 0 l'.
Proof.
  induction 1 as [|x l l' _ IH|x y l|l l' l'' _ IH1 _ IH2]; cbn.
  - reflexivity.
  - rewrite IH; reflexivity.
  - ring.
  - rewrite IH1; exact IH2.
Qed.

End Binary64Facts.

(** ** Further facts about loops and dictionaries *)

Module PyFactsMore.
Import PyFacts.

(** A loop that raises does so in one of its turns. *)
Lemma foldlM_Raise {A S : Type} (body : S -> A -> result S) (l : list A)
    (s : S) (e : exn) :
  foldlM body s l = Raise e ->
  exists s0 x, x ∈ l /\ body s0 x = Raise e.
Proof.
  revert s; induction l as [|x l IH]; intros s Hrun; cbn in Hrun;
    [discriminate|].
  destruct (body s x) as [s1|e1] eqn:Hx; cbn in Hrun.
  - destruct (IH s1 Hrun) as (s0 & y & Hy & Hbody).
    exists s0, y. split; [right; exact Hy | exact Hbody].
  - injection Hrun as <-. exists s, x. split; [left | exact Hx].
Qed.

(** A loop whose turns all complete completes. *)
Lemma foldlM_total {A S : Type} (body : S -> A -> result S) (l : list A)
    (s : S) :
  (forall s0 x, x ∈ l -> exists s1, body s0 x = Ok s1) ->
  exists s', foldlM body s l = Ok s'.
Proof.
  revert s; induction l as [|x l IH]; intros s Hbody; cbn; [eauto|].
  destruct (Hbody s x (list_elem_of_here _ _)) as [s1 ->]. cbn.
  apply IH. intros s0 y Hy. apply Hbody. right; exact Hy.
Qed.

Lemma foldlM_app {A S : Type} (body : S -> A -> result S) (l1 l2 : list A)
    (s : S) :
  foldlM body s (l1 ++ l2) = s' ← foldlM body s l1; foldlM body s' l2.
Proof.
  revert s; induction l1 as [|x l1 IH]; intros s; cbn; [reflexivity|].
  destruct (body s x) as [s1|e]; cbn; [apply IH | reflexivity].
Qed.

Lemma filter_all {A : Type} (P : A -> Prop) `{forall x, Decision (P x)}
    (l : list A) :
  (forall x, x ∈ l -> P x) -> filter P l = l.
Proof.
  induction l as [|x l IH]; intros Hall; [reflexivity|].
  rewrite @filter_cons, decide_True by (apply Hall; left).
  rewrite IH; [reflexivity|]. intros y Hy. apply Hall. right; exact Hy.
Qed.

Section dict_more.
Context {K V : Type} `{EqDecision K}.
Implicit Types (k : K) (v : V) (d : dict K V).

Lemma dict_get_None_keys k d : dict_get k d = None <-> k ∉ dict_keys d.
Proof.
  rewrite <- dict_mem_keys. unfold dict_mem.
  destruct (dict_get k d); split; try discriminate; try reflexivity.
  intros Hn. exfalso. apply Hn. reflexivity.
Qed.

Lemma dict_elem_keys k v d : (k, v) ∈ d -> k ∈ dict_keys d.
Proof. intros Hin. apply (list_elem_of_fmap_2 fst _ _ Hin). Qed.

(** [del d[k]] removes the entry of the key and nothing else. *)
Lemma dict_del_filter k d :
  NoDup (dict_keys d) -> dict_del k d = filter (fun e => fst e <> k) d.
Proof.
  unfold dict_keys.
  induction d as [|[k0 v0] d IH]; intros Hnd; [reflexivity|].
  cbn in Hnd. apply NoDup_cons in Hnd as [Hk0 Hnd].
  rewrite @filter_cons. cbn [dict_del fst].
  destruct (decide (k = k0)) as [->|Hne].
  - rewrite decide_False by (intros Hn; apply Hn; reflexivity).
    symmetry. apply filter_all. intros [k1 v1] Hin Heq. cbn in Heq. subst k1.
    apply Hk0. apply (list_elem_of_fmap_2 fst _ _ Hin).
  - rewrite decide_True by congruence. rewrite IH by exact Hnd. reflexivity.
Qed.

End dict_more.

Lemma filter_ext_elem {A : Type} (P Q : A -> Prop)
    `{forall x, Decision (P x)} `{forall x, Decision (Q x)} (l : list A) :
  (forall x, x ∈ l -> P x <-> Q x) -> filter P l = filter Q l.
Proof.
  induction l as [|x l IH]; intros Hext; [reflexivity|].
  rewrite !@filter_cons.
  assert (Hx : P x <-> Q x) by (apply Hext; apply list_elem_of_here).
  rewrite IH by (intros y Hy; apply Hext; apply elem_of_cons; auto).
  destruct (decide (P x)), (decide (Q x)); tauto.
Qed.

Lemma filter_keys_NoDup {K V : Type} (P : K * V -> Prop)
    `{forall x, Decision (P x)} (d : dict K V) :
  NoDup (dict_keys d) -> NoDup (dict_keys (filter P d)).
Proof.
  intros Hnd. unfold dict_keys. eapply sublist_NoDup; [exact Hnd|].
  apply fmap_sublist. apply sublist_filter.
Qed.

(** Deleting keys one after the other keeps the other entries in their
    order. *)
Lemma dict_del_all {K V : Type} `{EqDecision K} (ks : list K) (d : dict K V) :
  NoDup (dict_keys d) ->
  foldl (fun d k => dict_del k d) d ks = filter (fun e => fst e ∉ ks) d.
Proof.
  revert d. induction ks as [|k ks IH]; intros d Hnd.
  - cbn. symmetry. apply filter_all. intros x _. apply not_elem_of_nil.
  - cbn [foldl]. rewrite dict_del_filter by exact Hnd.
    rewrite IH by (apply filter_keys_NoDup; exact Hnd).
    rewrite @list_filter_filter.
    apply filter_ext_elem. intros x _. rewrite not_elem_of_cons. tauto.
Qed.

(** In a sublist of a duplicate-free list the order of the list is
    kept. *)
Lemma sublist_order {A : Type} (a1 a2 K0 K1 : list A) (x y : A) :
  sublist (a1 ++ x :: a2) (K0 ++ K1) -> NoDup (K0 ++ K1) ->
  y ∈ a2 -> y ∈ K0 -> x ∈ K1 -> False.
Proof.
  intros Hsub Hnd Hy Hy0 Hx1.
  apply NoDup_app in Hnd as (_ & Hdisj & _).
  apply sublist_app_r in Hsub as (l1 & l2 & Heq & Hl1 & Hl2).
  assert (Hy2 : y ∈ l2 -> False).
  { intros Hin. apply (Hdisj y Hy0). exact (elem_of_sublist _ _ _ Hin Hl2). }
  apply app_eq_inv in Heq as [(k & -> & ->)|(k & -> & Heq)].
  - apply Hy2. apply elem_of_app; right. right. exact Hy.
  - destruct k as [|x' k]; cbn in Heq.
    + subst l2. apply Hy2. right. exact Hy.
    + injection Heq as <- ->.
      apply (Hdisj x); [|exact Hx1].
      apply (elem_of_sublist (a1 ++ x :: k) K0 x); [|exact Hl1].
      apply elem_of_app; right; left.
Qed.

End PyFactsMore.

(** ** Candidate collection and association of picks *)

Module DbUtilSpec.
Import PyFacts Util InventoryUtil DbUtil Vocabulary.

(** *** The picks loaded for the time span *)

Lemma loadPicksForTimespan_keyed (query : Query) (t0 t1 : Q)
    (allowedAuthorIDs : list string) :
  keyed_by_publicID (loadPicksForTimespan query t0 t1 allowedAuthorIDs).
Proof.
  unfold loadPicksForTimespan.
  apply foldl_invariant; [|split; [apply NoDup_nil_2 | constructor]].
  intros d obj _ [Hnd Hkeys].
  destruct (Pick_Cast obj) as [pick|]; [|split; assumption].
  destruct (allowedAuthor allowedAuthorIDs pick); [|split; assumption].
  split.
  - rewrite dict_keys_set.
    destruct (dict_mem (pick_publicID pick) d) eqn:Hmem; [exact Hnd|].
    apply NoDup_app. split; [exact Hnd|]. split; [|apply NoDup_singleton].
    intros id Hid Hid'. apply list_elem_of_singleton in Hid' as ->.
    apply dict_mem_keys in Hid. congruence.
  - clear Hnd. induction d as [|[id0 p0] d IH]; cbn.
    + repeat constructor.
    + apply Forall_cons in Hkeys as [H0 Hd].
      destruct (decide (pick_publicID pick = id0)).
      * constructor; [reflexivity | exact Hd].
      * constructor; [exact H0 | exact (IH Hd)].
Qed.

Lemma loadPicksForTimespan_delivered (query : Query) (t0 t1 : Q)
    (allowedAuthorIDs : list string) (e : string * Pick) :
  e ∈ loadPicksForTimespan query t0 t1 allowedAuthorIDs ->
  ObjPick (snd e) ∈ getPicks_timespan query t0 t1
  /\ allowedAuthor allowedAuthorIDs (snd e) = true.
Proof.
  unfold loadPicksForTimespan. revert e.
  apply (foldl_invariant
           (fun d => forall e, e ∈ d ->
                       ObjPick e.2 ∈ getPicks_timespan query t0 t1
                       /\ allowedAuthor allowedAuthorIDs e.2 = true)).
  - intros d obj Hobj Hd e.
    destruct obj as [pick|]; cbn; [|apply Hd].
    destruct (allowedAuthor allowedAuthorIDs pick) eqn:Hallowed; [|apply Hd].
    intros Hin. apply dict_set_elem in Hin as [Hin| ->]; [exact (Hd e Hin)|].
    split; [exact Hobj | exact Hallowed].
  - intros e Hin; inversion Hin.
Qed.

Lemma loadPicksForTimespan_complete (query : Query) (t0 t1 : Q)
    (allowedAuthorIDs : list string) (p : Pick) :
  publicID_unique (getPicks_timespan query t0 t1) ->
  ObjPick p ∈ getPicks_timespan query t0 t1 ->
  allowedAuthor allowedAuthorIDs p = true ->
  dict_get (pick_publicID p) (loadPicksForTimespan query t0 t1 allowedAuthorIDs)
  = Some p.
Proof.
  unfold loadPicksForTimespan, publicID_unique.
  generalize (getPicks_timespan query t0 t1); intros objs.
  induction objs as [|obj objs IH] using rev_ind; intros Huniq Hin Hallowed.
  - inversion Hin.
  - rewrite foldl_app. cbn [foldl].
    assert (IH' : ObjPick p ∈ objs ->
              dict_get (pick_publicID p)
                (foldl (fun objects obj0 =>
                          match Pick_Cast obj0 with
                          | Some pick =>
                              if allowedAuthor allowedAuthorIDs pick
                              then dict_set (pick_publicID pick) pick objects
                              else objects
                          | None => objects
                          end) [] objs) = Some p).
    { intros Hin'. apply IH; [|exact Hin' | exact Hallowed].
      intros p1 p2 H1 H2. apply Huniq; apply elem_of_app; left; assumption. }
    apply elem_of_app in Hin as [Hin|Hin].
    + destruct obj as [pick|]; cbn; [|exact (IH' Hin)].
      destruct (allowedAuthor allowedAuthorIDs pick); [|exact (IH' Hin)].
      rewrite dict_get_set.
      destruct (decide (pick_publicID p = pick_publicID pick)) as [Heq|Hne];
        [|exact (IH' Hin)].
      f_equal. symmetry. apply Huniq; [| |exact Heq].
      * apply elem_of_app; left; exact Hin.
      * apply elem_of_app; right; left.
    + apply list_elem_of_singleton in Hin as <-. cbn. rewrite Hallowed.
      rewrite dict_get_set, decide_True by reflexivity. reflexivity.
Qed.

(** *** Grouping by channel *)

Lemma picks_per_nslc_step (acc : dict NSLC (list Pick)) (pick : Pick) (k : NSLC) :
  let acc1 := if dict_mem (nslc pick) acc then acc
              else dict_set (nslc pick) [] acc in
  dict_get k (dict_set (nslc pick)
                (default [] (dict_get (nslc pick) acc1) ++ [pick]) acc1)
  = if decide (k = nslc pick)
    then Some (default [] (dict_get k acc) ++ [pick])
    else dict_get k acc.
Proof.
  cbv zeta. rewrite dict_get_set.
  destruct (decide (k = nslc pick)) as [->|Hne].
  - unfold dict_mem. destruct (dict_get (nslc pick) acc) eqn:Hget.
    + rewrite Hget; reflexivity.
    + rewrite dict_get_set, decide_True by reflexivity. reflexivity.
  - unfold dict_mem. destruct (dict_get (nslc pick) acc); [reflexivity|].
    rewrite dict_get_set, decide_False by exact Hne. reflexivity.
Qed.

Lemma picks_per_nslc_get (picks : dict string Pick) (k : NSLC) :
  dict_get k (picks_per_nslc picks)
  = nonempty (channel_group k (dict_values picks)).
Proof.
  unfold picks_per_nslc, channel_group, dict_values.
  induction picks as [|[id pick] picks IH] using rev_ind; [reflexivity|].
  rewrite foldl_app, fmap_app, filter_app. cbn [foldl].
  rewrite picks_per_nslc_step, IH. cbn.
  destruct (decide (k = nslc pick)) as [->|Hne].
  - rewrite decide_True by reflexivity.
    destruct (filter _ (snd <$> picks)); reflexivity.
  - rewrite decide_False by congruence.
    rewrite app_nil_r. reflexivity.
Qed.

Lemma picks_per_nslc_keys (picks : dict string Pick) :
  NoDup (dict_keys (picks_per_nslc picks)).
Proof.
  unfold picks_per_nslc.
  apply foldl_invariant; [|apply NoDup_nil_2].
  intros acc [id pick] _ Hnd.
  rewrite dict_keys_set.
  destruct (dict_mem (nslc pick) acc) eqn:Hmem.
  - rewrite Hmem; exact Hnd.
  - rewrite dict_mem_set, bool_decide_eq_true_2 by reflexivity. cbn.
    rewrite dict_keys_set, Hmem.
    apply NoDup_app. split; [exact Hnd|]. split; [|apply NoDup_singleton].
    intros k Hk Hk'. apply list_elem_of_singleton in Hk' as ->.
    apply dict_mem_keys in Hk. congruence.
Qed.

(** *** The residual windows *)

Lemma outsideWindow_false (k maxResidual dt : Q) :
  outsideWindow k maxResidual dt = false <-> within_window k maxResidual dt.
Proof.
  unfold outsideWindow, within_window.
  rewrite negb_false_iff, andb_true_iff, !Qltb_lt. reflexivity.
Qed.

Lemma outsideWindow_boundary (k maxResidual : Q) :
  outsideWindow k maxResidual (k * maxResidual) = true
  /\ outsideWindow k maxResidual (- k * maxResidual) = true.
Proof.
  split; apply not_false_iff_true; rewrite outsideWindow_false;
    unfold within_window; intros [H1 H2];
    [apply (Qlt_irrefl _ H2) | apply (Qlt_irrefl _ H1)].
Qed.

Section candidates.
Variable sm : Seismology.
Variable origin : Origin.
Variable inventory : Inventory.
Variable allowedAuthorIDs : list string.
Variables maxDelta maxResidual : Q.

Local Abbreviation locate := (locate sm origin inventory maxDelta).
Local Abbreviation picks_of_interest :=
  (picks_of_interest sm origin inventory maxDelta maxResidual).
Local Abbreviation interesting := (interesting sm origin inventory maxDelta maxResidual).

Lemma picks_of_interest_from (picks acc poi : dict string Pick) :
  NoDup (dict_keys picks) ->
  (forall e, e ∈ picks -> dict_mem (fst e) acc = false) ->
  foldlM (fun (acc : dict string Pick) '((pickID, pick) : string * Pick) =>
            loc ← locate (nslc pick) pick;
            match loc with
            | Residual _ dt =>
                if outsideWindow 4 maxResidual dt then Ok acc
                else Ok (dict_set pickID pick acc)
            | _ => Ok acc
            end) acc picks = Ok poi ->
  poi = acc ++ filter (fun e => interesting e = true) picks.
Proof.
  revert acc; induction picks as [|[id p] picks IH]; intros acc Hnd Hfresh Hrun.
  - cbn in Hrun. injection Hrun as <-. rewrite app_nil_r; reflexivity.
  - cbn [foldlM] in Hrun. apply bind_Ok in Hrun as (acc' & Hstep & Hrest).
    unfold dict_keys in Hnd; cbn in Hnd. apply NoDup_cons in Hnd as [Hid Hnd].
    assert (Hfresh' : forall acc'',
               acc'' = acc \/ acc'' = dict_set id p acc ->
               forall e, e ∈ picks -> dict_mem e.1 acc'' = false).
    { intros acc'' Hacc e He.
      assert (Hacc0 : dict_mem e.1 acc = false) by (apply Hfresh; right; exact He).
      destruct Hacc as [->| ->]; [exact Hacc0|].
      rewrite dict_mem_set, Hacc0, orb_false_r.
      apply bool_decide_eq_false_2. intros Heq. apply Hid.
      rewrite <- Heq. apply list_elem_of_fmap_2. exact He. }
    rewrite @filter_cons.
    assert (Hint : interesting (id, p)
                   = match locate (nslc p) p with
                     | Ok (Residual _ dt) => negb (outsideWindow 4 maxResidual dt)
                     | _ => false
                     end) by reflexivity.
    destruct (locate (nslc p) p) as [[| |delta dt]|e]; cbn in Hstep;
      try discriminate.
    + injection Hstep as <-.
      rewrite decide_False by (rewrite Hint; discriminate).
      apply IH; [exact Hnd | apply Hfresh'; left; reflexivity | exact Hrest].
    + injection Hstep as <-.
      rewrite decide_False by (rewrite Hint; discriminate).
      apply IH; [exact Hnd | apply Hfresh'; left; reflexivity | exact Hrest].
    + destruct (outsideWindow 4 maxResidual dt) eqn:Hout; injection Hstep as <-.
      * rewrite decide_False by (rewrite Hint; discriminate).
        apply IH; [exact Hnd | apply Hfresh'; left; reflexivity | exact Hrest].
      * rewrite decide_True by exact Hint.
        rewrite (IH _ Hnd (Hfresh' _ (or_intror eq_refl)) Hrest).
        rewrite dict_set_fresh by (apply (Hfresh (id, p)); left).
        rewrite <- app_assoc. reflexivity.
Qed.

(** The candidate stage keeps exactly the entries that pass its test, in
    the order of the dictionary. *)
Lemma picks_of_interest_filter (picks poi : dict string Pick) :
  NoDup (dict_keys picks) ->
  picks_of_interest picks = Ok poi ->
  poi = filter (fun e => interesting e = true) picks.
Proof.
  intros Hnd Hrun.
  apply (picks_of_interest_from picks [] poi Hnd); [reflexivity | exact Hrun].
Qed.

End candidates.

(** *** Sorting the groups by creation time *)

Lemma decorate_spec (l : list Pick) (keyed : list (Q * Pick)) :
  decorate l = Ok keyed ->
  snd <$> keyed = l
  /\ Forall (fun e => pick_creationTime (snd e) = Some (fst e)) keyed.
Proof.
  revert keyed; induction l as [|p l IH]; intros keyed Hdec; cbn in Hdec.
  - injection Hdec as <-. split; [reflexivity | constructor].
  - destruct (pick_creationTime p) as [t|] eqn:Ht; [|discriminate].
    apply bind_Ok in Hdec as (keyed' & Hdec & Hk). injection Hk as <-.
    destruct (IH _ Hdec) as [Hsnd Hall].
    split; [cbn; rewrite Hsnd; reflexivity | constructor; [exact Ht | exact Hall]].
Qed.

Lemma sorted_by_creationTime_perm (l l' : list Pick) :
  sorted_by_creationTime l = Ok l' -> l' ≡ₚ l.
Proof.
  unfold sorted_by_creationTime. intros Hs.
  apply bind_Ok in Hs as (keyed & Hdec & Hs). injection Hs as <-.
  apply decorate_spec in Hdec as [<- _].
  rewrite sort_by_key_perm. reflexivity.
Qed.

(** The head of a sorted group was created no later than any pick of the
    group. *)
Lemma sorted_by_creationTime_head (l rest : list Pick) (r : Pick) :
  sorted_by_creationTime l = Ok (r :: rest) ->
  r ∈ l
  /\ exists tr, pick_creationTime r = Some tr
      /\ forall p, p ∈ l ->
           exists tp, pick_creationTime p = Some tp /\ (tr <= tp)%Q.
Proof.
  unfold sorted_by_creationTime. intros Hs.
  apply bind_Ok in Hs as (keyed & Hdec & Hs). injection Hs as Hs.
  apply decorate_spec in Hdec as [Hsnd Hkeys].
  destruct (sort_by_key keyed) as [|[tr r'] sorted] eqn:Hsort; [discriminate|].
  cbn in Hs. injection Hs as -> _.
  destruct (sort_by_key_head _ _ _ Hsort) as [Hin Hmin].
  rewrite Forall_forall in Hkeys, Hmin.
  split; [rewrite <- Hsnd; apply (list_elem_of_fmap_2 snd _ _ Hin)|].
  exists tr. split; [exact (Hkeys _ Hin)|].
  intros p Hp. rewrite <- Hsnd in Hp.
  apply list_elem_of_fmap in Hp as ([tp p'] & -> & Hp).
  exists tp. split; [exact (Hkeys _ Hp) | exact (Hmin _ Hp)].
Qed.

(** The head of a sorted group stands in the group behind picks that
    were created later only. *)
Lemma sorted_by_creationTime_stable (l rest : list Pick) (r : Pick) :
  sorted_by_creationTime l = Ok (r :: rest) ->
  exists tr l1 l2,
    pick_creationTime r = Some tr
    /\ l = l1 ++ r :: l2
    /\ forall p, p ∈ l1 ->
         exists tp, pick_creationTime p = Some tp /\ (tr < tp)%Q.
Proof.
  unfold sorted_by_creationTime. intros Hs.
  apply bind_Ok in Hs as (keyed & Hdec & Hs). injection Hs as Hs.
  apply decorate_spec in Hdec as [Hsnd Hkeys].
  destruct (sort_by_key keyed) as [|[tr r'] sorted] eqn:Hsort; [discriminate|].
  cbn in Hs. injection Hs as -> _.
  destruct (sort_by_key_head_stable _ _ _ Hsort) as (k1 & k2 & -> & Hlater & _).
  rewrite Forall_forall in Hkeys, Hlater.
  exists tr, (snd <$> k1), (snd <$> k2).
  split; [apply (Hkeys (tr, r)); apply elem_of_app; right; left|].
  split; [rewrite <- Hsnd, fmap_app; reflexivity|].
  intros p Hp. apply list_elem_of_fmap in Hp as ([tp p'] & -> & Hp).
  exists tp. split; [|exact (Hlater _ Hp)].
  apply (Hkeys (tp, p')). apply elem_of_app; left; exact Hp.
Qed.

Lemma sort_groups_pointwise (groups groups' : dict NSLC (list Pick)) :
  sort_groups groups = Ok groups' ->
  Forall2 (fun e e' => fst e = fst e'
                       /\ sorted_by_creationTime (snd e) = Ok (snd e'))
          groups groups'.
Proof.
  revert groups'; induction groups as [|[k g] groups IH]; intros groups' Hs;
    cbn in Hs.
  - injection Hs as <-. constructor.
  - apply bind_Ok in Hs as (g' & Hg & Hs).
    apply bind_Ok in Hs as (rest' & Hrest & Hs). injection Hs as <-.
    constructor; [split; [reflexivity | exact Hg] | exact (IH _ Hrest)].
Qed.

Lemma sort_groups_keys (groups groups' : dict NSLC (list Pick)) :
  sort_groups groups = Ok groups' -> dict_keys groups' = dict_keys groups.
Proof.
  intros Hs. apply sort_groups_pointwise in Hs.
  unfold dict_keys. induction Hs as [|e e' l l' [He _] _ IH]; cbn;
    [reflexivity | rewrite He, IH; reflexivity].
Qed.

Lemma sort_groups_get (groups groups' : dict NSLC (list Pick)) (k : NSLC)
    (g' : list Pick) :
  sort_groups groups = Ok groups' ->
  dict_get k groups' = Some g' ->
  exists g, dict_get k groups = Some g /\ sorted_by_creationTime g = Ok g'.
Proof.
  intros Hs. apply sort_groups_pointwise in Hs.
  induction Hs as [|[k0 g0] [k0' g0'] l l' [He Hg] _ IH]; cbn;
    [discriminate|].
  cbn in He, Hg. subst k0'.
  destruct (decide (k = k0)); [|exact IH].
  intros [= ->]. exists g0. split; [reflexivity | exact Hg].
Qed.

(** *** The channel groups handed to the association loop *)

Section association.
Variable sm : Seismology.
Variable manualArrival : Arrival -> bool.
Variable origin : Origin.
Variable inventory : Inventory.
Variable allowedAuthorIDs : list string.
Variables maxDelta maxResidual : Q.
Variable query : Query.

Local Abbreviation locate := (locate sm origin inventory maxDelta).
Local Abbreviation interesting :=
  (interesting sm origin inventory maxDelta maxResidual).
Local Abbreviation candidate_groups :=
  (candidate_groups sm origin inventory allowedAuthorIDs maxDelta maxResidual
                    query).
Local Abbreviation associate_step :=
  (associate_step sm origin inventory maxDelta maxResidual).
Local Abbreviation picks := (loaded_picks origin allowedAuthorIDs query).
Local Abbreviation poi := (filter (fun e => interesting e = true) picks).

Lemma candidate_groups_spec (groups : dict NSLC (list Pick)) :
  candidate_groups = Ok groups ->
  picks_of_interest sm origin inventory maxDelta maxResidual picks = Ok poi
  /\ NoDup (dict_keys groups)
  /\ forall k g',
       dict_get k groups = Some g' ->
       channel_group k (dict_values poi) <> []
       /\ sorted_by_creationTime (channel_group k (dict_values poi)) = Ok g'.
Proof.
  unfold DbUtil.candidate_groups. intros Hrun.
  apply bind_Ok in Hrun as (poi' & Hpoi & Hsort).
  pose proof (picks_of_interest_filter sm origin inventory maxDelta maxResidual
                _ _ (proj1 (loadPicksForTimespan_keyed _ _ _ _)) Hpoi) as Hfilter.
  subst poi'.
  split; [exact Hpoi|]. split.
  - rewrite (sort_groups_keys _ _ Hsort). apply picks_per_nslc_keys.
  - intros k g' Hget.
    destruct (sort_groups_get _ _ _ _ Hsort Hget) as (g & Hg & Hsorted).
    rewrite picks_per_nslc_get in Hg.
    destruct (channel_group k _) as [|p0 g0]; cbn in Hg; [discriminate|].
    injection Hg as <-. split; [intros Hnil; discriminate Hnil | exact Hsorted].
Qed.

(** Every group has a representative. *)
Lemma candidate_groups_nonempty (groups : dict NSLC (list Pick)) (k : NSLC)
    (g : list Pick) :
  candidate_groups = Ok groups -> (k, g) ∈ groups ->
  exists rep rest, g = rep :: rest.
Proof.
  intros Hrun Hin.
  destruct (candidate_groups_spec _ Hrun) as (_ & Hnd & Hgroups).
  destruct (Hgroups k g (dict_elem_get _ _ _ Hnd Hin)) as [Hne Hsorted].
  apply sorted_by_creationTime_perm in Hsorted.
  destruct g as [|rep rest]; [|eauto].
  apply Permutation_nil_l in Hsorted. congruence.
Qed.

(** The members of a group are the picks of interest of its channel. *)
Lemma candidate_groups_members (groups : dict NSLC (list Pick)) (k : NSLC)
    (g : list Pick) (p : Pick) :
  candidate_groups = Ok groups -> (k, g) ∈ groups ->
  p ∈ g <-> nslc p = k /\ (pick_publicID p, p) ∈ poi.
Proof.
  intros Hrun Hin.
  destruct (candidate_groups_spec _ Hrun) as (_ & Hnd & Hgroups).
  destruct (Hgroups k g (dict_elem_get _ _ _ Hnd Hin)) as [_ Hsorted].
  rewrite (sorted_by_creationTime_perm _ _ Hsorted).
  unfold channel_group. rewrite list_elem_of_filter.
  unfold dict_values. rewrite list_elem_of_fmap.
  destruct (loadPicksForTimespan_keyed query (origin_time origin)
              (origin_time origin + 1200)%Q allowedAuthorIDs) as [_ Hkeys].
  rewrite Forall_forall in Hkeys.
  split.
  - intros (Hk & [id p'] & -> & He). split; [exact Hk|].
    pose proof He as He'. apply list_elem_of_filter in He' as [_ He'].
    apply Hkeys in He'. cbn in He'. subst id. exact He.
  - intros (Hk & He). split; [exact Hk|]. exists (pick_publicID p, p).
    split; [reflexivity | exact He].
Qed.

(** Loading further objects leaves the keys that are there in their
    places. *)
Lemma loadPicksForTimespan_keys_extend (objs : list Object)
    (acc : dict string Pick) :
  exists added,
    dict_keys
      (foldl (fun objects obj =>
                match Pick_Cast obj with
                | Some pick =>
                    if allowedAuthor allowedAuthorIDs pick
                    then dict_set (pick_publicID pick) pick objects
                    else objects
                | None => objects
                end) acc objs)
    = dict_keys acc ++ added.
Proof.
  revert acc. induction objs as [|obj objs IH]; intros acc; cbn [foldl].
  - exists []. rewrite app_nil_r. reflexivity.
  - destruct (Pick_Cast obj) as [pick|]; [|apply IH].
    destruct (allowedAuthor allowedAuthorIDs pick); [|apply IH].
    destruct (IH (dict_set (pick_publicID pick) pick acc)) as (added & ->).
    rewrite dict_keys_set.
    destruct (dict_mem (pick_publicID pick) acc).
    + exists added. reflexivity.
    + exists (pick_publicID pick :: added). rewrite <- app_assoc. reflexivity.
Qed.

(** The public IDs of a channel group, in the order of the group, are
    taken from the keys of the loaded picks in their order. *)
Lemma channel_group_keys (k : NSLC) :
  sublist (pick_publicID <$> channel_group k (dict_values poi))
          (dict_keys picks).
Proof.
  destruct (loadPicksForTimespan_keyed query (origin_time origin)
              (origin_time origin + 1200)%Q allowedAuthorIDs) as [_ Hkeys].
  assert (Heq : dict_keys picks = pick_publicID <$> dict_values picks).
  { unfold dict_keys, dict_values. rewrite <- list_fmap_compose.
    apply Forall_fmap_ext_1. exact Hkeys. }
  rewrite Heq. apply fmap_sublist.
  unfold channel_group. etransitivity; [apply sublist_filter|].
  unfold dict_values. apply fmap_sublist, sublist_filter.
Qed.

(** A pick of a group that was created at the same time as the
    representative is not delivered before the representative. *)
Lemma tied_pick_delivered_later (groups : dict NSLC (list Pick)) (k : NSLC)
    (rep : Pick) (rest : list Pick) (t : Q) :
  candidate_groups = Ok groups ->
  (k, rep :: rest) ∈ groups ->
  pick_creationTime rep = Some t ->
  publicID_unique (delivered origin query) ->
  forall q tq before after,
    q ∈ rep :: rest -> pick_creationTime q = Some tq -> (tq == t)%Q ->
    delivered origin query = before ++ ObjPick q :: after ->
    q = rep \/ ObjPick rep ∈ before.
Proof.
  intros Hrun Hin Ht Huniq q tq before after Hq Htq Htie Hsplit.
  destruct (candidate_groups_spec _ Hrun) as (_ & Hnd & Hgroups).
  destruct (Hgroups k _ (dict_elem_get _ _ _ Hnd Hin)) as [_ Hsorted].
  pose proof (channel_group_keys k) as Hsub.
  destruct (sorted_by_creationTime_stable _ _ _ Hsorted)
    as (t' & l1 & l2 & Ht' & Hgroup & Hlater).
  rewrite Ht in Ht'. injection Ht' as <-.
  (* both picks are delivered by an allowed author *)
  assert (Hloaded : forall p, p ∈ rep :: rest ->
            (pick_publicID p, p) ∈ picks
            /\ ObjPick p ∈ delivered origin query
            /\ allowedAuthor allowedAuthorIDs p = true).
  { intros p Hp.
    apply (candidate_groups_members _ _ _ p Hrun Hin) in Hp as [_ Hp].
    apply list_elem_of_filter in Hp as [_ Hp].
    split; [exact Hp|].
    exact (loadPicksForTimespan_delivered _ _ _ _ _ Hp). }
  destruct (Hloaded rep (list_elem_of_here _ _)) as (Hrep_in & Hrep_del & _).
  destruct (Hloaded q Hq) as (_ & Hq_del & Hq_allowed).
  (* where the tied pick stands in the group *)
  rewrite (sorted_by_creationTime_perm _ _ Hsorted), Hgroup in Hq.
  apply elem_of_app in Hq as [Hq|Hq].
  { destruct (Hlater q Hq) as (tq' & Htq' & Hlt).
    rewrite Htq in Htq'. injection Htq' as <-.
    rewrite Htie in Hlt. exfalso. exact (Qlt_irrefl _ Hlt). }
  apply elem_of_cons in Hq as [Hq|Hq]; [left; exact Hq|].
  destruct (decide (pick_publicID rep = pick_publicID q)) as [Hid|Hid].
  { left. symmetry. exact (Huniq _ _ Hrep_del Hq_del Hid). }
  right.
  set (before_only := mkQuery (fun _ _ => before) (fun _ => []) (fun _ => [])).
  destruct (dict_get (pick_publicID rep)
              (loadPicksForTimespan before_only 0 0 allowedAuthorIDs))
    as [p'|] eqn:Hget.
  - apply dict_get_Some_elem in Hget.
    destruct (loadPicksForTimespan_keyed before_only 0 0 allowedAuthorIDs)
      as [_ Hkeyed].
    rewrite Forall_forall in Hkeyed. pose proof (Hkeyed _ Hget) as Hid'.
    apply loadPicksForTimespan_delivered in Hget as [Hdel _].
    cbn in Hid', Hdel.
    assert (Heq : rep = p'); [|rewrite Heq; exact Hdel].
    apply Huniq; [exact Hrep_del | | exact Hid'].
    rewrite Hsplit. apply elem_of_app; left; exact Hdel.
  - exfalso.
    destruct (loadPicksForTimespan_keyed query (origin_time origin)
                (origin_time origin + 1200)%Q allowedAuthorIDs) as [Hnodup _].
    fold picks in Hnodup.
    destruct (loadPicksForTimespan_keys_extend after
                (dict_set (pick_publicID q) q
                   (loadPicksForTimespan before_only 0 0 allowedAuthorIDs)))
      as (added & Hkeys).
    assert (Hpicks : dict_keys picks
              = dict_keys (dict_set (pick_publicID q) q
                             (loadPicksForTimespan before_only 0 0
                                allowedAuthorIDs)) ++ added).
    { rewrite <- Hkeys. unfold loaded_picks, loadPicksForTimespan.
      fold (delivered origin query). rewrite Hsplit.
      rewrite (cons_middle (ObjPick q)), app_assoc, foldl_app.
      rewrite (foldl_app _ before). cbn [foldl Pick_Cast getPicks_timespan before_only].
      rewrite Hq_allowed. reflexivity. }
    rewrite Hpicks in Hsub, Hnodup.
    rewrite Hgroup, fmap_app, fmap_cons in Hsub.
    apply (PyFactsMore.sublist_order _ _ _ _ _ (pick_publicID q) Hsub Hnodup).
    + apply list_elem_of_fmap_2. exact Hq.
    + apply dict_mem_keys. rewrite dict_mem_set.
      rewrite bool_decide_eq_true_2 by reflexivity. reflexivity.
    + assert (Hk : pick_publicID rep ∈ dict_keys picks).
      { unfold dict_keys. apply (list_elem_of_fmap_2 fst _ _ Hrep_in). }
      rewrite Hpicks in Hk. apply elem_of_app in Hk as [Hk|Hk]; [|exact Hk].
      apply dict_mem_keys in Hk. rewrite dict_mem_set in Hk.
      rewrite bool_decide_eq_false_2 in Hk by exact Hid.
      unfold dict_mem in Hk. rewrite Hget in Hk. discriminate Hk.
Qed.

(** *** The stream/phase list of the manual arrivals *)

Lemma manual_arrivals_from (associated : dict string Pick)
    (arrs : list Arrival) (mp0 mp : dict string Pick)
    (spl0 spl : list (WaveformStreamID * string)) :
  foldlM (fun '((manual_picks, stream_phase_list)
                 : dict string Pick * list (WaveformStreamID * string)) arr =>
            let pickID := arr_pickID arr in
            match dict_get pickID associated with
            | None => Raise KeyError
            | Some pick =>
                Ok (dict_set pickID pick manual_picks,
                    stream_phase_list ++ [(pick_waveformID pick, arr_phase arr)])
            end) (mp0, spl0) arrs = Ok (mp, spl) ->
  forall x, x ∈ spl <->
            x ∈ spl0
            \/ exists m pm, m ∈ arrs
                 /\ dict_get (arr_pickID m) associated = Some pm
                 /\ x = (pick_waveformID pm, arr_phase m).
Proof.
  revert mp0 spl0; induction arrs as [|arr arrs IH]; intros mp0 spl0 Hrun x.
  - cbn in Hrun. injection Hrun as <- <-. split; [auto|].
    intros [Hx|(m & pm & Hm & _)]; [exact Hx | inversion Hm].
  - cbn [foldlM] in Hrun. apply bind_Ok in Hrun as ([mp1 spl1] & Hstep & Hrest).
    cbn in Hstep.
    destruct (dict_get (arr_pickID arr) associated) as [pick|] eqn:Hget;
      [|discriminate].
    injection Hstep as <- <-.
    rewrite (IH _ _ Hrest x), elem_of_app, list_elem_of_singleton. split.
    + intros [[Hx| ->]|(m & pm & Hm & Hpm & ->)].
      * left; exact Hx.
      * right. exists arr, pick. split; [left | split; [exact Hget | reflexivity]].
      * right. exists m, pm. split; [right; exact Hm | split; [exact Hpm | reflexivity]].
    + intros [Hx|(m & pm & Hm & Hpm & ->)]; [left; left; exact Hx|].
      apply elem_of_cons in Hm as [->|Hm].
      * left; right. congruence.
      * right. exists m, pm. split; [exact Hm | split; [exact Hpm | reflexivity]].
Qed.

Lemma manual_arrivals_spec (associated : dict string Pick)
    (arrs : list Arrival) (mp : dict string Pick)
    (spl : list (WaveformStreamID * string)) :
  manual_arrivals associated arrs = Ok (mp, spl) ->
  forall x, x ∈ spl <->
            exists m pm, m ∈ arrs
              /\ dict_get (arr_pickID m) associated = Some pm
              /\ x = (pick_waveformID pm, arr_phase m).
Proof.
  intros Hrun x. rewrite (manual_arrivals_from _ _ _ _ _ _ Hrun x).
  split; [intros [Hx|Hx]; [inversion Hx | exact Hx] | auto].
Qed.

(** *** The association loop *)

Lemma associate_loop (spl : list (WaveformStreamID * string))
    (groups : dict NSLC (list Pick)) (arrs0 arrs : list Arrival)
    (picks0 picks' : list Pick) :
  foldlM (associate_step (Some spl)) (arrs0, picks0) groups = Ok (arrs, picks') ->
  exists accepted : list (Pick * Q),
    arrs = arrs0 ++ ((fun a => automatic_arrival maxDelta (fst a) (snd a))
                       <$> accepted)
    /\ picks' = picks0 ++ (fst <$> accepted)
    /\ Forall (fun a =>
                 exists k g dt,
                   (k, fst a :: g) ∈ groups
                   /\ ((pick_waveformID (fst a), "P") ∉ spl)
                   /\ locate k (fst a) = Ok (Residual (snd a) dt)
                   /\ within_window 2 maxResidual dt)
              accepted.
Proof.
  revert arrs0 picks0.
  induction groups as [|[k g] groups IH]; intros arrs0 picks0 Hrun.
  - cbn in Hrun. injection Hrun as <- <-. exists [].
    cbn. rewrite !app_nil_r. repeat split. constructor.
  - cbn [foldlM] in Hrun. apply bind_Ok in Hrun as ([arrs1 picks1] & Hstep & Hrest).
    destruct (IH _ _ Hrest) as (accepted & -> & -> & Hacc).
    assert (Hweaken : Forall (fun a =>
                 exists k0 g0 dt,
                   (k0, fst a :: g0) ∈ (k, g) :: groups
                   /\ ((pick_waveformID (fst a), "P") ∉ spl)
                   /\ locate k0 (fst a) = Ok (Residual (snd a) dt)
                   /\ within_window 2 maxResidual dt) accepted).
    { eapply Forall_impl; [exact Hacc|].
      intros a (k0 & g0 & dt & Hin & Hrest'). exists k0, g0, dt.
      split; [right; exact Hin | exact Hrest']. }
    assert (Hskip : (arrs1, picks1) = (arrs0, picks0) ->
              exists accepted0 : list (Pick * Q),
                arrs1 ++ ((fun a => automatic_arrival maxDelta a.1 a.2) <$> accepted)
                = arrs0 ++ ((fun a => automatic_arrival maxDelta a.1 a.2) <$> accepted0)
                /\ picks1 ++ (fst <$> accepted) = picks0 ++ (fst <$> accepted0)
                /\ Forall (fun a =>
                     exists k0 g0 dt,
                       (k0, fst a :: g0) ∈ (k, g) :: groups
                       /\ ((pick_waveformID (fst a), "P") ∉ spl)
                       /\ locate k0 (fst a) = Ok (Residual (snd a) dt)
                       /\ within_window 2 maxResidual dt) accepted0).
    { intros [= -> ->]. exists accepted. repeat split. exact Hweaken. }
    unfold DbUtil.associate_step in Hstep.
    destruct g as [|pick g]; [discriminate|].
    destruct (bool_decide ((pick_waveformID pick, "P") ∈ spl)) eqn:Hblocked.
    { injection Hstep as <- <-. apply Hskip; reflexivity. }
    apply bool_decide_eq_false in Hblocked.
    destruct (locate k pick) as [[| |delta dt]|e] eqn:Hloc; cbn in Hstep;
      try discriminate.
    + injection Hstep as <- <-. apply Hskip; reflexivity.
    + injection Hstep as <- <-. apply Hskip; reflexivity.
    + destruct (outsideWindow 2 maxResidual dt) eqn:Hout.
      { injection Hstep as <- <-. apply Hskip; reflexivity. }
      injection Hstep as <- <-.
      exists ((pick, delta) :: accepted). cbn.
      rewrite <- !app_assoc. repeat split.
      constructor; [|exact Hweaken].
      exists k, g, dt. cbn. split; [left|].
      split; [exact Hblocked|]. split; [exact Hloc|].
      apply outsideWindow_false; exact Hout.
Qed.

End association.

(** *** Properties of [loadPicksForOrigin] *)

Section loadPicksForOrigin_properties.
Variable sm : Seismology.
Variable manualArrival : Arrival -> bool.
Variable origin : Origin.
Variable inventory : Inventory.
Variable allowedAuthorIDs : list string.
Variables maxDelta maxResidual : Q.
Variable query : Query.

Local Abbreviation locate := (locate sm origin inventory maxDelta).
Local Abbreviation interesting :=
  (interesting sm origin inventory maxDelta maxResidual).
Local Abbreviation picks_of_interest :=
  (picks_of_interest sm origin inventory maxDelta maxResidual).
Local Abbreviation candidate_groups :=
  (candidate_groups sm origin inventory allowedAuthorIDs maxDelta maxResidual
                    query).
Local Abbreviation retained_arrivals :=
  (retained_arrivals manualArrival origin query).
Local Abbreviation loadPicksForOrigin :=
  (loadPicksForOrigin sm manualArrival origin inventory allowedAuthorIDs
                      maxDelta maxResidual query).
Local Abbreviation picks := (loaded_picks origin allowedAuthorIDs query).

Lemma interesting_true (e : string * Pick) :
  interesting e = true <->
  exists delta dt, locate (nslc (snd e)) (snd e) = Ok (Residual delta dt)
                   /\ within_window 4 maxResidual dt.
Proof.
  unfold Vocabulary.interesting.
  destruct (locate (nslc e.2) e.2) as [[| |delta dt]|ex].
  - split; [discriminate | intros (? & ? & [=] & _)].
  - split; [discriminate | intros (? & ? & [=] & _)].
  - rewrite negb_true_iff, outsideWindow_false. split.
    + intros Hw. exists delta, dt. split; [reflexivity | exact Hw].
    + intros (? & ? & [= <- <-] & Hw). exact Hw.
  - split; [discriminate | intros (? & ? & [=] & _)].
Qed.

(** What [loadPicksForOrigin] returns: the arrivals kept before the loop
    followed by one arrival per accepted representative. *)
Lemma loadPicksForOrigin_Ok (keepManualPicks : bool) (origin' : Origin)
    (picks' : list Pick) :
  loadPicksForOrigin keepManualPicks = Ok (origin', picks') ->
  exists groups kept picks0 stream_phase_list accepted,
    candidate_groups = Ok groups
    /\ retained_arrivals keepManualPicks = Ok (kept, picks0, stream_phase_list)
    /\ origin_arrivals origin'
       = origin_arrivals kept
         ++ ((fun a => automatic_arrival maxDelta (fst a) (snd a)) <$> accepted)
    /\ picks' = picks0 ++ (fst <$> accepted)
    /\ Forall (fun a =>
                 exists k g dt spl,
                   stream_phase_list = Some spl
                   /\ (k, fst a :: g) ∈ groups
                   /\ ((pick_waveformID (fst a), "P") ∉ spl)
                   /\ locate k (fst a) = Ok (Residual (snd a) dt)
                   /\ within_window 2 maxResidual dt)
              accepted.
Proof.
  unfold DbUtil.loadPicksForOrigin. intros Hrun.
  apply bind_Ok in Hrun as (groups & Hgroups & Hrun).
  apply bind_Ok in Hrun as ([[kept picks0] ospl] & Hkept & Hrun).
  apply bind_Ok in Hrun as ([arrs picks1] & Hloop & Hret).
  injection Hret as <- <-.
  exists groups, kept, picks0, ospl.
  destruct ospl as [spl|].
  - destruct (associate_loop sm origin inventory maxDelta maxResidual
                _ _ _ _ _ _ Hloop) as (accepted & -> & -> & Hacc).
    exists accepted. repeat split; try assumption.
    eapply Forall_impl; [exact Hacc|].
    intros a (k & g & dt & H1 & H2 & H3 & H4). exists k, g, dt, spl. auto.
  - destruct groups as [|[k [|rep g]] groups]; cbn in Hloop; try discriminate.
    injection Hloop as <- <-. exists []. cbn. rewrite !app_nil_r.
    repeat split; try assumption; constructor.
Qed.



(** A pick of interest of one catalog is a pick of interest of any
    catalog that delivers the same picks. *)
Lemma pick_of_interest_transfer (q q' : Query) (p : Pick) :
  delivered origin q ≡ₚ delivered origin q' ->
  publicID_unique (delivered origin q) ->
  (pick_publicID p, p)
    ∈ filter (fun e => interesting e = true)
             (loaded_picks origin allowedAuthorIDs q) ->
  (pick_publicID p, p)
    ∈ filter (fun e => interesting e = true)
             (loaded_picks origin allowedAuthorIDs q').
Proof.
  intros Hperm Huniq Hin.
  apply list_elem_of_filter in Hin as [Hint Hin].
  apply list_elem_of_filter. split; [exact Hint|].
  apply loadPicksForTimespan_delivered in Hin as [Hdel Hallowed]. cbn in *.
  apply dict_get_Some_elem, loadPicksForTimespan_complete.
  - intros p1 p2 H1 H2. apply Huniq; unfold delivered; rewrite Hperm; assumption.
  - fold (delivered origin q'). rewrite <- Hperm. exact Hdel.
  - exact Hallowed.
Qed.

(** C5 (as amended).  Every channel group handed to the association loop
    is non-empty and consists of the picks of interest of its channel;
    its representative is a pick of the group that was created no later
    than any other pick of the group.  When no other pick of the group
    shares the creation time of the representative, the same
    representative is chosen for every order in which the catalog
    delivers the picks (each public ID naming one pick).  On a tie the
    pick delivered first is the representative: a pick of the group
    created at the same time as the representative is delivered only
    after the representative has been delivered (each public ID naming
    one pick). *)
Theorem representative_is_earliest (groups : dict NSLC (list Pick))
    (k : NSLC) (g : list Pick) :
  candidate_groups = Ok groups ->
  (k, g) ∈ groups ->
  exists rep rest t,
    g = rep :: rest
    /\ (forall p, p ∈ g <->
                  nslc p = k
                  /\ (pick_publicID p, p)
                       ∈ filter (fun e => interesting e = true) picks)
    /\ pick_creationTime rep = Some t
    /\ (forall p, p ∈ g ->
                  exists tp, pick_creationTime p = Some tp /\ (t <= tp)%Q)
    /\ (forall query' groups' rep' rest',
          delivered origin query ≡ₚ delivered origin query' ->
          publicID_unique (delivered origin query) ->
          (forall p tp, p ∈ g -> pick_creationTime p = Some tp ->
                        (tp == t)%Q -> p = rep) ->
          DbUtil.candidate_groups sm origin inventory allowedAuthorIDs maxDelta
            maxResidual query' = Ok groups' ->
          dict_get k groups' = Some (rep' :: rest') ->
          rep' = rep)
    /\ (publicID_unique (delivered origin query) ->
        forall q tq before after,
          q ∈ g -> pick_creationTime q = Some tq -> (tq == t)%Q ->
          delivered origin query = before ++ ObjPick q :: after ->
          q = rep \/ ObjPick rep ∈ before).
Proof.
  intros Hgroups Hin.
  destruct (candidate_groups_spec sm origin inventory allowedAuthorIDs maxDelta
              maxResidual query _ Hgroups) as (_ & Hnd & Hspec).
  destruct (Hspec k g (dict_elem_get _ _ _ Hnd Hin)) as [_ Hsorted].
  destruct (candidate_groups_nonempty sm origin inventory allowedAuthorIDs
              maxDelta maxResidual query _ _ _ Hgroups Hin) as (rep & rest & ->).
  assert (Hmembers : forall p, p ∈ rep :: rest <->
            nslc p = k
            /\ (pick_publicID p, p)
                 ∈ filter (fun e => interesting e = true) picks).
  { intros p. exact (candidate_groups_members sm origin inventory
                       allowedAuthorIDs maxDelta maxResidual query _ _ _ p
                       Hgroups Hin). }
  destruct (sorted_by_creationTime_head _ _ _ Hsorted) as (_ & t & Ht & Hmin).
  assert (Hearliest : forall p, p ∈ rep :: rest ->
            exists tp, pick_creationTime p = Some tp /\ (t <= tp)%Q).
  { intros p Hp. apply Hmin.
    rewrite <- (sorted_by_creationTime_perm _ _ Hsorted). exact Hp. }
  exists rep, rest, t. split; [reflexivity|].
  split; [intros p; apply Hmembers|].
  split; [exact Ht|]. split; [exact Hearliest|].
  split;
    [|intros Huniq;
      exact (tied_pick_delivered_later sm origin inventory allowedAuthorIDs
               maxDelta maxResidual query groups k rep rest t Hgroups Hin Ht
               Huniq)].
  intros query' groups' rep' rest' Hperm Huniq Htie Hgroups' Hget'.
  destruct (candidate_groups_spec sm origin inventory allowedAuthorIDs maxDelta
              maxResidual query' _ Hgroups') as (_ & Hnd' & Hspec').
  destruct (Hspec' k _ Hget') as [_ Hsorted'].
  destruct (sorted_by_creationTime_head _ _ _ Hsorted') as (_ & t' & Ht' & Hmin').
  pose proof (dict_get_Some_elem _ _ _ Hget') as Hin'.
  assert (Huniq' : publicID_unique (delivered origin query')).
  { intros p1 p2 H1 H2. apply Huniq; rewrite Hperm; assumption. }
  (* the representative of the one catalog is a member of the group of the
     other *)
  assert (Hrep' : rep' ∈ rep :: rest).
  { apply Hmembers.
    pose proof (proj1 (candidate_groups_members sm origin inventory
                  allowedAuthorIDs maxDelta maxResidual query' _ _ _ rep'
                  Hgroups' Hin') (list_elem_of_here _ _)) as [Hk He].
    split; [exact Hk|].
    apply (pick_of_interest_transfer query' query); [symmetry | |]; assumption. }
  assert (Hrep : rep ∈ rep' :: rest').
  { apply (candidate_groups_members sm origin inventory allowedAuthorIDs
             maxDelta maxResidual query' _ _ _ rep Hgroups' Hin').
    pose proof (proj1 (Hmembers rep) (list_elem_of_here _ _)) as [Hk He].
    split; [exact Hk|].
    apply (pick_of_interest_transfer query query'); assumption. }
  destruct (Hearliest rep' Hrep') as (t1 & Ht1 & Hle1).
  rewrite Ht' in Ht1. injection Ht1 as <-.
  destruct (Hmin' rep) as (t2 & Ht2 & Hle2).
  { rewrite <- (sorted_by_creationTime_perm _ _ Hsorted'). exact Hrep. }
  rewrite Ht in Ht2. injection Ht2 as <-.
  apply (Htie rep' t' Hrep' Ht'). apply Qle_antisym; assumption.
Qed.

(** C6.  Residual filtering is a funnel of two symmetric, open windows.
    Candidate stage: a loaded pick is kept as pick of interest iff its
    station is known and within [maxDelta] and its residual [dt]
    satisfies [-4*maxResidual < dt < 4*maxResidual]; a residual on the
    boundary is excluded.  Association stage: an arrival is appended only
    for a group representative whose residual satisfies
    [-2*maxResidual < dt < 2*maxResidual], the boundary again excluded. *)
Theorem residual_funnel (keepManualPicks : bool) (poi : dict string Pick) :
  picks_of_interest picks = Ok poi ->
  (forall e, e ∈ picks ->
     (e ∈ poi <->
      exists delta dt, locate (nslc (snd e)) (snd e) = Ok (Residual delta dt)
                       /\ (- (4) * maxResidual < dt /\ dt < 4 * maxResidual)%Q))
  /\ (forall e delta dt,
        e ∈ picks ->
        locate (nslc (snd e)) (snd e) = Ok (Residual delta dt) ->
        (dt == 4 * maxResidual \/ dt == - (4) * maxResidual)%Q ->
        e ∉ poi)
  /\ (forall origin' picks',
        loadPicksForOrigin keepManualPicks = Ok (origin', picks') ->
        exists groups kept picks0 spl accepted,
          candidate_groups = Ok groups
          /\ retained_arrivals keepManualPicks = Ok (kept, picks0, spl)
          /\ origin_arrivals origin'
             = origin_arrivals kept
               ++ ((fun a => automatic_arrival maxDelta (fst a) (snd a))
                     <$> accepted)
          /\ Forall (fun a =>
                       exists k g dt,
                         (k, fst a :: g) ∈ groups
                         /\ locate k (fst a) = Ok (Residual (snd a) dt)
                         /\ (- (2) * maxResidual < dt /\ dt < 2 * maxResidual)%Q
                         /\ ~ (dt == 2 * maxResidual)%Q
                         /\ ~ (dt == - (2) * maxResidual)%Q)
                    accepted).
Proof.
  intros Hpoi.
  pose proof (picks_of_interest_filter sm origin inventory maxDelta maxResidual
                _ _ (proj1 (loadPicksForTimespan_keyed _ _ _ _)) Hpoi) as Hfilter.
  assert (Hiff : forall e, e ∈ picks ->
            (e ∈ poi <->
             exists delta dt, locate (nslc e.2) e.2 = Ok (Residual delta dt)
                              /\ within_window 4 maxResidual dt)).
  { intros e He. rewrite Hfilter, list_elem_of_filter, interesting_true.
    split; [intros [H _]; exact H | intros H; split; [exact H | exact He]]. }
  split; [exact Hiff|]. split.
  - intros e delta dt He Hloc Hdt Hin.
    apply (Hiff e He) in Hin as (delta' & dt' & Hloc' & [Hlo Hhi]).
    rewrite Hloc in Hloc'. injection Hloc' as <- <-.
    destruct Hdt as [Hdt|Hdt]; rewrite Hdt in Hlo, Hhi;
      [exact (Qlt_irrefl _ Hhi) | exact (Qlt_irrefl _ Hlo)].
  - intros origin' picks' Hrun.
    destruct (loadPicksForOrigin_Ok _ _ _ Hrun)
      as (groups & kept & picks0 & spl & accepted & Hg & Hk & Harr & _ & Hacc).
    exists groups, kept, picks0, spl, accepted.
    repeat split; try assumption.
    eapply Forall_impl; [exact Hacc|].
    intros a (k & g & dt & spl' & _ & Hin & _ & Hloc & [Hlo Hhi]).
    exists k, g, dt. repeat split; try assumption.
    + intros Hdt. rewrite Hdt in Hhi. exact (Qlt_irrefl _ Hhi).
    + intros Hdt. rewrite Hdt in Hlo. exact (Qlt_irrefl _ Hlo).
Qed.

(** C10.  With [keepManualPicks] false the name [stream_phase_list] is
    unbound: as soon as one channel group survives the candidate stage,
    the association loop raises [NameError] at its first turn, and the
    function returns no arrivals. *)
Theorem keepManualPicks_false_raises_NameError
    (groups : dict NSLC (list Pick)) :
  candidate_groups = Ok groups ->
  groups <> [] ->
  loadPicksForOrigin false = Raise NameError.
Proof.
  intros Hgroups Hne.
  unfold DbUtil.loadPicksForOrigin. rewrite Hgroups. cbn.
  destruct groups as [|[k g] groups]; [congruence|].
  destruct (candidate_groups_nonempty sm origin inventory allowedAuthorIDs
              maxDelta maxResidual query _ k g Hgroups) as (rep & rest & ->);
    [left|].
  reflexivity.
Qed.

(** With [keepManualPicks] true the name is bound: the loop never raises
    [NameError]. *)
Lemma associate_step_bound (spl : list (WaveformStreamID * string))
    (st : list Arrival * list Pick) (entry : NSLC * list Pick) :
  associate_step sm origin inventory maxDelta maxResidual (Some spl) st entry
  <> Raise NameError.
Proof.
  unfold associate_step. destruct entry as [k [|rep g]]; [discriminate|].
  destruct (bool_decide _); [discriminate|].
  unfold DbUtil.locate. destruct k as [[[n s] l] c].
  destruct (dict_get _ _); [|discriminate].
  destruct (Qltb _ _); [discriminate|].
  destruct (ttt_compute _ _ _); cbn; [discriminate|].
  destruct (outsideWindow _ _ _); discriminate.
Qed.

(** One turn of the loop on a group whose representative is blocked by a
    manual arrival leaves the arrivals and the picks as they are, also in
    a run that raises later. *)
Lemma associate_step_manual_precedence
    (spl : list (WaveformStreamID * string)) (st : list Arrival * list Pick)
    (k : NSLC) (rep : Pick) (g : list Pick) :
  (pick_waveformID rep, "P") ∈ spl ->
  associate_step sm origin inventory maxDelta maxResidual (Some spl) st
                 (k, rep :: g) = Ok st.
Proof.
  intros Hin. unfold associate_step.
  rewrite bool_decide_eq_true_2 by exact Hin. reflexivity.
Qed.

(** C4.  With [keepManualPicks] set, the arrivals of the returned origin
    are the retained manual arrivals followed by the automatic arrivals
    appended by the loop; no arrival is appended for (any pick of) a
    channel group whose representative has a waveform ID that carries a
    retained manual "P" arrival, and no appended arrival shares its
    waveform ID with a retained manual "P" arrival. *)
Theorem manual_arrival_blocks_group (origin' : Origin) (picks' : list Pick)
    (groups : dict NSLC (list Pick)) :
  loadPicksForOrigin true = Ok (origin', picks') ->
  candidate_groups = Ok groups ->
  let retained := filter (fun arr => manualArrival arr = true)
                         (loadArrivals query (origin_publicID origin)) in
  let associated := associated_picks query (origin_publicID origin) in
  exists appended : list (Pick * Q),
    origin_arrivals origin'
    = retained ++ ((fun a => automatic_arrival maxDelta (fst a) (snd a))
                     <$> appended)
    /\ (forall k rep g,
          (k, rep :: g) ∈ groups ->
          manual_P_retained retained associated (pick_waveformID rep) ->
          forall a q, a ∈ appended -> q ∈ rep :: g ->
                      pick_publicID (fst a) <> pick_publicID q)
    /\ (forall a, a ∈ appended ->
                  ~ manual_P_retained retained associated
                      (pick_waveformID (fst a))).
Proof.
  intros Hrun Hgroups retained associated.
  destruct (loadPicksForOrigin_Ok _ _ _ Hrun)
    as (groups' & kept & picks0 & ospl & appended & Hg & Hk & Harr & _ & Hacc).
  rewrite Hgroups in Hg. injection Hg as <-.
  unfold DbUtil.retained_arrivals in Hk.
  apply bind_Ok in Hk as ([mp spl] & Hmanual & Hk). injection Hk as <- <- <-.
  change (manual_arrivals associated retained = Ok (mp, spl)) in Hmanual.
  change (origin_arrivals origin'
          = retained ++ ((fun a => automatic_arrival maxDelta a.1 a.2)
                           <$> appended)) in Harr.
  pose proof (manual_arrivals_spec _ _ _ _ Hmanual) as Hspl.
  assert (Hblocked : forall w, manual_P_retained retained associated w ->
                               (w, "P") ∈ spl).
  { intros w (m & pm & Hm & Hpm & <- & <-). apply Hspl. exists m, pm. auto. }
  rewrite Forall_forall in Hacc.
  exists appended. split; [exact Harr|]. split.
  - intros k rep g Hin Hman a q Ha Hq Hid.
    destruct (Hacc a Ha) as (k' & g' & dt & spl' & [= <-] & Hin' & Hfree & _).
    destruct (candidate_groups_spec sm origin inventory allowedAuthorIDs
                maxDelta maxResidual query _ Hgroups) as (_ & Hnd & _).
    pose proof (proj1 (candidate_groups_members sm origin inventory
                  allowedAuthorIDs maxDelta maxResidual query _ _ _ q
                  Hgroups Hin) Hq) as [Hkq Hq'].
    pose proof (proj1 (candidate_groups_members sm origin inventory
                  allowedAuthorIDs maxDelta maxResidual query _ _ _ a.1
                  Hgroups Hin') (list_elem_of_here _ _)) as [Hka Ha'].
    apply list_elem_of_filter in Hq' as [_ Hq'].
    apply list_elem_of_filter in Ha' as [_ Ha'].
    destruct (loadPicksForTimespan_keyed query (origin_time origin)
                (origin_time origin + 1200)%Q allowedAuthorIDs) as [Hndp _].
    apply (dict_elem_get _ _ _ Hndp) in Hq', Ha'.
    rewrite Hid, Hq' in Ha'. injection Ha' as Heq.
    rewrite <- Heq, Hkq in Hka. subst k'.
    apply (dict_elem_get _ _ _ Hnd) in Hin, Hin'.
    rewrite Hin in Hin'. injection Hin' as Hrep _.
    apply Hfree. rewrite <- Hrep. apply Hblocked, Hman.
  - intros a Ha Hman.
    destruct (Hacc a Ha) as (k' & g' & dt & spl' & [= <-] & _ & Hfree & _).
    apply Hfree, Hblocked, Hman.
Qed.

End loadPicksForOrigin_properties.

(** *** The properties on the sample catalog *)

Section samples.
Import Sample.

Local Abbreviation run keep :=
  (loadPicksForOrigin sample_sm sample_manualArrival sample_origin
     sample_inventory sample_authors 105 (5 # 2) sample_catalog keep).
Local Abbreviation groups_of q :=
  (candidate_groups sample_sm sample_origin sample_inventory sample_authors
     105 (5 # 2) q).

Lemma keepManualPicks_false_raises_NameError_witness :
  run false = Raise NameError.
Proof.
  eapply (keepManualPicks_false_raises_NameError sample_sm sample_manualArrival
            sample_origin sample_inventory sample_authors 105 (5 # 2)
            sample_catalog).
  - vm_compute. reflexivity.
  - discriminate.
Defined.

Lemma residual_funnel_witness :
  exists poi,
    picks_of_interest sample_sm sample_origin sample_inventory 105 (5 # 2)
      (loaded_picks sample_origin sample_authors sample_catalog) = Ok poi
    /\ (("dl-KARP-10", dl_KARP_10) ∉ poi)
    /\ (("dl-APE-5", dl_APE_5) ∈ poi).
Proof.
  eexists. split; [vm_compute; reflexivity|].
  destruct (residual_funnel sample_sm sample_manualArrival sample_origin
              sample_inventory sample_authors 105 (5 # 2) sample_catalog true
              _ eq_refl) as (Hiff & Hboundary & _).
  split.
  - apply (Hboundary ("dl-KARP-10", dl_KARP_10) 30 10)%Q.
    + vm_compute. apply list_elem_of_In. cbn. tauto.
    + vm_compute. reflexivity.
    + left. reflexivity.
  - apply Hiff.
    + vm_compute. apply list_elem_of_In. cbn. tauto.
    + exists 20%Q, 5%Q. split; [vm_compute; reflexivity|].
      split; reflexivity.
Defined.

(** A pick alone on its channel with a residual of exactly
    [2*maxResidual] passes the candidate stage and gets no arrival. *)
Lemma association_boundary_example :
  loadPicksForOrigin sample_sm sample_manualArrival sample_origin
    sample_inventory sample_authors 105 (5 # 2)
    (sample_query [dl_APE_5] [] []) true
  = Ok (sample_origin, []).
Proof. vm_compute. reflexivity. Qed.

Lemma manual_arrival_blocks_group_witness :
  exists origin' picks' groups,
    run true = Ok (origin', picks')
    /\ groups_of sample_catalog = Ok groups
    /\ exists appended : list (Pick * Q),
         origin_arrivals origin'
         = [arrival_manual_APE]
             ++ ((fun a => automatic_arrival 105 (fst a) (snd a)) <$> appended)
         /\ (forall a q, a ∈ appended ->
                q ∈ [dl_APE; dl_APE_late; dl_APE_5] ->
                pick_publicID (fst a) <> pick_publicID q)
         /\ (forall a, a ∈ appended ->
                ~ manual_P_retained [arrival_manual_APE]
                    [("manual-APE", manual_APE)] (pick_waveformID (fst a))).
Proof.
  do 3 eexists. split; [vm_compute; reflexivity|].
  split; [vm_compute; reflexivity|].
  destruct (manual_arrival_blocks_group sample_sm sample_manualArrival
              sample_origin sample_inventory sample_authors 105 (5 # 2)
              sample_catalog _ _ _ eq_refl eq_refl)
    as (appended & Harr & Hgroup & Hdup).
  exists appended. split; [exact Harr|]. split; [|exact Hdup].
  apply (Hgroup ("GE", "APE", "", "BHZ") dl_APE [dl_APE_late; dl_APE_5]).
  - left.
  - exists arrival_manual_APE, manual_APE.
    split; [left | repeat split].
Defined.

(** Two picks of one channel created at the same instant: the
    representative is the one delivered first. *)
Lemma representative_depends_on_delivery :
  ~ representative_independent_of_delivery.
Proof.
  intros Hclaim.
  assert (Heq : dl_APE = dl_APE_twin); [|discriminate Heq].
  eapply (Hclaim sample_sm sample_origin sample_inventory sample_authors
            105%Q (5 # 2)%Q
            (sample_query [dl_APE; dl_APE_twin] [] [])
            (sample_query [dl_APE_twin; dl_APE] [] [])
            _ _ ("GE", "APE", "", "BHZ")).
  - apply perm_swap.
  - vm_compute. reflexivity.
  - vm_compute. reflexivity.
  - vm_compute. reflexivity.
  - vm_compute. reflexivity.
Qed.

Lemma sample_delivered_unique :
  publicID_unique (delivered sample_origin sample_catalog).
Proof.
  intros p q Hp Hq Hid. unfold delivered, sample_catalog, sample_query in Hp, Hq.
  cbn in Hp, Hq.
  repeat (apply elem_of_cons in Hp as [[= ->]|Hp]);
    try (inversion Hp; fail);
    repeat (apply elem_of_cons in Hq as [[= ->]|Hq]);
    try (inversion Hq; fail);
    try reflexivity; discriminate Hid.
Qed.

Lemma representative_is_earliest_witness :
  exists groups g,
    groups_of sample_catalog = Ok groups
    /\ (("GE", "APE", "", "BHZ"), g) ∈ groups
    /\ exists rep rest t,
         g = rep :: rest
         /\ rep = dl_APE
         /\ pick_creationTime rep = Some t
         /\ (forall p, p ∈ g ->
                exists tp, pick_creationTime p = Some tp /\ (t <= tp)%Q)
         /\ (forall groups' rep' rest',
                groups_of (sample_query (reverse sample_delivered) [] [])
                = Ok groups' ->
                dict_get ("GE", "APE", "", "BHZ") groups' = Some (rep' :: rest') ->
                rep' = rep)
         /\ (forall q tq before after,
                q ∈ g -> pick_creationTime q = Some tq -> (tq == t)%Q ->
                delivered sample_origin sample_catalog
                = before ++ ObjPick q :: after ->
                q = rep \/ ObjPick rep ∈ before).
Proof.
  do 2 eexists. split; [vm_compute; reflexivity|].
  split; [left|].
  destruct (representative_is_earliest sample_sm sample_origin sample_inventory
              sample_authors 105 (5 # 2) sample_catalog _
              ("GE", "APE", "", "BHZ") _ eq_refl (list_elem_of_here _ _))
    as (rep & rest & t & Hg & _ & Ht & Hmin & Horder & Htied).
  exists rep, rest, t. split; [exact Hg|].
  injection Hg as <- <-. injection Ht as <-.
  split; [reflexivity|]. split; [reflexivity|]. split; [exact Hmin|].
  split; [|exact (Htied sample_delivered_unique)].
  intros groups' rep' rest'.
  apply (Horder (sample_query (reverse sample_delivered) [] [])).
  - unfold delivered, sample_catalog, sample_query. cbn [getPicks_timespan].
    apply fmap_Permutation. symmetry. apply reverse_Permutation.
  - exact sample_delivered_unique.
  - intros p tp Hp Htp Heq.
    repeat (apply elem_of_cons in Hp as [->|Hp]);
      try (inversion Hp; fail);
      try reflexivity;
      injection Htp as <-; vm_compute in Heq; discriminate Heq.
Defined.

End samples.

End DbUtilSpec.

(** ** The client: event workspace and waveform requests *)

Module ClientSpec.
Import PyFacts Util Client Vocabulary Sample.

Lemma used_distances_spec (origin : Origin) :
  used_distances origin = usedArrivalDistances origin.
Proof.
  unfold used_distances, usedArrivalDistances.
  generalize (origin_arrivals origin); intros arrs.
  enough (Hgen : forall acc : list Q,
             foldl (fun delta arr =>
                      if Qltb (arr_weight arr) (1 # 2) then delta
                      else match arr_distance arr with
                           | Some d => delta ++ [d]
                           | None => delta
                           end) acc arrs
             = acc ++ omap (fun arr => if usedArrival arr then arr_distance arr
                                       else None) arrs)
    by exact (Hgen []).
  induction arrs as [|arr arrs IH]; intros acc; cbn.
  - rewrite app_nil_r; reflexivity.
  - unfold usedArrival, Qltb.
    destruct (Qle_bool (1 # 2) (arr_weight arr)); cbn.
    + destruct (arr_distance arr) as [d|]; rewrite IH; [|reflexivity].
      rewrite <- app_assoc; reflexivity.
    + apply IH.
Qed.

Lemma sort_floats_perm (l : list Q) : sort_floats l ≡ₚ l.
Proof.
  unfold sort_floats. rewrite sort_by_key_perm, <- list_fmap_compose.
  induction l as [|x l IH]; cbn; [reflexivity | rewrite IH; reflexivity].
Qed.

Lemma sort_floats_sorted (l : list Q) : StronglySorted Qle (sort_floats l).
Proof.
  unfold sort_floats.
  pose proof (sort_by_key_sorted ((fun d : Q => (d, tt)) <$> l)) as Hs.
  induction Hs as [|x k Hk IH Hx]; cbn; constructor; [exact IH|].
  apply Forall_fmap. exact Hx.
Qed.

Lemma last3_split {A : Type} (l : list A) :
  (3 <= length l)%nat ->
  exists pre x y z, l = pre ++ [x; y; z] /\ last3 l = [x; y; z].
Proof.
  intros Hlen. unfold last3.
  pose proof (take_drop (length l - 3) l) as Hsplit.
  pose proof (length_drop l (length l - 3)) as Hdrop.
  destruct (drop (length l - 3) l) as [|x [|y [|z [|? ?]]]] eqn:Hd;
    cbn in Hdrop; try lia.
  exists (take (length l - 3) l), x, y, z. split; [symmetry; exact Hsplit | reflexivity].
Qed.

(** C3.  For an origin outside the empty-origin whitelist with at least
    three used arrivals of known distance, let [a <= b <= c] be the three
    largest of these distances.  [maxDelta] is decided by their mean as
    [numpy.average] computes it in double precision ([average [a; b; c]],
    the sum taken in this order): it is the computed mean if that is at
    most 40 degrees and 105 degrees if it exceeds 40 degrees, also when
    the sum overflows.  If the three distances lie between 0 and 180
    degrees, the computed mean is within [2^-43] of the exact mean; then
    [maxDelta] is the computed mean if the exact mean is at most
    [40 - 2^-43] and 105 degrees if the exact mean exceeds
    [40 + 2^-43].  Used distances of 30, 35 and 38 degrees give
    34.333333333333336 degrees, the double next to 103/3; 42, 45 and 50
    degrees give 105 degrees. *)
Theorem adaptiveMaxDelta_mean_of_three_largest (origin : Origin) :
  origin_agencyID origin ∉ emptyOriginAgencyIDs ->
  (3 <= length (usedArrivalDistances origin))%nat ->
  (exists a b c,
     three_largest (usedArrivalDistances origin) a b c
     /\ (a <= b /\ b <= c)%Q
     /\ (forall m, average [a; b; c] = Num m ->
           (m <= 40 -> adaptiveMaxDelta origin = Num m)
           /\ (40 < m -> adaptiveMaxDelta origin = Num 105))%Q
     /\ (average [a; b; c] = Inf false -> adaptiveMaxDelta origin = Num 105)
     /\ (0 <= a -> c <= 180 ->
         exists m,
           average [a; b; c] = Num m
           /\ (a + b + c) / 3 - mean_accuracy <= m
           /\ m <= (a + b + c) / 3 + mean_accuracy
           /\ ((a + b + c) / 3 <= 40 - mean_accuracy ->
               adaptiveMaxDelta origin = Num m)
           /\ (40 + mean_accuracy < (a + b + c) / 3 ->
               adaptiveMaxDelta origin = Num 105))%Q)
  /\ adaptiveMaxDelta (origin_used_at [30; 35; 38]%Q)
     = Num (4831987100199595 # 140737488355328)
  /\ (343 # 10 <= 4831987100199595 # 140737488355328 < 344 # 10)%Q
  /\ adaptiveMaxDelta (origin_used_at [42; 45; 50]%Q) = Num 105.
Proof.
  intros Hagency Hlen.
  split; [|vm_compute; repeat split; discriminate].
  unfold adaptiveMaxDelta.
  rewrite bool_decide_eq_false_2 by exact Hagency.
  rewrite used_distances_spec.
  set (l := usedArrivalDistances origin) in *.
  pose proof (sort_floats_perm l) as Hperm.
  pose proof (sort_floats_sorted l) as Hsorted.
  destruct (last3_split (sort_floats l)) as (pre & x & y & z & Hl & Hlast).
  { rewrite Hperm; exact Hlen. }
  rewrite Hlast. rewrite Hl in Hperm, Hsorted.
  assert (Hxy : (x <= y)%Q /\ (y <= z)%Q).
  { pose proof (StronglySorted_app_1_r _ _ _ Hsorted) as Hs.
    inversion Hs as [|? ? Hs' Hx]; subst.
    inversion Hs' as [|? ? _ Hy]; subst.
    split; [exact (Forall_inv Hx) | exact (Forall_inv Hy)]. }
  assert (Hcases : forall m, average [x; y; z] = Num m ->
            ((m <= 40)%Q ->
             match average [x; y; z] with
             | Num maxDelta => if Qltb 40 maxDelta then Num 105 else Num maxDelta
             | NaN => NaN
             | Inf negative => if negative then Inf true else Num 105
             end = Num m)
            /\ ((40 < m)%Q ->
                match average [x; y; z] with
                | Num maxDelta => if Qltb 40 maxDelta then Num 105 else Num maxDelta
                | NaN => NaN
                | Inf negative => if negative then Inf true else Num 105
                end = Num 105)).
  { intros m ->. split; intros Hm.
    - rewrite (proj2 (Qltb_ge 40 m)); [reflexivity | exact Hm].
    - rewrite (proj2 (Qltb_lt 40 m)); [reflexivity | exact Hm]. }
  exists x, y, z. split; [|split; [exact Hxy|split; [exact Hcases|split]]].
  - exists pre. split.
    + rewrite <- Hperm. rewrite Permutation_app_comm; reflexivity.
    + apply Forall_forall; intros d Hd.
      repeat split;
        apply (StronglySorted_app_1_elem_of _ _ _ d _ Hsorted Hd);
        rewrite !elem_of_cons; auto.
  - intros ->. reflexivity.
  - intros Hx Hz. destruct Hxy as [Hxy Hyz].
    destruct (Binary64Facts.average3_error x y z) as (m & Hm & Hlo & Hhi);
      try lra.
    exists m. split; [exact Hm|]. split; [exact Hlo|]. split; [exact Hhi|].
    destruct (Hcases m Hm) as [Hle Hgt].
    split; intros Hmean; [apply Hle | apply Hgt]; lra.
Qed.

(** The two scenarios of the specification: 34.333333333333336, the
    double next to 103/3, and 105. *)
Lemma adaptiveMaxDelta_regional :
  adaptiveMaxDelta (origin_used_at [30; 35; 38]%Q)
  = Num (4831987100199595 # 140737488355328)
  /\ (343 # 10 <= 4831987100199595 # 140737488355328 < 344 # 10)%Q.
Proof. vm_compute. repeat split; discriminate. Qed.

Lemma adaptiveMaxDelta_teleseismic :
  adaptiveMaxDelta (origin_used_at [42; 45; 50]%Q) = Num 105.
Proof. vm_compute. reflexivity. Qed.

(** Three used distances with an exact mean above 40 degrees, for which
    [maxDelta] is 40 degrees: the sum [120 + 2^-47] is rounded to
    120. *)
Lemma adaptiveMaxDelta_not_exact_mean : ~ maxDelta_is_exact_mean.
Proof.
  intros Hclaim.
  destruct (Hclaim (origin_used_at near_forty))
    as (a & b & c & (rest & Hperm & _) & _ & Hgt).
  { unfold emptyOriginAgencyIDs. apply not_elem_of_nil. }
  { vm_compute. lia. }
  assert (Hd : usedArrivalDistances (origin_used_at near_forty) = near_forty)
    by reflexivity.
  rewrite Hd in Hperm.
  assert (Hrest : rest = []).
  { apply Permutation_length in Hperm. destruct rest; [reflexivity|].
    cbn in Hperm. lia. }
  subst rest.
  apply Binary64Facts.sum_perm in Hperm. cbn [foldr near_forty] in Hperm.
  assert (Hmean : (40 < (a + b + c) / 3)%Q).
  { apply Qlt_shift_div_l; [reflexivity|].
    assert (Hsum : (a + b + c == a + (b + (c + 0)))%Q) by ring.
    rewrite Hsum, <- Hperm. reflexivity. }
  specialize (Hgt Hmean).
  vm_compute in Hgt. discriminate Hgt.
Qed.

Lemma adaptiveMaxDelta_mean_of_three_largest_witness :
  (exists a b c,
     three_largest (usedArrivalDistances (origin_used_at [38; 30; 35; 12]%Q))
                   a b c
     /\ (a <= b /\ b <= c)%Q
     /\ (forall m, average [a; b; c] = Num m ->
           (m <= 40 ->
            adaptiveMaxDelta (origin_used_at [38; 30; 35; 12]) = Num m)
           /\ (40 < m ->
               adaptiveMaxDelta (origin_used_at [38; 30; 35; 12]) = Num 105))%Q
     /\ (average [a; b; c] = Inf false ->
         adaptiveMaxDelta (origin_used_at [38; 30; 35; 12]%Q) = Num 105)
     /\ (0 <= a -> c <= 180 ->
         exists m,
           average [a; b; c] = Num m
           /\ (a + b + c) / 3 - mean_accuracy <= m
           /\ m <= (a + b + c) / 3 + mean_accuracy
           /\ ((a + b + c) / 3 <= 40 - mean_accuracy ->
               adaptiveMaxDelta (origin_used_at [38; 30; 35; 12]) = Num m)
           /\ (40 + mean_accuracy < (a + b + c) / 3 ->
               adaptiveMaxDelta (origin_used_at [38; 30; 35; 12]) = Num 105))%Q)
  /\ adaptiveMaxDelta (origin_used_at [30; 35; 38]%Q)
     = Num (4831987100199595 # 140737488355328)
  /\ (343 # 10 <= 4831987100199595 # 140737488355328 < 344 # 10)%Q
  /\ adaptiveMaxDelta (origin_used_at [42; 45; 50]%Q) = Num 105.
Proof.
  apply (adaptiveMaxDelta_mean_of_three_largest (origin_used_at [38; 30; 35; 12]%Q)).
  - unfold emptyOriginAgencyIDs. apply not_elem_of_nil.
  - vm_compute. lia.
Defined.

(** *** Waveforms: the gap test *)

Section waveforms.
Variable env : Environment.
Variable self : App.

Lemma receive_keys (records : list (option Record_))
    (wf : dict string (list Record_)) :
  NoDup (dict_keys wf) -> NoDup (dict_keys (receive records wf)).
Proof.
  revert wf; induction records as [|[rec|] records IH]; intros wf Hnd; cbn;
    try exact Hnd.
  apply IH, dict_keys_set_NoDup.
  destruct (dict_mem (rec_streamID rec) wf); [exact Hnd|].
  apply dict_keys_set_NoDup, Hnd.
Qed.

(** The loop of lines 481-484 re-files every stream under its key: no key
    is removed, and a stream noted as gappy keeps its gappy records. *)
Lemma gappy_loop (ks : list string) (wf : dict string (list Record_))
    (gs : list string) :
  NoDup ks ->
  (forall k, k ∈ ks -> dict_mem k wf = true) ->
  let r := foldl (gappy_step env) (wf, gs) ks in
  dict_keys (fst r) = dict_keys wf
  /\ (forall k, k ∉ ks -> dict_get k (fst r) = dict_get k wf)
  /\ (forall sid, sid ∈ snd r ->
         sid ∈ gs
         \/ exists records,
              dict_get sid (fst r) = Some records /\ gappy records 1 = true).
Proof.
  revert wf gs; induction ks as [|k ks IH]; intros wf gs Hnd Hmem; cbn.
  - repeat split; auto.
  - apply NoDup_cons in Hnd as [Hk Hnd].
    set (records := prepare env (default [] (dict_get k wf))).
    assert (Hkeys1 : dict_keys (dict_set k records wf) = dict_keys wf).
    { rewrite dict_keys_set, (Hmem k) by left. reflexivity. }
    assert (Hmem1 : forall k', k' ∈ ks ->
                               dict_mem k' (dict_set k records wf) = true).
    { intros k' Hk'. rewrite dict_mem_set, (Hmem k') by (right; exact Hk').
      apply orb_true_r. }
    assert (Hframe1 : forall k', k' ∉ k :: ks ->
              dict_get k' (dict_set k records wf) = dict_get k' wf).
    { intros k' Hk'. apply not_elem_of_cons in Hk' as [Hne _].
      rewrite dict_get_set, decide_False by exact Hne. reflexivity. }
    destruct (gappy records 1) eqn:Hgappy.
    + destruct (IH (dict_set k records wf) (gs ++ [k]) Hnd Hmem1)
        as (Hkeys & Hframe & Hgs).
      split; [rewrite Hkeys; exact Hkeys1|]. split.
      * intros k' Hk'. rewrite Hframe by (apply not_elem_of_cons in Hk'; tauto).
        apply Hframe1, Hk'.
      * intros sid Hsid. destruct (Hgs sid Hsid) as [Hin|Hrec]; [|right; exact Hrec].
        apply elem_of_app in Hin as [Hin|Hin]; [left; exact Hin|].
        apply list_elem_of_singleton in Hin as ->. right. exists records.
        rewrite (Hframe k Hk), dict_get_set, decide_True by reflexivity. auto.
    + destruct (IH (dict_set k records wf) gs Hnd Hmem1)
        as (Hkeys & Hframe & Hgs).
      split; [rewrite Hkeys; exact Hkeys1|]. split.
      * intros k' Hk'. rewrite Hframe by (apply not_elem_of_cons in Hk'; tauto).
        apply Hframe1, Hk'.
      * exact Hgs.
Qed.

(** Every stream of which a record was received is returned, gappy or
    not. *)
Lemma received_streams_are_returned (picks : dict string Pick) (event : Event) :
  let request := foldl (request_step env self (event_publicID event)) [] picks in
  request <> [] ->
  dict_keys (fst (_loadWaveformsForPicks env self picks event))
  = dict_keys (receive (recordStream env (requested_streams self request)) []).
Proof.
  cbv zeta. unfold _loadWaveformsForPicks.
  destruct (foldl (request_step env self (event_publicID event)) [] picks)
    as [|req request]; [congruence|]. intros _.
  set (wf := receive _ []).
  pose proof (gappy_loop (dict_keys wf) wf [] (receive_keys _ [] (NoDup_nil_2))
                (fun k Hk => proj2 (dict_mem_keys k wf) Hk)) as Hloop.
  cbv zeta in Hloop.
  destruct (foldl (gappy_step env) (wf, []) (dict_keys wf)) as [wf' gs].
  destruct Hloop as (Hkeys & _). exact Hkeys.
Qed.

(** C1 (what the code does).  A stream for which
    [_loadWaveformsForPicks] logs "Gappy stream ... ignored" is still part
    of the waveform set it returns, with its gappy records. *)
Theorem gappy_stream_is_returned (picks : dict string Pick) (event : Event)
    (streamID : string) :
  GappyStreamIgnored streamID ∈ snd (_loadWaveformsForPicks env self picks event) ->
  exists records,
    dict_get streamID (fst (_loadWaveformsForPicks env self picks event))
    = Some records
    /\ gappy records 1 = true.
Proof.
  unfold _loadWaveformsForPicks.
  destruct (foldl (request_step env self (event_publicID event)) [] picks)
    as [|req request]; [intros Hin; inversion Hin|].
  set (wf := receive _ []).
  pose proof (gappy_loop (dict_keys wf) wf [] (receive_keys _ [] (NoDup_nil_2))
                (fun k Hk => proj2 (dict_mem_keys k wf) Hk)) as Hloop.
  cbv zeta in Hloop.
  destruct (foldl (gappy_step env) (wf, []) (dict_keys wf)) as [wf' gs].
  destruct Hloop as (_ & _ & Hgs). cbn [fst snd] in *.
  intros Hin. apply list_elem_of_fmap in Hin as (sid & [= ->] & Hsid).
  destruct (Hgs sid Hsid) as [Hnil|Hrec]; [inversion Hnil | exact Hrec].
Qed.

End waveforms.

(** The scenario of the specification: one gap of 1.01 s; the stream is
    logged as ignored and returned. *)
Lemma gap_101_is_returned :
  _loadWaveformsForPicks (sample_env gap_101 []) sample_app
    [("auto-APE", auto_pick "auto-APE" "APE" 1200)] sample_event
  = ([("GE.APE..BHZ",
       [record_APE 1140 1170; record_APE (117101 # 100) 1320])],
     [GappyStreamIgnored "GE.APE..BHZ"]).
Proof. vm_compute. reflexivity. Qed.

(** One gap of 0.99 s: the stream is returned and nothing is logged. *)
Lemma gap_099_is_returned :
  _loadWaveformsForPicks (sample_env gap_099 []) sample_app
    [("auto-APE", auto_pick "auto-APE" "APE" 1200)] sample_event
  = ([("GE.APE..BHZ",
       [record_APE 1140 1170; record_APE (117099 # 100) 1320])],
     []).
Proof. vm_compute. reflexivity. Qed.

Lemma gappy_stream_is_returned_witness :
  exists records,
    dict_get "GE.APE..BHZ"
      (fst (_loadWaveformsForPicks (sample_env gap_101 []) sample_app
              [("auto-APE", auto_pick "auto-APE" "APE" 1200)] sample_event))
    = Some records
    /\ gappy records 1 = true.
Proof.
  apply (gappy_stream_is_returned (sample_env gap_101 []) sample_app).
  vm_compute. left.
Defined.

(** *** The pick loop of [processOrigin] *)

Section workspace.
Variable self : App.

(** C2 (what the code does).  A pick whose ID has a repick result
    registered in [mlpicks] is reported as "already repicked" and then
    treated like any other pick: if no later guard applies it is added to
    [new_picks] and to [attempted_picks]. *)
Theorem repicked_pick_is_offered_again (workspace : Workspace)
    (log : list LogLine) (pick : Pick) :
  dict_mem (pick_publicID pick) (mlpicks workspace) = true ->
  manual pick && negb (repickManualPicks self) = false ->
  dict_mem (pick_publicID pick) (attempted_picks workspace) = false ->
  isRepick pick (Some (app_author self)) = false ->
  (forall e, e ∈ attempted_picks workspace ->
             pick_waveformID (snd e) <> pick_waveformID pick) ->
  let st := processOrigin_pick self (workspace, log) pick in
  dict_get (pick_publicID pick) (new_picks (fst st)) = Some pick
  /\ dict_get (pick_publicID pick) (attempted_picks (fst st)) = Some pick
  /\ SkippingAlreadyRepicked (pick_publicID pick) ∈ snd st
  /\ AddingNewPick (pick_publicID pick) ∈ snd st.
Proof.
  intros Hml Hmanual Hattempted Hrepick Hwf.
  assert (Hfound : existsb (fun '((_, _pick) : string * Pick) =>
                     bool_decide (pick_waveformID _pick = pick_waveformID pick))
                           (attempted_picks workspace) = false).
  { apply not_true_iff_false. intros Hex.
    apply existsb_exists in Hex as ([id q] & Hin & Hq).
    apply bool_decide_eq_true in Hq.
    apply (Hwf (id, q)); [apply list_elem_of_In; exact Hin | exact Hq]. }
  unfold processOrigin_pick.
  destruct (dict_mem (pick_publicID pick) (all_picks workspace));
    cbn [attempted_picks mlpicks new_picks set_all_picks];
    rewrite Hmanual, Hml, Hattempted, Hrepick, Hfound;
    cbn [fst snd attempted_picks new_picks set_attempted_picks set_new_picks
         set_all_picks];
    rewrite !dict_get_set, !decide_True by reflexivity;
    repeat split;
    rewrite !elem_of_app, !list_elem_of_singleton; auto.
Qed.

(** A pick that is attempted already stays attempted and is not added to
    the new picks by a turn of either loop. *)
Lemma processOrigin_pick_keeps (id : string) (p : Pick)
    (st : Workspace * list LogLine) (pick : Pick) :
  attempted_not_new id p st ->
  attempted_not_new id p (processOrigin_pick self st pick).
Proof.
  destruct st as [workspace log]. unfold attempted_not_new. cbn [fst snd].
  intros (Hatt & Hnew & Hlog).
  assert (Hne : dict_mem (pick_publicID pick) (attempted_picks workspace) = false ->
                id <> pick_publicID pick).
  { unfold dict_mem. intros Hmem ->. rewrite Hatt in Hmem. discriminate. }
  unfold processOrigin_pick.
  destruct (dict_mem (pick_publicID pick) (all_picks workspace));
    cbn [attempted_picks mlpicks new_picks set_all_picks];
    destruct (manual pick && negb (repickManualPicks self));
    destruct (dict_mem (pick_publicID pick) (mlpicks workspace));
    destruct (dict_mem (pick_publicID pick) (attempted_picks workspace)) eqn:Hmem;
    try destruct (isRepick pick (Some (app_author self)));
    try destruct (existsb _ (attempted_picks workspace));
    cbn [fst snd attempted_picks new_picks set_attempted_picks set_new_picks
         set_all_picks];
    rewrite ?dict_get_set, ?dict_mem_set, ?not_elem_of_app,
      ?not_elem_of_cons;
    try (rewrite decide_False by (apply Hne; reflexivity));
    try (rewrite bool_decide_eq_false_2 by (apply Hne; reflexivity));
    repeat split; try assumption; try discriminate;
    try apply not_elem_of_nil;
    try (intros [= Heq]; apply (Hne eq_refl); exact Heq).
Qed.

Lemma processOrigin_predicted_keeps (id : string) (p : Pick)
    (st : Workspace * list LogLine) (item : string * Pick) :
  attempted_not_new id p st ->
  attempted_not_new id p (processOrigin_predicted st item).
Proof.
  destruct st as [workspace log], item as [pickID pick].
  unfold attempted_not_new. cbn [fst snd].
  intros (Hatt & Hnew & Hlog).
  assert (Hne : dict_mem pickID (attempted_picks workspace) = false ->
                id <> pickID).
  { unfold dict_mem. intros Hmem ->. rewrite Hatt in Hmem. discriminate. }
  unfold processOrigin_predicted.
  destruct (dict_mem pickID (all_picks workspace));
    cbn [attempted_picks new_picks set_all_picks]; [auto|].
  destruct (dict_mem pickID (attempted_picks workspace)) eqn:Hmem;
    cbn [fst snd attempted_picks new_picks set_attempted_picks set_new_picks
         set_all_picks].
  - rewrite not_elem_of_app, not_elem_of_cons.
    repeat split; try assumption; try discriminate. apply not_elem_of_nil.
  - rewrite dict_get_set, dict_mem_set.
    rewrite decide_False, bool_decide_eq_false_2 by (apply Hne; reflexivity).
    auto.
Qed.

End workspace.

(** *** Passes over the workspace *)

Section passes.
Variable sm : Seismology.
Variable env : Environment.
Variable query : Query.
Variable self : App.

Lemma loadWaveformsForPicks_log (picks : dict string Pick) (event : Event)
    (id : string) :
  AddingNewPick id ∉ snd (_loadWaveformsForPicks env self picks event).
Proof.
  unfold _loadWaveformsForPicks.
  destruct (foldl (request_step env self (event_publicID event)) [] picks);
    [apply not_elem_of_nil|].
  destruct (foldl (gappy_step env) _ _) as [wf gs]. cbn [snd].
  intros Hin. apply list_elem_of_fmap in Hin as (sid & Heq & _). discriminate Heq.
Qed.

Lemma store_waveforms_keeps (id : string) (p : Pick) (workspace : Workspace)
    (log log' : list LogLine) (wf : dict string (list Record_)) :
  attempted_not_new id p (workspace, log) ->
  AddingNewPick id ∉ log' ->
  attempted_not_new id p (store_waveforms wf workspace, log ++ log').
Proof.
  unfold attempted_not_new. cbn. intros (Hatt & Hnew & Hlog) Hlog'.
  rewrite not_elem_of_app. auto.
Qed.

Lemma drop_incomplete_keeps (id : string) (p : Pick)
    (streamIDs : dict (string * string * string) (list string))
    (st : Workspace * list LogLine) :
  attempted_not_new id p st ->
  attempted_not_new id p (drop_incomplete streamIDs st).
Proof.
  unfold drop_incomplete. intros Hst.
  apply foldl_invariant; [|exact Hst].
  intros st1 [nsl ids] _ Hst1.
  destruct (length ids <? 3)%nat; [|exact Hst1].
  apply foldl_invariant; [|exact Hst1].
  intros [workspace log] streamID _. unfold attempted_not_new. cbn.
  intros (Hatt & Hnew & Hlog). rewrite not_elem_of_app, not_elem_of_cons.
  repeat split; try assumption; try discriminate. apply not_elem_of_nil.
Qed.

Lemma predict_unpicked_keeps (id : string) (p : Pick) (origin : Origin)
    (event : Event) (maxDelta : Float) (st : Workspace * list LogLine) :
  attempted_not_new id p st ->
  attempted_not_new id p
    (fst (predict_unpicked sm env self origin event maxDelta st)).
Proof.
  destruct st as [workspace log]. intros Hst. unfold predict_unpicked.
  destruct (tryUpickedStations self); [|exact Hst].
  destruct (findUnpickedStations sm env self origin maxDelta
              (all_picks workspace)) as [predictedPicks|e]; [|exact Hst].
  destruct (0 <? length predictedPicks)%nat; [|exact Hst].
  pose proof (foldl_invariant (attempted_not_new id p) processOrigin_predicted
                predictedPicks (workspace, log)
                (fun st1 item _ => processOrigin_predicted_keeps id p st1 item)
                Hst) as Hloop.
  destruct (foldl processOrigin_predicted (workspace, log) predictedPicks)
    as [workspace1 log1].
  pose proof (loadWaveformsForPicks_log (new_picks workspace1) event id) as Hlog.
  destruct (_loadWaveformsForPicks env self (new_picks workspace1) event)
    as [wf log']. cbn [fst snd] in *.
  apply store_waveforms_keeps; assumption.
Qed.

(** One pass: what is attempted stays attempted; unless the pass returns
    at once, leaving the workspace as it is, the new picks it collects
    contain no pick that was attempted before. *)
Lemma processOrigin_keeps (origin : Origin) (event : Event)
    (workspace workspace' : Workspace) (log : list LogLine)
    (r : result ReturnValue) (id : string) (p : Pick) :
  processOrigin sm env query self origin event workspace
  = (workspace', log, r) ->
  dict_get id (attempted_picks workspace) = Some p ->
  dict_get id (attempted_picks workspace') = Some p
  /\ (workspace' = workspace \/ dict_mem id (new_picks workspace') = false)
  /\ AddingNewPick id ∉ log.
Proof.
  intros Hrun Hatt. unfold processOrigin in Hrun.
  destruct (bool_decide (origin_agencyID origin ∈ app_ignoredAgencyIDs self)).
  { injection Hrun as <- <- _. repeat split; auto. apply not_elem_of_nil. }
  destruct ((length (origin_arrivals origin) =? 0)%nat && _).
  { injection Hrun as <- <- _. repeat split; auto.
    rewrite not_elem_of_cons. split; [discriminate | apply not_elem_of_nil]. }
  assert (Hstart : attempted_not_new id p
                     (set_new_picks [] (set_origin origin workspace), [])).
  { repeat split; [exact Hatt | apply not_elem_of_nil]. }
  pose proof (foldl_invariant (attempted_not_new id p) (processOrigin_pick self)
                (getAssociatedPicksForOrigin query (origin_publicID origin)) _
                (fun st1 pick _ => processOrigin_pick_keeps self id p st1 pick)
                Hstart) as Hloop.
  destruct (foldl (processOrigin_pick self) _ _) as [workspace1 log1].
  pose proof (loadWaveformsForPicks_log (new_picks workspace1) event id) as Hlog.
  destruct (_loadWaveformsForPicks env self (new_picks workspace1) event)
    as [wf log'].
  pose proof (predict_unpicked_keeps id p origin event (adaptiveMaxDelta origin)
                _ (store_waveforms_keeps id p _ _ _ wf Hloop Hlog)) as Hpred.
  destruct (predict_unpicked sm env self origin event (adaptiveMaxDelta origin) _)
    as [[workspace2 log2] [[]|e]]; cbn [fst] in Hpred.
  - destruct (streams_per_nsl (waveforms workspace2)) as [streamIDs|e].
    + pose proof (drop_incomplete_keeps id p streamIDs _ Hpred) as Hdrop.
      destruct (drop_incomplete streamIDs (workspace2, log2))
        as [workspace3 log3].
      injection Hrun as <- <- _.
      destruct Hdrop as (H1 & H2 & H3). auto.
    + injection Hrun as <- <- _. destruct Hpred as (H1 & H2 & H3). auto.
  - injection Hrun as <- <- _. destruct Hpred as (H1 & H2 & H3). auto.
Qed.

End passes.

(** C7.  Across any sequence of processing passes over a workspace the
    entries of [attempted_picks] are kept, and a pick ID that is in
    [attempted_picks] at the start is not added to [new_picks] by any
    pass of the sequence or after it: such a pass either returns at once
    without touching the workspace, or ends with [new_picks] free of that
    ID; it never reports the pick as newly added. *)
Theorem attempted_picks_are_not_offered_again
    (workspace0 workspace workspace' : Workspace)
    (sm : Seismology) (env : Environment) (query : Query) (self : App)
    (origin : Origin) (event : Event) (log : list LogLine)
    (r : result ReturnValue) (id : string) (p : Pick) :
  dict_get id (attempted_picks workspace0) = Some p ->
  passes workspace0 workspace ->
  processOrigin sm env query self origin event workspace
  = (workspace', log, r) ->
  dict_get id (attempted_picks workspace') = Some p
  /\ (workspace' = workspace \/ dict_mem id (new_picks workspace') = false)
  /\ AddingNewPick id ∉ log.
Proof.
  intros Hatt Hpasses. revert Hatt.
  induction Hpasses as [ws|ws ws1 ws2 sm1 env1 query1 self1 origin1 event1
                            log1 r1 Hstep _ IH]; intros Hatt Hrun.
  - exact (processOrigin_keeps sm env query self _ _ _ _ _ _ id p Hrun Hatt).
  - apply IH; [|exact Hrun].
    exact (proj1 (processOrigin_keeps sm1 env1 query1 self1 _ _ _ _ _ _ id p
                    Hstep Hatt)).
Qed.

(** *** The properties on the sample workspace *)

(** A repick result for "auto-APE" is registered; the pass reports the
    pick as already repicked and adds it to the new and to the attempted
    picks all the same. *)
Lemma repicked_pick_pass :
  let '(workspace, log, r) :=
    processOrigin sample_sm (sample_env [] [])
      (sample_query [] [auto_pick "auto-APE" "APE" 1200] [])
      sample_app origin_with_arrival sample_event repicked_workspace in
  dict_keys (new_picks workspace) = ["auto-APE"]
  /\ dict_keys (attempted_picks workspace) = ["auto-APE"]
  /\ log = [AddedToWorkspace "auto-APE"; SkippingAlreadyRepicked "auto-APE";
            AddingNewPick "auto-APE"]
  /\ r = Ok ReturnNone.
Proof. vm_compute. repeat split. Qed.

Lemma repicked_pick_is_offered_again_witness :
  let pick := auto_pick "auto-APE" "APE" 1200 in
  let st := processOrigin_pick sample_app (repicked_workspace, []) pick in
  dict_get (pick_publicID pick) (new_picks (fst st)) = Some pick
  /\ dict_get (pick_publicID pick) (attempted_picks (fst st)) = Some pick
  /\ SkippingAlreadyRepicked (pick_publicID pick) ∈ snd st
  /\ AddingNewPick (pick_publicID pick) ∈ snd st.
Proof.
  apply (repicked_pick_is_offered_again sample_app repicked_workspace []
           (auto_pick "auto-APE" "APE" 1200)).
  - reflexivity.
  - reflexivity.
  - reflexivity.
  - reflexivity.
  - intros e He. inversion He.
Defined.

(** The pick "auto-APE" was attempted in an earlier pass; the catalog
    offers it again and it is passed over. *)
Lemma attempted_picks_are_not_offered_again_witness :
  exists workspace' log r,
    processOrigin sample_sm (sample_env [] [])
      (sample_query [] [auto_pick "auto-APE" "APE" 1200] [])
      sample_app origin_with_arrival sample_event attempted_workspace
    = (workspace', log, r)
    /\ dict_get "auto-APE" (attempted_picks workspace')
       = Some (auto_pick "auto-APE" "APE" 1200)
    /\ (workspace' = attempted_workspace
        \/ dict_mem "auto-APE" (new_picks workspace') = false)
    /\ AddingNewPick "auto-APE" ∉ log.
Proof.
  do 3 eexists. split; [vm_compute; reflexivity|].
  eapply (attempted_picks_are_not_offered_again attempted_workspace
           attempted_workspace _ sample_sm (sample_env [] [])
           (sample_query [] [auto_pick "auto-APE" "APE" 1200] [])
           sample_app origin_with_arrival sample_event).
  - reflexivity.
  - apply passes_none.
  - vm_compute. reflexivity.
Defined.

End ClientSpec.

(** ** The callers of the travel-time table *)

Module OracleSpec.
Import PyFacts Util InventoryUtil DbUtil Client Vocabulary Sample.

Lemma locate_consulted (sm : Seismology) (origin : Origin)
    (inventory : Inventory) (maxDelta : Q) (pick : Pick) :
  match consulted_for_pick sm origin inventory maxDelta pick with
  | None =>
      locate sm origin inventory maxDelta (nslc pick) pick = Ok UnknownStation
      \/ locate sm origin inventory maxDelta (nslc pick) pick = Ok BeyondMaxDelta
  | Some delta =>
      match ttt_compute sm (origin_depth origin) delta with
      | [] => locate sm origin inventory maxDelta (nslc pick) pick
              = Raise IndexError
      | ptime :: _ =>
          locate sm origin inventory maxDelta (nslc pick) pick
          = Ok (Residual delta
                  (pick_time pick - (origin_time origin + tt_time ptime))%Q)
      end
  end.
Proof.
  unfold consulted_for_pick, locate.
  destruct (nslc pick) as [[[n s] l] c]. cbv zeta.
  destruct (dict_get (n, s) _) as [sta|]; [|left; reflexivity].
  destruct (Qltb maxDelta _); [right; reflexivity|].
  destruct (ttt_compute sm _ _); reflexivity.
Qed.

(** C8 (as amended).  Both callers consult the travel-time table only for
    the items that pass their station and distance tests.  Candidate
    collection completes exactly when the table answers with a non-empty
    list for every pick it is consulted for, and raises [IndexError]
    otherwise; the same holds for the synthesis of predicted picks and
    the streams of the inventory. *)
Theorem travel_time_table_must_answer
    (sm : Seismology) (env : Environment) (self : App) (origin : Origin)
    (inventory : Inventory) (maxDelta maxResidual : Q)
    (candidates : dict string Pick)
    (adaptive : Float) (all_picks : dict string Pick) :
  ((exists poi,
      picks_of_interest sm origin inventory maxDelta maxResidual candidates
      = Ok poi
      /\ forall e delta,
           e ∈ candidates ->
           consulted_for_pick sm origin inventory maxDelta (snd e) = Some delta ->
           ttt_compute sm (origin_depth origin) delta <> [])
   \/ (picks_of_interest sm origin inventory maxDelta maxResidual candidates
       = Raise IndexError
       /\ exists e delta,
            e ∈ candidates
            /\ consulted_for_pick sm origin inventory maxDelta (snd e) = Some delta
            /\ ttt_compute sm (origin_depth origin) delta = []))
  /\
  ((exists predictedPicks,
      findUnpickedStations sm env self origin adaptive all_picks
      = Ok predictedPicks
      /\ forall item delta,
           item ∈ inventoryIterator env ->
           consulted_for_stream sm self origin adaptive
             (represented_stations all_picks) item = Some delta ->
           computeTravelTimes sm delta (origin_depth origin) <> [])
   \/ (findUnpickedStations sm env self origin adaptive all_picks
       = Raise IndexError
       /\ exists item delta,
            item ∈ inventoryIterator env
            /\ consulted_for_stream sm self origin adaptive
                 (represented_stations all_picks) item = Some delta
            /\ computeTravelTimes sm delta (origin_depth origin) = [])).
Proof.
  split.
  - unfold picks_of_interest.
    match goal with
    | |- context [foldlM ?body [] candidates] =>
        destruct (foldlM_cases body
                    (fun e => exists delta,
                       consulted_for_pick sm origin inventory maxDelta e.2
                       = Some delta
                       /\ ttt_compute sm (origin_depth origin) delta = [])
                    IndexError candidates [])
          as [(poi & Hpoi & Hall)|(Hraise & e & He & delta & Hc & Httt)]
    end.
    + intros acc [id p] _. cbn [snd].
      pose proof (locate_consulted sm origin inventory maxDelta p) as Hloc.
      destruct (consulted_for_pick sm origin inventory maxDelta p) as [delta|].
      * destruct (ttt_compute sm (origin_depth origin) delta) eqn:Httt.
        -- left. split; [exists delta; auto|]. rewrite Hloc; reflexivity.
        -- right. split; [intros (d & [= <-] & Hd); congruence|].
           rewrite Hloc. cbn. destruct (outsideWindow _ _ _); eauto.
      * right. split; [intros (d & [=] & _)|].
        destruct Hloc as [-> | ->]; cbn; eauto.
    + left. exists poi. split; [exact Hpoi|].
      intros e delta He Hc Httt. apply (Hall e He). exists delta. auto.
    + right. split; [exact Hraise|]. exists e, delta. auto.
  - unfold findUnpickedStations.
    change (map _ all_picks) with (represented_stations all_picks).
    set (blacklist := represented_stations all_picks).
    destruct (foldlM_cases
                (findUnpickedStations_step sm env self origin adaptive blacklist)
                (fun item => exists delta,
                   consulted_for_stream sm self origin adaptive blacklist item
                   = Some delta
                   /\ computeTravelTimes sm delta (origin_depth origin) = [])
                IndexError (inventoryIterator env) [])
      as [(pp & Hpp & Hall)|(Hraise & item & Hitem & delta & Hc & Httt)].
    + intros acc item _.
      unfold findUnpickedStations_step, consulted_for_stream. cbv zeta.
      destruct (bool_decide ((inv_network item, inv_station item) ∈ blacklist));
        [right; split; [intros (d & [=] & _) | eauto]|].
      destruct (negb _);
        [right; split; [intros (d & [=] & _) | eauto]|].
      destruct (exceeds _ adaptive);
        [right; split; [intros (d & [=] & _) | eauto]|].
      destruct (computeTravelTimes sm _ _) eqn:Httt.
      * left. split; [eexists; split; [reflexivity | exact Httt] | reflexivity].
      * right. split; [intros (d & [= <-] & Hd); congruence|].
        destruct (Pick_Find env _); [eauto|].
        destruct (dict_mem _ acc); eauto.
    + left. exists pp. split; [exact Hpp|].
      intros item delta Hitem Hc Httt. apply (Hall item Hitem). exists delta. auto.
    + right. split; [exact Hraise|]. exists item, delta. auto.
Qed.

(** A station at 102 degrees, within [maxDelta] = 105 degrees, for which
    the table of the sample earth has no entry. *)
Lemma picks_of_interest_raises_IndexError :
  picks_of_interest sample_sm sample_origin sample_inventory 105 (5 # 2)
    [("dl-APE", dl_APE); ("dl-FAR", dl_FAR); ("dl-KARP", dl_KARP)]
  = Raise IndexError.
Proof. vm_compute. reflexivity. Qed.

Lemma findUnpickedStations_raises_IndexError :
  findUnpickedStations sample_sm
    (sample_env [] [inventory_stream "APE" 20; inventory_stream "FAR" 102;
                    inventory_stream "KARP" 30])
    sample_app sample_origin (Num 105) []
  = Raise IndexError.
Proof. vm_compute. reflexivity. Qed.

Lemma empty_travel_times_raise : ~ empty_travel_times_are_passed_over.
Proof.
  intros [Hdb _].
  destruct (Hdb sample_sm sample_origin sample_inventory 105%Q (5 # 2)%Q
              [("dl-APE", dl_APE); ("dl-FAR", dl_FAR); ("dl-KARP", dl_KARP)])
    as [poi Hpoi].
  rewrite picks_of_interest_raises_IndexError in Hpoi. discriminate Hpoi.
Qed.

End OracleSpec.

(** ** More on [loadPicksForOrigin]: what it returns and how it fails *)

Module DbUtilMore.
Import PyFacts PyFactsMore Util InventoryUtil DbUtil Vocabulary DbUtilSpec.

Lemma decorate_Ok_iff (l : list Pick) :
  (exists keyed, decorate l = Ok keyed)
  <-> forall p, p ∈ l -> pick_creationTime p <> None.
Proof.
  induction l as [|p l IH]; cbn.
  - split; [intros _ p Hp; inversion Hp | eauto].
  - destruct (pick_creationTime p) as [t|] eqn:Ht.
    + split.
      * intros [keyed Hk]. apply bind_Ok in Hk as (keyed' & Hdec & _).
        intros q Hq. apply elem_of_cons in Hq as [->|Hq]; [congruence|].
        apply (proj1 IH); eauto.
      * intros Hall. destruct (proj2 IH) as [keyed Hk].
        { intros q Hq. apply Hall. right; exact Hq. }
        rewrite Hk. cbn. eauto.
    + split; [intros [keyed Hk]; discriminate|].
      intros Hall. exfalso. apply (Hall p); [left | exact Ht].
Qed.

Lemma decorate_Raise (l : list Pick) (e : exn) :
  decorate l = Raise e -> e = ValueError.
Proof.
  induction l as [|p l IH]; cbn; [discriminate|].
  destruct (pick_creationTime p); [|congruence].
  destruct (decorate l); cbn; [discriminate|].
  intros [= <-]. apply IH. reflexivity.
Qed.

Lemma pick_creationTime_missing (l : list Pick) :
  ~ (exists keyed, decorate l = Ok keyed) ->
  exists p, p ∈ l /\ pick_creationTime p = None.
Proof.
  induction l as [|p l IH]; cbn; intros Hno.
  - exfalso. apply Hno. eauto.
  - destruct (pick_creationTime p) as [t|] eqn:Ht.
    + destruct IH as (q & Hq & Hnone).
      { intros [keyed Hk]. apply Hno. rewrite Hk. cbn. eauto. }
      exists q. split; [right; exact Hq | exact Hnone].
    + exists p. split; [left | exact Ht].
Qed.

(** Sorting the groups fails exactly on a pick without creation time. *)
Lemma sort_groups_cases (groups : dict NSLC (list Pick)) :
  (exists groups', sort_groups groups = Ok groups'
     /\ forall k g p, (k, g) ∈ groups -> p ∈ g -> pick_creationTime p <> None)
  \/ (sort_groups groups = Raise ValueError
      /\ exists k g p, (k, g) ∈ groups /\ p ∈ g /\ pick_creationTime p = None).
Proof.
  induction groups as [|[k g] groups IH]; cbn.
  - left. eexists. split; [reflexivity|]. intros k g p Hin; inversion Hin.
  - unfold sorted_by_creationTime.
    destruct (decorate g) as [keyed|e] eqn:Hdec; cbn.
    + assert (Hg : forall p, p ∈ g -> pick_creationTime p <> None).
      { apply decorate_Ok_iff. eauto. }
      destruct IH as [(groups' & -> & Hall)|(-> & k' & g' & p & Hin & Hp & Hnone)];
        cbn.
      * left. eexists. split; [reflexivity|].
        intros k' g' p Hin Hp. apply elem_of_cons in Hin as [[= -> ->]|Hin];
          [apply Hg; exact Hp | exact (Hall _ _ _ Hin Hp)].
      * right. split; [reflexivity|]. exists k', g', p.
        split; [right; exact Hin | auto].
    + right. pose proof (decorate_Raise _ _ Hdec) as ->.
      split; [reflexivity|].
      destruct (pick_creationTime_missing g) as (p & Hp & Hnone).
      { intros [keyed Hk]. congruence. }
      exists k, g, p. split; [left | auto].
Qed.

Lemma picks_per_nslc_elem (d : dict string Pick) (p : Pick) :
  (exists k g, (k, g) ∈ picks_per_nslc d /\ p ∈ g) <-> p ∈ dict_values d.
Proof.
  split.
  - intros (k & g & Hin & Hp).
    apply (dict_elem_get _ _ _ (picks_per_nslc_keys d)) in Hin.
    rewrite picks_per_nslc_get in Hin. unfold nonempty in Hin.
    destruct (channel_group k (dict_values d)) as [|q l] eqn:Hg; [discriminate|].
    injection Hin as <-. rewrite <- Hg in Hp.
    apply list_elem_of_filter in Hp as [_ Hp]. exact Hp.
  - intros Hp. exists (nslc p), (channel_group (nslc p) (dict_values d)).
    assert (Hin : p ∈ channel_group (nslc p) (dict_values d)).
    { apply list_elem_of_filter. split; [reflexivity | exact Hp]. }
    split; [|exact Hin].
    apply dict_get_Some_elem. rewrite picks_per_nslc_get. unfold nonempty.
    destruct (channel_group (nslc p) (dict_values d)); [inversion Hin | reflexivity].
Qed.

Section failures.
Variable sm : Seismology.
Variable manualArrival : Arrival -> bool.
Variable origin : Origin.
Variable inventory : Inventory.
Variable allowedAuthorIDs : list string.
Variables maxDelta maxResidual : Q.
Variable query : Query.

Local Abbreviation locate := (locate sm origin inventory maxDelta).
Local Abbreviation picks_of_interest :=
  (picks_of_interest sm origin inventory maxDelta maxResidual).
Local Abbreviation candidate_groups :=
  (candidate_groups sm origin inventory allowedAuthorIDs maxDelta maxResidual
                    query).
Local Abbreviation retained_arrivals :=
  (retained_arrivals manualArrival origin query).
Local Abbreviation loadPicksForOrigin :=
  (loadPicksForOrigin sm manualArrival origin inventory allowedAuthorIDs
                      maxDelta maxResidual query).
Local Abbreviation picks := (loaded_picks origin allowedAuthorIDs query).

Lemma locate_Raise (k : NSLC) (p : Pick) (e : exn) :
  locate k p = Raise e -> e = IndexError.
Proof.
  unfold DbUtil.locate. destruct k as [[[n s] l] c]. cbv zeta.
  destruct (dict_get (n, s) _); [|discriminate].
  destruct (Qltb maxDelta _); [discriminate|].
  destruct (ttt_compute sm _ _); [congruence | discriminate].
Qed.

Lemma locate_within (k : NSLC) (p : Pick) (delta dt : Q) :
  locate k p = Ok (Residual delta dt) -> (delta <= maxDelta)%Q.
Proof.
  unfold DbUtil.locate. destruct k as [[[n s] l] c]. cbv zeta.
  destruct (dict_get (n, s) _); [|discriminate].
  destruct (Qltb maxDelta _) eqn:Hlt; [discriminate|].
  destruct (ttt_compute sm _ _); [discriminate|].
  intros [= <- _]. apply Qltb_ge. exact Hlt.
Qed.

Lemma picks_of_interest_Raise (d : dict string Pick) (e : exn) :
  picks_of_interest d = Raise e -> e = IndexError.
Proof.
  unfold DbUtil.picks_of_interest. intros Hrun.
  apply foldlM_Raise in Hrun as (acc & [id p] & _ & Hbody).
  destruct (locate (nslc p) p) as [[| |delta dt]|e'] eqn:Hloc; cbn in Hbody;
    try discriminate.
  - destruct (outsideWindow 4 maxResidual dt); discriminate.
  - injection Hbody as <-. exact (locate_Raise _ _ _ Hloc).
Qed.

(** X1.  The candidate stage fails on a pick of interest without creation
    time, also when the pick is alone on its channel: [sorted] reads the
    key of every pick. *)
Theorem candidate_groups_need_creationTime (poi : dict string Pick) :
  picks_of_interest picks = Ok poi ->
  (candidate_groups = Raise ValueError
   <-> exists e, e ∈ poi /\ pick_creationTime (snd e) = None)
  /\ ((exists groups, candidate_groups = Ok groups)
      <-> forall e, e ∈ poi -> pick_creationTime (snd e) <> None).
Proof.
  intros Hpoi. unfold DbUtil.candidate_groups.
  change (DbUtil.picks_of_interest sm origin inventory maxDelta maxResidual _)
    with (picks_of_interest picks).
  rewrite Hpoi. cbn.
  assert (Hvalues : forall p, p ∈ dict_values poi <-> exists e, e ∈ poi /\ e.2 = p).
  { intros p. unfold dict_values. rewrite list_elem_of_fmap.
    split; intros (e & H1 & H2); exists e; auto. }
  destruct (sort_groups_cases (picks_per_nslc poi))
    as [(groups & Hs & Hall)|(Hs & k & g & p & Hin & Hp & Hnone)]; rewrite Hs.
  - assert (Hok : forall e, e ∈ poi -> pick_creationTime e.2 <> None).
    { intros e He.
      destruct (proj2 (picks_per_nslc_elem poi e.2)) as (k & g & Hin & Hp).
      { apply Hvalues. eauto. }
      exact (Hall _ _ _ Hin Hp). }
    split; split.
    + discriminate.
    + intros (e & He & Hnone). exfalso. exact (Hok e He Hnone).
    + intros _. exact Hok.
    + eauto.
  - assert (Hbad : exists e, e ∈ poi /\ pick_creationTime e.2 = None).
    { destruct (proj1 (Hvalues p)) as (e & He & <-); [|eauto].
      apply picks_per_nslc_elem. eauto. }
    split; split.
    + intros _. exact Hbad.
    + reflexivity.
    + intros [groups Hg]. discriminate.
    + intros Hall. destruct Hbad as (e & He & Hmiss).
      exfalso. exact (Hall e He Hmiss).
Qed.

Lemma associated_picks_value (oid id : string) (p : Pick) :
  dict_get id (associated_picks query oid) = Some p ->
  pick_publicID p = id /\ ObjPick p ∈ getPicks_origin query oid.
Proof.
  unfold associated_picks. revert id p.
  apply (foldl_invariant
           (fun d => forall id p, dict_get id d = Some p ->
                       pick_publicID p = id
                       /\ ObjPick p ∈ getPicks_origin query oid)).
  - intros d obj Hobj Hd id p. destruct obj as [pick|]; cbn; [|apply Hd].
    rewrite dict_get_set.
    destruct (decide (id = pick_publicID pick)) as [->|Hne]; [|apply Hd].
    intros [= <-]. split; [reflexivity | exact Hobj].
  - intros id p Hget. discriminate Hget.
Qed.

Lemma associated_picks_None (oid id : string) :
  dict_get id (associated_picks query oid) = None
  <-> forall p, ObjPick p ∈ getPicks_origin query oid -> pick_publicID p <> id.
Proof.
  unfold associated_picks.
  generalize (getPicks_origin query oid); intros objs.
  induction objs as [|obj objs IH] using rev_ind.
  - split; [intros _ p Hp; inversion Hp | reflexivity].
  - rewrite foldl_app. cbn [foldl].
    destruct obj as [pick|]; cbn.
    + rewrite dict_get_set.
      destruct (decide (id = pick_publicID pick)) as [->|Hne].
      * split; [discriminate|]. intros Hall. exfalso.
        apply (Hall pick); [apply elem_of_app; right; left | reflexivity].
      * rewrite IH. split.
        -- intros Hall p Hp. apply elem_of_app in Hp as [Hp|Hp]; [auto|].
           apply list_elem_of_singleton in Hp. injection Hp as ->. congruence.
        -- intros Hall p Hp. apply Hall. apply elem_of_app; left; exact Hp.
    + rewrite IH. split.
      * intros Hall p Hp. apply elem_of_app in Hp as [Hp|Hp]; [auto|].
        apply list_elem_of_singleton in Hp. discriminate Hp.
      * intros Hall p Hp. apply Hall. apply elem_of_app; left; exact Hp.
Qed.

(** X2.  With [keepManualPicks] the arrivals that are retained must each
    reference a pick that the database returns for the origin:
    otherwise [associated_picks[pickID]] raises [KeyError] (line 222). *)
Theorem retained_arrivals_need_their_picks :
  let oid := origin_publicID origin in
  let retained := filter (fun arr => manualArrival arr = true)
                         (loadArrivals query oid) in
  (exists r, retained_arrivals true = Ok r
     /\ forall arr, arr ∈ retained ->
          exists p, ObjPick p ∈ getPicks_origin query oid
                    /\ pick_publicID p = arr_pickID arr)
  \/ (retained_arrivals true = Raise KeyError
      /\ exists arr, arr ∈ retained
           /\ forall p, ObjPick p ∈ getPicks_origin query oid ->
                        pick_publicID p <> arr_pickID arr).
Proof.
  intros oid retained. unfold DbUtil.retained_arrivals.
  change (origin_arrivals (clearAutomaticArrivals manualArrival _))
    with retained.
  change (origin_publicID (setArrivals _ _)) with oid.
  unfold manual_arrivals.
  match goal with
  | |- context [foldlM ?body ([], []) retained] =>
      destruct (foldlM_cases body
                  (fun arr => dict_get (arr_pickID arr)
                                (associated_picks query oid) = None)
                  KeyError retained ([], []))
        as [([mp spl] & Hrun & Hall)|(Hrun & arr & Harr & Hnone)]
  end.
  - intros [mp spl] arr _. cbv zeta.
    destruct (dict_get (arr_pickID arr) (associated_picks query oid)) eqn:Hget.
    + right. split; [discriminate | eauto].
    + left. auto.
  - left. rewrite Hrun. cbn. eexists. split; [reflexivity|].
    intros arr Harr. specialize (Hall arr Harr).
    destruct (dict_get (arr_pickID arr) (associated_picks query oid))
      as [p|] eqn:Hget; [|congruence].
    exists p. apply associated_picks_value in Hget as [H1 H2]. auto.
  - right. rewrite Hrun. cbn. split; [reflexivity|].
    exists arr. split; [exact Harr|]. apply associated_picks_None. exact Hnone.
Qed.

Lemma retained_arrivals_Raise (e : exn) :
  retained_arrivals true = Raise e -> e = KeyError.
Proof.
  unfold DbUtil.retained_arrivals, manual_arrivals.
  match goal with
  | |- context [foldlM ?body ?s ?l] =>
      destruct (foldlM body s l) as [[mp spl]|e'] eqn:Hrun
  end; cbn; [discriminate|].
  intros [= <-].
  apply foldlM_Raise in Hrun as ([mp spl] & arr & _ & Hbody). cbv zeta in Hbody.
  destruct (dict_get _ _); [discriminate | congruence].
Qed.

(** A representative handed to the association loop has a residual: the
    second travel-time computation repeats the first. *)
Lemma representative_located (groups : dict NSLC (list Pick)) (k : NSLC)
    (rep : Pick) (g : list Pick) :
  candidate_groups = Ok groups -> (k, rep :: g) ∈ groups ->
  exists delta dt, locate k rep = Ok (Residual delta dt).
Proof.
  intros Hgroups Hin.
  pose proof (proj1 (candidate_groups_members sm origin inventory
                allowedAuthorIDs maxDelta maxResidual query _ _ _ rep
                Hgroups Hin) (list_elem_of_here _ _)) as [Hk He].
  apply list_elem_of_filter in He as [Hint _].
  apply interesting_true in Hint as (delta & dt & Hloc & _).
  cbn [snd] in Hloc. rewrite Hk in Hloc. eauto.
Qed.

(** X3.  With [keepManualPicks] an exception of [loadPicksForOrigin] comes
    from the candidate stage ([IndexError] of [ttimes[0]], [ValueError]
    of a missing creation time) or is the [KeyError] of line 222; the
    association loop itself never raises. *)
Theorem loadPicksForOrigin_exceptions (e : exn) :
  loadPicksForOrigin true = Raise e ->
  (candidate_groups = Raise e /\ (e = IndexError \/ e = ValueError))
  \/ (e = KeyError
      /\ retained_arrivals true = Raise KeyError
      /\ exists groups, candidate_groups = Ok groups).
Proof.
  unfold DbUtil.loadPicksForOrigin.
  destruct candidate_groups as [groups|e0] eqn:Hgroups; cbn [mbind result_bind].
  - destruct (retained_arrivals true) as [[[kept picks0] ospl]|e1] eqn:Hkept;
      cbn [mbind result_bind].
    + intros Hloop. exfalso.
      assert (Hspl : exists spl, ospl = Some spl).
      { unfold DbUtil.retained_arrivals in Hkept.
        apply bind_Ok in Hkept as ([mp spl] & _ & [= _ _ <-]). eauto. }
      destruct Hspl as [spl ->].
      destruct (foldlM_total
                  (associate_step sm origin inventory maxDelta maxResidual
                                  (Some spl))
                  groups (origin_arrivals kept, picks0)) as [[arrs ps] Hok].
      { intros st [k g] Hin.
        destruct (candidate_groups_nonempty sm origin inventory
                    allowedAuthorIDs maxDelta maxResidual query _ _ _
                    Hgroups Hin) as (rep & rest & ->).
        destruct (representative_located _ _ _ _ Hgroups Hin)
          as (delta & dt & Hloc).
        unfold associate_step. destruct (bool_decide _); [eauto|].
        change (DbUtil.locate sm origin inventory maxDelta k rep)
          with (locate k rep).
        rewrite Hloc. cbn. destruct (outsideWindow 2 maxResidual dt); eauto. }
      rewrite Hok in Hloop. discriminate Hloop.
    + intros [= <-]. right.
      pose proof (retained_arrivals_Raise _ Hkept) as ->. eauto.
  - intros [= <-]. left. split; [reflexivity|].
    unfold DbUtil.candidate_groups in Hgroups.
    destruct (DbUtil.picks_of_interest sm origin inventory maxDelta maxResidual _)
      as [poi|e1] eqn:Hpoi; cbn in Hgroups.
    + destruct (sort_groups_cases (picks_per_nslc poi))
        as [(g' & Hs & _)|(Hs & _)]; rewrite Hs in Hgroups;
        [discriminate | injection Hgroups as <-; auto].
    + injection Hgroups as <-. left. exact (picks_of_interest_Raise _ _ Hpoi).
Qed.

(** The association loop in the order of the groups: the groups for which
    an arrival is appended, with representative and distance. *)
Lemma associate_loop_in_order (spl : list (WaveformStreamID * string))
    (groups : dict NSLC (list Pick)) (arrs0 arrs : list Arrival)
    (picks0 picks' : list Pick) :
  foldlM (associate_step sm origin inventory maxDelta maxResidual (Some spl))
         (arrs0, picks0) groups = Ok (arrs, picks') ->
  exists accepted : list (NSLC * Pick * Q),
    ((fun a => fst (fst a)) <$> accepted) `sublist_of` dict_keys groups
    /\ arrs = arrs0 ++ ((fun a => automatic_arrival maxDelta (snd (fst a)) (snd a))
                         <$> accepted)
    /\ picks' = picks0 ++ ((fun a => snd (fst a)) <$> accepted)
    /\ Forall (fun a => exists g dt,
                  (fst (fst a), snd (fst a) :: g) ∈ groups
                  /\ locate (fst (fst a)) (snd (fst a)) = Ok (Residual (snd a) dt))
              accepted.
Proof.
  revert arrs0 picks0.
  induction groups as [|[k g] groups IH]; intros arrs0 picks0 Hrun.
  - cbn in Hrun. injection Hrun as <- <-. exists [].
    cbn. rewrite !app_nil_r. repeat split; constructor.
  - cbn [foldlM] in Hrun.
    apply bind_Ok in Hrun as ([arrs1 picks1] & Hstep & Hrest).
    destruct (IH _ _ Hrest) as (accepted & Hsub & -> & -> & Hacc).
    assert (Hweaken : Forall (fun a => exists g0 dt,
                  (a.1.1, a.1.2 :: g0) ∈ (k, g) :: groups
                  /\ locate a.1.1 a.1.2 = Ok (Residual a.2 dt)) accepted).
    { eapply Forall_impl; [exact Hacc|].
      intros a (g0 & dt & Hin & Hloc). exists g0, dt.
      split; [right; exact Hin | exact Hloc]. }
    assert (Hskip : (arrs1, picks1) = (arrs0, picks0) ->
              exists accepted0 : list (NSLC * Pick * Q),
                ((fun a => a.1.1) <$> accepted0)
                  `sublist_of` dict_keys ((k, g) :: groups)
                /\ arrs1 ++ ((fun a => automatic_arrival maxDelta a.1.2 a.2)
                               <$> accepted)
                   = arrs0 ++ ((fun a => automatic_arrival maxDelta a.1.2 a.2)
                                 <$> accepted0)
                /\ picks1 ++ ((fun a => a.1.2) <$> accepted)
                   = picks0 ++ ((fun a => a.1.2) <$> accepted0)
                /\ Forall (fun a => exists g0 dt,
                      (a.1.1, a.1.2 :: g0) ∈ (k, g) :: groups
                      /\ locate a.1.1 a.1.2 = Ok (Residual a.2 dt)) accepted0).
    { intros [= -> ->]. exists accepted. repeat split; [|exact Hweaken].
      apply sublist_cons. exact Hsub. }
    unfold DbUtil.associate_step in Hstep.
    destruct g as [|pick g]; [discriminate|].
    destruct (bool_decide ((pick_waveformID pick, "P") ∈ spl)).
    { injection Hstep as <- <-. apply Hskip; reflexivity. }
    destruct (DbUtil.locate sm origin inventory maxDelta k pick)
      as [[| |delta dt]|e] eqn:Hloc; cbn in Hstep; try discriminate.
    + injection Hstep as <- <-. apply Hskip; reflexivity.
    + injection Hstep as <- <-. apply Hskip; reflexivity.
    + destruct (outsideWindow 2 maxResidual dt).
      { injection Hstep as <- <-. apply Hskip; reflexivity. }
      injection Hstep as <- <-.
      exists ((k, pick, delta) :: accepted). cbn.
      rewrite <- !app_assoc. repeat split.
      * apply sublist_skip. exact Hsub.
      * constructor; [|exact Hweaken].
        exists g, dt. cbn. split; [left | exact Hloc].
Qed.

(** What [loadPicksForOrigin] returns, in the order of the channel
    groups. *)
Lemma loadPicksForOrigin_in_order (keepManualPicks : bool) (origin' : Origin)
    (picks' : list Pick) :
  loadPicksForOrigin keepManualPicks = Ok (origin', picks') ->
  exists groups kept picks0 spl (accepted : list (NSLC * Pick * Q)),
    candidate_groups = Ok groups
    /\ retained_arrivals keepManualPicks = Ok (kept, picks0, spl)
    /\ origin' = setArrivals kept
                   (origin_arrivals kept
                      ++ ((fun a => automatic_arrival maxDelta (snd (fst a)) (snd a))
                            <$> accepted))
    /\ picks' = picks0 ++ ((fun a => snd (fst a)) <$> accepted)
    /\ ((fun a => fst (fst a)) <$> accepted) `sublist_of` dict_keys groups
    /\ Forall (fun a => exists g dt,
                  (fst (fst a), snd (fst a) :: g) ∈ groups
                  /\ locate (fst (fst a)) (snd (fst a)) = Ok (Residual (snd a) dt))
              accepted.
Proof.
  unfold DbUtil.loadPicksForOrigin. intros Hrun.
  apply bind_Ok in Hrun as (groups & Hgroups & Hrun).
  apply bind_Ok in Hrun as ([[kept picks0] ospl] & Hkept & Hrun).
  apply bind_Ok in Hrun as ([arrs picks1] & Hloop & Hret).
  injection Hret as <- <-.
  exists groups, kept, picks0, ospl.
  destruct ospl as [spl|].
  - destruct (associate_loop_in_order _ _ _ _ _ _ Hloop)
      as (accepted & Hsub & -> & -> & Hacc).
    exists accepted. repeat split; assumption.
  - destruct groups as [|[k [|rep g]] groups]; cbn in Hloop; try discriminate.
    injection Hloop as <- <-. exists []. cbn. rewrite !app_nil_r.
    repeat split; try assumption; constructor.
Qed.

(** X4.  Every arrival that [loadPicksForOrigin] appends is a "P" arrival of
    weight 1 whose time is used and whose distance is not set: the test
    [delta <= maxDelta] of line 277 can no longer fail after line 255.
    Nothing but the arrival list of the origin is changed. *)
Theorem appended_arrivals_are_used_P_arrivals (keepManualPicks : bool)
    (origin' : Origin) (picks' : list Pick) :
  loadPicksForOrigin keepManualPicks = Ok (origin', picks') ->
  clearAllArrivals origin' = clearAllArrivals origin
  /\ exists kept picks0 spl appended,
       retained_arrivals keepManualPicks = Ok (kept, picks0, spl)
       /\ origin_arrivals origin' = origin_arrivals kept ++ appended
       /\ length picks' = (length picks0 + length appended)%nat
       /\ Forall (fun arr => arr_phase arr = "P"
                             /\ arr_weight arr = 1%Q
                             /\ arr_timeUsed arr = Some true
                             /\ arr_distance arr = None)
                 appended.
Proof.
  intros Hrun.
  destruct (loadPicksForOrigin_in_order _ _ _ Hrun)
    as (groups & kept & picks0 & spl & accepted & _ & Hkept & -> & -> & _ & Hacc).
  split.
  - unfold DbUtil.retained_arrivals in Hkept. destruct keepManualPicks.
    + apply bind_Ok in Hkept as ([mp spl'] & _ & [= <- _ _]). reflexivity.
    + injection Hkept as <- _ _. reflexivity.
  - exists kept, picks0, spl. eexists. split; [exact Hkept|].
    split; [reflexivity|]. split.
    + rewrite length_app, !length_fmap. reflexivity.
    + apply Forall_fmap. eapply Forall_impl; [exact Hacc|].
      intros a (g & dt & _ & Hloc). cbn. repeat split.
      apply locate_within in Hloc. f_equal. apply Qle_bool_iff. exact Hloc.
Qed.

(** X5.  At most one arrival is appended per channel: the picks appended to
    the returned list belong to pairwise different channels, and the
    appended arrivals reference them in the same order. *)
Theorem one_appended_arrival_per_channel (keepManualPicks : bool)
    (origin' : Origin) (picks' : list Pick) :
  loadPicksForOrigin keepManualPicks = Ok (origin', picks') ->
  exists kept picks0 spl accepted,
    retained_arrivals keepManualPicks = Ok (kept, picks0, spl)
    /\ picks' = picks0 ++ accepted
    /\ arr_pickID <$> drop (length (origin_arrivals kept)) (origin_arrivals origin')
       = pick_publicID <$> accepted
    /\ NoDup (nslc <$> accepted).
Proof.
  intros Hrun.
  destruct (loadPicksForOrigin_in_order _ _ _ Hrun)
    as (groups & kept & picks0 & spl & accepted & Hgroups & Hkept & -> & ->
        & Hsub & Hacc).
  exists kept, picks0, spl, ((fun a => a.1.2) <$> accepted).
  split; [exact Hkept|]. split; [reflexivity|]. split.
  - cbn. rewrite drop_app_length, <- !list_fmap_compose. reflexivity.
  - destruct (candidate_groups_spec sm origin inventory allowedAuthorIDs
                maxDelta maxResidual query _ Hgroups) as (_ & Hnd & _).
    pose proof (sublist_NoDup _ _ Hnd Hsub) as Hnd'.
    assert (Heq : nslc <$> ((fun a => a.1.2) <$> accepted)
                  = (fun a => a.1.1) <$> accepted).
    { rewrite <- list_fmap_compose. apply Forall_fmap_ext_1.
      eapply Forall_impl; [exact Hacc|].
      intros a (g & dt & Hin & _). cbn.
      exact (proj1 (proj1 (candidate_groups_members sm origin inventory
               allowedAuthorIDs maxDelta maxResidual query _ _ _ a.1.2
               Hgroups Hin) (list_elem_of_here _ _))). }
    rewrite Heq. exact Hnd'.
Qed.

Lemma manual_arrivals_picks (associated : dict string Pick)
    (arrs : list Arrival) (mp0 mp : dict string Pick)
    (spl0 spl : list (WaveformStreamID * string)) :
  (forall id p, dict_get id associated = Some p -> pick_publicID p = id) ->
  foldlM (fun '((manual_picks, stream_phase_list)
                 : dict string Pick * list (WaveformStreamID * string)) arr =>
            let pickID := arr_pickID arr in
            match dict_get pickID associated with
            | None => Raise KeyError
            | Some pick =>
                Ok (dict_set pickID pick manual_picks,
                    stream_phase_list ++ [(pick_waveformID pick, arr_phase arr)])
            end) (mp0, spl0) arrs = Ok (mp, spl) ->
  (forall id, dict_mem id mp0 = true -> dict_mem id mp = true)
  /\ (forall id p, dict_get id mp = Some p ->
         dict_get id mp0 = Some p \/ pick_publicID p = id)
  /\ (forall m, m ∈ arrs -> dict_mem (arr_pickID m) mp = true).
Proof.
  intros Hassoc. revert mp0 spl0.
  induction arrs as [|arr arrs IH]; intros mp0 spl0 Hrun.
  - cbn in Hrun. injection Hrun as <- <-.
    repeat split; auto. intros m Hm; inversion Hm.
  - cbn [foldlM] in Hrun.
    apply bind_Ok in Hrun as ([mp1 spl1] & Hstep & Hrest). cbn in Hstep.
    destruct (dict_get (arr_pickID arr) associated) as [pick|] eqn:Hget;
      [|discriminate].
    injection Hstep as <- <-.
    destruct (IH _ _ Hrest) as (Hgrow & Hvalues & Hmem).
    split; [|split].
    + intros id Hid. apply Hgrow. rewrite dict_mem_set, Hid. apply orb_true_r.
    + intros id p Hp. destruct (Hvalues id p Hp) as [Hold|Hnew]; [|auto].
      rewrite dict_get_set in Hold.
      destruct (decide (id = arr_pickID arr)) as [->|Hne]; [|auto].
      injection Hold as <-. right. exact (Hassoc _ _ Hget).
    + intros m Hm. apply elem_of_cons in Hm as [->|Hm]; [|auto].
      apply Hgrow. rewrite dict_mem_set, bool_decide_eq_true_2 by reflexivity.
      reflexivity.
Qed.

(** X6.  Every arrival of the returned origin references a pick of the
    returned list. *)
Theorem returned_arrivals_have_their_picks (keepManualPicks : bool)
    (origin' : Origin) (picks' : list Pick) :
  loadPicksForOrigin keepManualPicks = Ok (origin', picks') ->
  forall arr, arr ∈ origin_arrivals origin' ->
              exists p, p ∈ picks' /\ pick_publicID p = arr_pickID arr.
Proof.
  intros Hrun arr Harr.
  destruct (loadPicksForOrigin_in_order _ _ _ Hrun)
    as (groups & kept & picks0 & spl & accepted & _ & Hkept & -> & -> & _ & _).
  cbn in Harr. apply elem_of_app in Harr as [Harr|Harr].
  - unfold DbUtil.retained_arrivals in Hkept. destruct keepManualPicks.
    + apply bind_Ok in Hkept as ([mp spl'] & Hmanual & [= <- <- _]).
      destruct (manual_arrivals_picks _ _ [] mp [] spl'
                  (fun id p H => proj1 (associated_picks_value _ id p H))
                  Hmanual) as (_ & Hvalues & Hmem).
      specialize (Hmem arr Harr). unfold dict_mem in Hmem.
      destruct (dict_get (arr_pickID arr) mp) as [p|] eqn:Hget; [|discriminate].
      exists p. split.
      * apply elem_of_app; left.
        apply (list_elem_of_fmap_2 snd _ _ (dict_get_Some_elem _ _ _ Hget)).
      * destruct (Hvalues _ _ Hget) as [Hnil|Hid]; [discriminate | exact Hid].
    + injection Hkept as <- _ _. inversion Harr.
  - apply list_elem_of_fmap in Harr as (a & -> & Ha).
    exists a.1.2. split; [|reflexivity].
    apply elem_of_app; right.
    apply (list_elem_of_fmap_2 (fun a : NSLC * Pick * Q => a.1.2) _ _ Ha).
Qed.

(** X7.  The picks that [loadPicksForOrigin] appends after the manual picks
    were delivered by the database for the 20 minutes that start at the
    origin time, carry an author of the whitelist and have a station in
    the inventory that is not beyond [maxDelta]; the whitelist is not
    applied to the manual picks that are kept. *)
Theorem appended_picks_are_allowed (keepManualPicks : bool)
    (origin' : Origin) (picks' : list Pick) :
  loadPicksForOrigin keepManualPicks = Ok (origin', picks') ->
  exists kept picks0 spl accepted,
    retained_arrivals keepManualPicks = Ok (kept, picks0, spl)
    /\ picks' = picks0 ++ accepted
    /\ Forall (fun p => allowedAuthor allowedAuthorIDs p = true
                        /\ ObjPick p ∈ delivered origin query
                        /\ exists delta dt,
                             locate (nslc p) p = Ok (Residual delta dt)
                             /\ (delta <= maxDelta)%Q)
              accepted.
Proof.
  intros Hrun.
  destruct (loadPicksForOrigin_in_order _ _ _ Hrun)
    as (groups & kept & picks0 & spl & accepted & Hgroups & Hkept & _ & ->
        & _ & Hacc).
  exists kept, picks0, spl, ((fun a => a.1.2) <$> accepted).
  split; [exact Hkept|]. split; [reflexivity|].
  apply Forall_fmap. eapply Forall_impl; [exact Hacc|].
  intros [[k p] delta] (g & dt & Hin & Hloc). unfold compose.
  cbn beta. cbn [fst snd] in *.
  pose proof (proj1 (candidate_groups_members sm origin inventory
                allowedAuthorIDs maxDelta maxResidual query _ _ _ p
                Hgroups Hin) (list_elem_of_here _ _)) as [Hk He].
  apply list_elem_of_filter in He as [_ He].
  apply loadPicksForTimespan_delivered in He as [Hdel Hallowed].
  split; [exact Hallowed|]. split; [exact Hdel|].
  exists delta, dt. rewrite Hk. split; [exact Hloc|].
  exact (locate_within _ _ _ _ Hloc).
Qed.

End failures.

(** *** On the sample catalogs *)

Section samples.
Import Sample.

Local Abbreviation run q keep :=
  (loadPicksForOrigin sample_sm sample_manualArrival sample_origin
     sample_inventory sample_authors 105 (5 # 2) q keep).
Local Abbreviation groups_of q :=
  (candidate_groups sample_sm sample_origin sample_inventory sample_authors
     105 (5 # 2) q).

Lemma candidate_groups_need_creationTime_witness :
  groups_of undated_catalog = Raise ValueError.
Proof.
  eapply (proj2 (proj1 (candidate_groups_need_creationTime sample_sm
                          sample_origin sample_inventory sample_authors 105
                          (5 # 2) undated_catalog _ _))).
  exists ("dl-KARP-undated", dl_KARP_undated). split; [|reflexivity].
  vm_compute. right. left.
  Unshelve. vm_compute. reflexivity.
Defined.

Lemma orphan_arrival_raises_KeyError :
  run orphan_catalog true = Raise KeyError.
Proof. vm_compute. reflexivity. Qed.

Lemma loadPicksForOrigin_exceptions_witness :
  (groups_of far_catalog = Raise IndexError
   /\ (IndexError = IndexError \/ IndexError = ValueError))
  \/ (IndexError = KeyError
      /\ retained_arrivals sample_manualArrival sample_origin far_catalog true
         = Raise KeyError
      /\ exists groups, groups_of far_catalog = Ok groups).
Proof.
  apply (loadPicksForOrigin_exceptions sample_sm sample_manualArrival
           sample_origin sample_inventory sample_authors 105 (5 # 2)
           far_catalog IndexError).
  vm_compute. reflexivity.
Defined.

Lemma appended_arrivals_are_used_P_arrivals_witness :
  exists origin' picks',
    run sample_catalog true = Ok (origin', picks')
    /\ clearAllArrivals origin' = clearAllArrivals sample_origin
    /\ exists kept picks0 spl appended,
         retained_arrivals sample_manualArrival sample_origin sample_catalog true
         = Ok (kept, picks0, spl)
         /\ origin_arrivals origin' = origin_arrivals kept ++ appended
         /\ length picks' = (length picks0 + length appended)%nat
         /\ Forall (fun arr => arr_phase arr = "P"
                               /\ arr_weight arr = 1%Q
                               /\ arr_timeUsed arr = Some true
                               /\ arr_distance arr = None)
                   appended.
Proof.
  do 2 eexists. split; [vm_compute; reflexivity|].
  apply (appended_arrivals_are_used_P_arrivals sample_sm sample_manualArrival
           sample_origin sample_inventory sample_authors 105 (5 # 2)
           sample_catalog true).
  vm_compute. reflexivity.
Defined.

Lemma one_appended_arrival_per_channel_witness :
  exists origin' picks' kept picks0 spl accepted,
    run (sample_query sample_delivered [] []) true = Ok (origin', picks')
    /\ retained_arrivals sample_manualArrival sample_origin
         (sample_query sample_delivered [] []) true
       = Ok (kept, picks0, spl)
    /\ picks' = picks0 ++ accepted
    /\ arr_pickID <$> drop (length (origin_arrivals kept))
                            (origin_arrivals origin')
       = pick_publicID <$> accepted
    /\ NoDup (nslc <$> accepted).
Proof.
  do 2 eexists.
  destruct (one_appended_arrival_per_channel sample_sm sample_manualArrival
              sample_origin sample_inventory sample_authors 105 (5 # 2)
              (sample_query sample_delivered [] []) true _ _ eq_refl)
    as (kept & picks0 & spl & accepted & H1 & H2 & H3 & H4).
  exists kept, picks0, spl, accepted. split; [reflexivity|]. auto.
Defined.

Lemma returned_arrivals_have_their_picks_witness :
  exists origin' picks',
    run sample_catalog true = Ok (origin', picks')
    /\ forall arr, arr ∈ origin_arrivals origin' ->
                   exists p, p ∈ picks' /\ pick_publicID p = arr_pickID arr.
Proof.
  do 2 eexists. split; [vm_compute; reflexivity|].
  apply (returned_arrivals_have_their_picks sample_sm sample_manualArrival
           sample_origin sample_inventory sample_authors 105 (5 # 2)
           sample_catalog true).
  vm_compute. reflexivity.
Defined.

Lemma appended_picks_are_allowed_witness :
  exists origin' picks' kept picks0 spl accepted,
    loadPicksForOrigin sample_sm sample_manualArrival sample_origin
      sample_inventory sample_authors 40 (5 # 2) sample_catalog true
    = Ok (origin', picks')
    /\ retained_arrivals sample_manualArrival sample_origin sample_catalog true
       = Ok (kept, picks0, spl)
    /\ picks' = picks0 ++ accepted
    /\ Forall (fun p => allowedAuthor sample_authors p = true
                        /\ ObjPick p ∈ delivered sample_origin sample_catalog
                        /\ exists delta dt,
                             locate sample_sm sample_origin sample_inventory 40
                                    (nslc p) p
                             = Ok (Residual delta dt)
                             /\ (delta <= 40)%Q)
              accepted.
Proof.
  do 2 eexists.
  assert (Hrun : loadPicksForOrigin sample_sm sample_manualArrival sample_origin
                   sample_inventory sample_authors 40 (5 # 2) sample_catalog true
                 = Ok _) by (vm_compute; reflexivity).
  destruct (appended_picks_are_allowed sample_sm sample_manualArrival
              sample_origin sample_inventory sample_authors 40 (5 # 2)
              sample_catalog true _ _ Hrun)
    as (kept & picks0 & spl & accepted & H1 & H2 & H3).
  exists kept, picks0, spl, accepted. auto.
Defined.

End samples.

End DbUtilMore.

(** ** [loadPicksForTimespan] with amplitudes *)

Module DbUtilAmplitudesSpec.
Import PyFacts PyFactsMore Util DbUtil DbUtilAmplitudes Vocabulary.

Local Abbreviation as_pick :=
  (fun e : string * Pick => (fst e, APick (snd e))).

Lemma dict_set_as_pick (k : string) (p : Pick) (d : dict string Pick) :
  dict_set k (APick p) (as_pick <$> d) = as_pick <$> dict_set k p d.
Proof.
  induction d as [|[k' p'] d IH]; [reflexivity|].
  cbn [fmap list_fmap dict_set fst snd].
  destruct (decide (k = k')); [reflexivity|].
  cbn [fmap list_fmap fst snd]. f_equal. exact IH.
Qed.

(** Without amplitudes the function returns the picks that
    [loadPicksForOrigin] works on. *)
Lemma loadPicksForTimespan_picks (query : AmplitudeQuery) (t0 t1 : Q)
    (allowedAuthorIDs : list string) :
  loadPicksForTimespan query t0 t1 allowedAuthorIDs false
  = as_pick <$> DbUtil.loadPicksForTimespan (pick_query query) t0 t1
                  allowedAuthorIDs.
Proof.
  unfold loadPicksForTimespan, DbUtil.loadPicksForTimespan. cbn [negb].
  generalize (getPicks_timespan (pick_query query) t0 t1). intros objs.
  change (@nil (string * PickOrAmplitude)) with (as_pick <$> @nil (string * Pick)).
  generalize (@nil (string * Pick)). induction objs as [|obj objs IH]; intros acc;
    [reflexivity|].
  cbn [foldl]. rewrite <- IH. f_equal.
  destruct (Pick_Cast obj) as [pick|]; [|reflexivity].
  destruct (allowedAuthor allowedAuthorIDs pick); [|reflexivity].
  apply dict_set_as_pick.
Qed.

Local Abbreviation amplitude_step :=
  (fun (objects : dict string PickOrAmplitude) (obj : option Amplitude) =>
     match obj with
     | Some ampl =>
         if decide (ampl_pickID ampl = "") then objects
         else if negb (dict_mem (ampl_pickID ampl) objects) then objects
              else dict_set (ampl_publicID ampl) (AnAmplitude ampl) objects
     | None => objects
     end).

(** An entry of the dictionary that stands where the pick entry [e]
    stood: the pick itself, or an amplitude whose public ID is the key. *)
Local Abbreviation in_place_of :=
  (fun e e' : string * PickOrAmplitude =>
     fst e' = fst e
     /\ (snd e' = snd e
         \/ exists a, snd e' = AnAmplitude a /\ ampl_publicID a = fst e)).

Local Abbreviation holds_amplitude :=
  (fun e : string * PickOrAmplitude => exists a, snd e = AnAmplitude a).

Lemma dict_set_app {V : Type} (k : string) (v : V) (d1 d2 : dict string V) :
  dict_set k v (d1 ++ d2)
  = if dict_mem k d1 then dict_set k v d1 ++ d2 else d1 ++ dict_set k v d2.
Proof.
  unfold dict_mem.
  induction d1 as [|[k' v'] d1 IH]; cbn; [reflexivity|].
  destruct (decide (k = k')); [reflexivity|].
  rewrite IH. destruct (dict_get k d1); reflexivity.
Qed.

Lemma dict_set_in_place (a : Amplitude)
    (picks front : dict string PickOrAmplitude) :
  dict_mem (ampl_publicID a) front = true ->
  Forall2 in_place_of picks front ->
  Forall2 in_place_of picks (dict_set (ampl_publicID a) (AnAmplitude a) front).
Proof.
  intros Hmem Hall. induction Hall as [|e [k' v'] picks front [Hk Hv] Hall IH];
    [discriminate Hmem|].
  unfold dict_mem in Hmem. cbn in Hmem, Hk |- *.
  destruct (decide (ampl_publicID a = k')) as [Heq|Hne].
  - constructor; [|exact Hall]. cbn. split; [congruence|].
    right. exists a. split; [reflexivity | congruence].
  - constructor; [split; [exact Hk | exact Hv]|]. apply IH. exact Hmem.
Qed.

Lemma dict_set_holds_amplitude (a : Amplitude)
    (rest : dict string PickOrAmplitude) :
  Forall holds_amplitude rest ->
  Forall holds_amplitude (dict_set (ampl_publicID a) (AnAmplitude a) rest).
Proof.
  rewrite !Forall_forall. intros Hrest e He.
  apply dict_set_elem in He as [He| ->]; [exact (Hrest e He)|].
  exists a. reflexivity.
Qed.

Lemma loadPicksForTimespan_amplitudes (query : AmplitudeQuery) (t0 t1 : Q)
    (allowedAuthorIDs : list string) :
  loadPicksForTimespan query t0 t1 allowedAuthorIDs true
  = foldl amplitude_step
          (loadPicksForTimespan query t0 t1 allowedAuthorIDs false)
          (getAmplitudes query t0 t1).
Proof. reflexivity. Qed.

Lemma loaded_amplitudes_keys (query : AmplitudeQuery)
    (t0 t1 : Q) (allowedAuthorIDs : list string) :
  let picks := loadPicksForTimespan query t0 t1 allowedAuthorIDs false in
  let objects := loadPicksForTimespan query t0 t1 allowedAuthorIDs true in
  (forall id a, (id, AnAmplitude a) ∉ picks)
  /\ (exists rest, dict_keys objects = dict_keys picks ++ rest)
  /\ (forall id a, (id, AnAmplitude a) ∈ objects ->
        id = ampl_publicID a
        /\ ampl_pickID a <> ""
        /\ dict_mem (ampl_pickID a) objects = true
        /\ Some a ∈ getAmplitudes query t0 t1).
Proof.
  cbv zeta.
  assert (Hpicks : forall id a,
            (id, AnAmplitude a)
            ∉ loadPicksForTimespan query t0 t1 allowedAuthorIDs false).
  { intros id a. rewrite loadPicksForTimespan_picks.
    intros Hin. apply list_elem_of_fmap in Hin as (e & Heq & _).
    discriminate Heq. }
  split; [exact Hpicks|].
  rewrite loadPicksForTimespan_amplitudes.
  apply (foldl_invariant
           (fun objects =>
              (exists rest,
                 dict_keys objects
                 = dict_keys (loadPicksForTimespan query t0 t1 allowedAuthorIDs
                                false) ++ rest)
              /\ (forall id a, (id, AnAmplitude a) ∈ objects ->
                    id = ampl_publicID a
                    /\ ampl_pickID a <> ""
                    /\ dict_mem (ampl_pickID a) objects = true
                    /\ Some a ∈ getAmplitudes query t0 t1))).
  - intros objects [ampl|] Hobj [[rest Hkeys] Hampl]; [|split; eauto].
    destruct (decide (ampl_pickID ampl = "")) as [|Hne]; [split; eauto|].
    destruct (dict_mem (ampl_pickID ampl) objects) eqn:Hmem; cbn [negb];
      [|split; eauto].
    split.
    + rewrite dict_keys_set, Hkeys.
      destruct (dict_mem (ampl_publicID ampl) objects); [eauto|].
      exists (rest ++ [ampl_publicID ampl]). rewrite app_assoc. reflexivity.
    + intros id a Hin. apply dict_set_elem in Hin as [Hin|Heq].
      * destruct (Hampl id a Hin) as (H1 & H2 & H3 & H4).
        repeat split; try assumption.
        rewrite dict_mem_set, H3. apply orb_true_r.
      * injection Heq as -> ->. repeat split; try assumption.
        rewrite dict_mem_set, Hmem. apply orb_true_r.
  - split; [exists []; rewrite app_nil_r; reflexivity|].
    intros id a Hin. destruct (Hpicks id a Hin).
Qed.

Lemma loaded_amplitudes_front (query : AmplitudeQuery)
    (t0 t1 : Q) (allowedAuthorIDs : list string) :
  let picks := loadPicksForTimespan query t0 t1 allowedAuthorIDs false in
  let objects := loadPicksForTimespan query t0 t1 allowedAuthorIDs true in
  exists front rest,
    objects = front ++ rest
    /\ Forall2 in_place_of picks front
    /\ Forall holds_amplitude rest.
Proof.
  cbv zeta. rewrite loadPicksForTimespan_amplitudes.
  apply (foldl_invariant
           (fun objects =>
              exists front rest,
                objects = front ++ rest
                /\ Forall2 in_place_of
                     (loadPicksForTimespan query t0 t1 allowedAuthorIDs false)
                     front
                /\ Forall holds_amplitude rest)).
  - intros objects [ampl|] _ (front & rest & -> & Hfront & Hrest);
      [|exists front, rest; auto].
    destruct (decide (ampl_pickID ampl = ""));
      [exists front, rest; auto|].
    destruct (negb (dict_mem (ampl_pickID ampl) (front ++ rest)));
      [exists front, rest; auto|].
    rewrite dict_set_app.
    destruct (dict_mem (ampl_publicID ampl) front) eqn:Hmem.
    + exists (dict_set (ampl_publicID ampl) (AnAmplitude ampl) front), rest.
      split; [reflexivity|]. split; [|exact Hrest].
      apply dict_set_in_place; assumption.
    + exists front, (dict_set (ampl_publicID ampl) (AnAmplitude ampl) rest).
      split; [reflexivity|]. split; [exact Hfront|].
      apply dict_set_holds_amplitude. exact Hrest.
  - exists (loadPicksForTimespan query t0 t1 allowedAuthorIDs false), [].
    split; [rewrite app_nil_r; reflexivity|]. split; [|constructor].
    apply Forall2_same_length_lookup_2; [reflexivity|].
    intros i e e' He He'. rewrite He in He'. injection He' as <-.
    split; [reflexivity | left; reflexivity].
Qed.

Lemma loaded_amplitudes_behind (query : AmplitudeQuery)
    (t0 t1 : Q) (allowedAuthorIDs : list string) :
  let picks := loadPicksForTimespan query t0 t1 allowedAuthorIDs false in
  let objects := loadPicksForTimespan query t0 t1 allowedAuthorIDs true in
  (forall a, Some a ∈ getAmplitudes query t0 t1 ->
             ampl_publicID a ∉ dict_keys picks) ->
  exists rest, objects = picks ++ rest /\ Forall holds_amplitude rest.
Proof.
  cbv zeta. intros Hfresh. rewrite loadPicksForTimespan_amplitudes.
  apply (foldl_invariant
           (fun objects =>
              exists rest,
                objects
                = loadPicksForTimespan query t0 t1 allowedAuthorIDs false ++ rest
                /\ Forall holds_amplitude rest)).
  - intros objects [ampl|] Hobj (rest & -> & Hrest); [|exists rest; auto].
    destruct (decide (ampl_pickID ampl = "")); [exists rest; auto|].
    match goal with
    | |- context [negb ?b] => destruct (negb b)
    end; [exists rest; auto|].
    rewrite dict_set_app.
    destruct (dict_mem (ampl_publicID ampl)
                (loadPicksForTimespan query t0 t1 allowedAuthorIDs false))
      eqn:Hmem.
    + apply dict_mem_keys in Hmem. destruct (Hfresh ampl Hobj Hmem).
    + exists (dict_set (ampl_publicID ampl) (AnAmplitude ampl) rest).
      split; [reflexivity|]. apply dict_set_holds_amplitude. exact Hrest.
  - exists []. split; [rewrite app_nil_r; reflexivity | constructor].
Qed.

(** X8.  With [withAmplitudes] the keys of the picks keep their places at
    the front of the dictionary, and under each of them stands the pick
    or, in its place, an amplitude that has the public ID of the pick;
    what follows are amplitudes.  If no delivered amplitude has the
    public ID of a loaded pick, the picks themselves keep their places
    at the front.  Every amplitude in the dictionary is filed under its
    own public ID, was delivered for the time span and names, by a pick
    ID that is not empty, a key of the dictionary; without
    [withAmplitudes] the dictionary holds picks only. *)
Theorem loaded_amplitudes_reference_loaded_objects (query : AmplitudeQuery)
    (t0 t1 : Q) (allowedAuthorIDs : list string) :
  let picks := loadPicksForTimespan query t0 t1 allowedAuthorIDs false in
  let objects := loadPicksForTimespan query t0 t1 allowedAuthorIDs true in
  (forall id a, (id, AnAmplitude a) ∉ picks)
  /\ (exists rest, dict_keys objects = dict_keys picks ++ rest)
  /\ (forall id a, (id, AnAmplitude a) ∈ objects ->
        id = ampl_publicID a
        /\ ampl_pickID a <> ""
        /\ dict_mem (ampl_pickID a) objects = true
        /\ Some a ∈ getAmplitudes query t0 t1)
  /\ (exists front rest,
        objects = front ++ rest
        /\ Forall2 (fun e e' =>
                      fst e' = fst e
                      /\ (snd e' = snd e
                          \/ exists a, snd e' = AnAmplitude a
                                       /\ ampl_publicID a = fst e))
                   picks front
        /\ Forall (fun e => exists a, snd e = AnAmplitude a) rest)
  /\ ((forall a, Some a ∈ getAmplitudes query t0 t1 ->
                 ampl_publicID a ∉ dict_keys picks) ->
      exists rest,
        objects = picks ++ rest
        /\ Forall (fun e => exists a, snd e = AnAmplitude a) rest).
Proof.
  cbv zeta.
  destruct (loaded_amplitudes_keys query t0 t1 allowedAuthorIDs)
    as (Hpicks & Hkeys & Hampl).
  split; [exact Hpicks|]. split; [exact Hkeys|]. split; [exact Hampl|].
  split.
  - exact (loaded_amplitudes_front query t0 t1 allowedAuthorIDs).
  - exact (loaded_amplitudes_behind query t0 t1 allowedAuthorIDs).
Qed.

(** An amplitude that has the public ID of a loaded pick takes the place
    of the pick. *)
Lemma amplitude_replaces_pick_example :
  loadPicksForTimespan Sample.sample_amplitudes 0 1200 Sample.sample_authors
    false
  = [("dl-APE", APick Sample.dl_APE); ("dl-KARP", APick Sample.dl_KARP)]
  /\ loadPicksForTimespan Sample.sample_amplitudes 0 1200
       Sample.sample_authors true
     = [("dl-APE", AnAmplitude (mkAmplitude "dl-APE" "dl-KARP"));
        ("dl-KARP", APick Sample.dl_KARP);
        ("ampl-APE", AnAmplitude (mkAmplitude "ampl-APE" "dl-APE"))].
Proof. split; reflexivity. Qed.

End DbUtilAmplitudesSpec.

(** ** More on the client: workspace, predicted picks, waveforms *)

Module ClientMore.
Import PyFacts PyFactsMore Util Client Vocabulary Sample ClientSpec.

(** *** The adaptive search distance *)

Lemma last3_nil {A : Type} (l : list A) : last3 l = [] <-> l = [].
Proof.
  unfold last3. split; [|intros ->; reflexivity].
  intros Hdrop. apply (f_equal length) in Hdrop.
  rewrite length_drop in Hdrop. cbn in Hdrop.
  destruct l; [reflexivity | cbn in Hdrop; lia].
Qed.

Lemma sort_floats_nil (l : list Q) : sort_floats l = [] <-> l = [].
Proof.
  split; [|intros ->; reflexivity].
  intros Hs. pose proof (sort_floats_perm l) as Hperm. rewrite Hs in Hperm.
  symmetry. apply Permutation_nil_l. exact Hperm.
Qed.

(** X9.  The search distance is [nan] exactly when no used arrival of the
    origin carries a distance, whatever the agency of the origin (the
    whitelist read at line 709 is the empty module-level list); and with
    [nan] no station is beyond the search distance. *)
Theorem adaptiveMaxDelta_nan (origin : Origin) :
  (adaptiveMaxDelta origin = NaN <-> usedArrivalDistances origin = [])
  /\ (adaptiveMaxDelta origin = NaN ->
      forall delta, exceeds delta (adaptiveMaxDelta origin) = false).
Proof.
  split.
  - unfold adaptiveMaxDelta.
    rewrite bool_decide_eq_false_2 by apply not_elem_of_nil.
    rewrite used_distances_spec.
    rewrite <- (sort_floats_nil (usedArrivalDistances origin)), <- last3_nil.
    rewrite <- Binary64Facts.average_NaN.
    destruct (average _) as [a| |[|]]; [destruct (Qltb 40 a)| | |];
      split; (reflexivity || discriminate).
  - intros -> delta. reflexivity.
Qed.

(** X10.  A search distance that is a number is at most 40 degrees or exactly
    105 degrees. *)
Theorem adaptiveMaxDelta_range (origin : Origin) (m : Q) :
  adaptiveMaxDelta origin = Num m -> (m <= 40)%Q \/ m = 105%Q.
Proof.
  unfold adaptiveMaxDelta.
  rewrite bool_decide_eq_false_2 by apply not_elem_of_nil.
  destruct (average _) as [a| |[|]]; [|discriminate|discriminate|].
  - destruct (Qltb 40 a) eqn:Hlt; intros [= <-]; [right; reflexivity|].
    left. apply Qltb_ge. exact Hlt.
  - intros [= <-]. right; reflexivity.
Qed.

Lemma adaptiveMaxDelta_range_witness :
  (4831987100199595 # 140737488355328 <= 40)%Q
  \/ (4831987100199595 # 140737488355328)%Q = 105%Q.
Proof.
  apply (adaptiveMaxDelta_range (origin_used_at [30; 35; 38]%Q)).
  vm_compute. reflexivity.
Defined.

(** *** The picks that are offered for repicking *)

Lemma getAssociated_loop (objects : list Object) (acc : list Pick) :
  foldl (fun associated_picks obj =>
           match Pick_Cast obj with
           | Some pick =>
               match pick_author pick with
               | Some a =>
                   if bool_decide (a ∈ ignoredAuthors) then associated_picks
                   else associated_picks ++ [pick]
               | None => associated_picks
               end
           | None => associated_picks
           end) acc objects
  = acc ++ filter (fun p => pick_author p <> None) (omap Pick_Cast objects).
Proof.
  revert acc. induction objects as [|obj objects IH]; intros acc.
  - cbn. rewrite app_nil_r. reflexivity.
  - cbn [foldl]. rewrite IH. destruct obj as [p|].
    + change (omap Pick_Cast (ObjPick p :: objects))
        with (p :: omap Pick_Cast objects).
      rewrite @filter_cons. cbn [Pick_Cast].
      destruct (pick_author p) as [a|] eqn:Ha.
      * rewrite bool_decide_eq_false_2 by apply not_elem_of_nil.
        rewrite decide_True by discriminate.
        rewrite <- app_assoc. reflexivity.
      * rewrite decide_False by auto. reflexivity.
    + reflexivity.
Qed.

(** X11.  [getAssociatedPicksForOrigin] returns, in the order of the database,
    every pick of the origin that carries an author: the list it tests
    against is the module-level [ignoredAuthors], which stays empty, so
    neither the configured authors nor the author of the application are
    passed over here. *)
Theorem getAssociatedPicksForOrigin_ignores_no_author (query : Query)
    (originID : string) :
  getAssociatedPicksForOrigin query originID
  = filter (fun p => pick_author p <> None)
           (omap Pick_Cast (getPicks_origin query originID)).
Proof.
  unfold getAssociatedPicksForOrigin. rewrite getAssociated_loop. reflexivity.
Qed.

Section offered.
Variable self : App.

(** X12.  A pick of the application's own author, a pick made by one of the
    deep-learning methods and (unless manual picks are to be repicked) a
    manual pick are made known to the workspace but are neither offered
    for repicking nor registered as attempted. *)
Theorem own_and_manual_picks_are_not_offered (workspace : Workspace)
    (log : list LogLine) (pick : Pick) :
  pick_author pick = Some (app_author self)
  \/ (exists m, pick_methodID pick = Some m /\ m ∈ methodIDs)
  \/ (manual pick = true /\ repickManualPicks self = false) ->
  let st := processOrigin_pick self (workspace, log) pick in
  new_picks (fst st) = new_picks workspace
  /\ attempted_picks (fst st) = attempted_picks workspace
  /\ dict_mem (pick_publicID pick) (all_picks (fst st)) = true.
Proof.
  intros Hguard. cbv zeta. unfold processOrigin_pick.
  assert (Hrep : manual pick && negb (repickManualPicks self) = false ->
                 isRepick pick (Some (app_author self)) = true).
  { intros Hm. destruct Hguard as [Ha|[(m & Hm1 & Hm2)|[Hm1 Hm2]]].
    - unfold isRepick. rewrite Ha, bool_decide_eq_true_2 by reflexivity.
      apply orb_true_r.
    - unfold isRepick. rewrite Hm1, bool_decide_eq_true_2 by exact Hm2.
      reflexivity.
    - rewrite Hm1, Hm2 in Hm. discriminate Hm. }
  destruct (dict_mem (pick_publicID pick) (all_picks workspace)) eqn:Hall.
  - destruct (manual pick && negb (repickManualPicks self)) eqn:Hman;
      [cbn; auto|].
    destruct (dict_mem (pick_publicID pick) (attempted_picks workspace));
      [cbn; auto|].
    rewrite (Hrep eq_refl). cbn. auto.
  - assert (Hnow : dict_mem (pick_publicID pick)
                     (dict_set (pick_publicID pick) pick (all_picks workspace))
                   = true).
    { rewrite dict_mem_set, bool_decide_eq_true_2 by reflexivity. reflexivity. }
    destruct (manual pick && negb (repickManualPicks self)) eqn:Hman;
      [cbn; auto|].
    cbn [attempted_picks set_all_picks mlpicks].
    destruct (dict_mem (pick_publicID pick) (attempted_picks workspace));
      [cbn; auto|].
    rewrite (Hrep eq_refl). cbn. auto.
Qed.

(** *** What a pass over an origin keeps *)

Lemma processOrigin_pick_consistent (st : Workspace * list LogLine)
    (pick : Pick) :
  workspace_consistent (fst st) ->
  workspace_consistent (fst (processOrigin_pick self st pick)).
Proof.
  destruct st as [ws log]. cbn [fst]. intros Hws.
  unfold processOrigin_pick.
  set (st1 := if dict_mem (pick_publicID pick) (all_picks ws)
              then (ws, log)
              else (set_all_picks
                      (dict_set (pick_publicID pick) pick (all_picks ws)) ws,
                    log ++ [AddedToWorkspace (pick_publicID pick)])).
  assert (H1 : workspace_consistent (fst st1)
               /\ dict_mem (pick_publicID pick) (all_picks (fst st1)) = true).
  { subst st1. destruct (dict_mem _ (all_picks ws)) eqn:Hall; cbn [fst].
    - split; assumption.
    - destruct Hws as [Hn Ha]. split; [split|]; cbn.
      + exact Hn.
      + intros id Hid. rewrite dict_mem_set, (Ha id Hid). apply orb_true_r.
      + rewrite dict_mem_set, bool_decide_eq_true_2 by reflexivity.
        reflexivity. }
  destruct st1 as [ws1 log1]. cbn [fst] in H1. destruct H1 as [[Hn Ha] Hall].
  destruct (manual pick && negb (repickManualPicks self));
    [split; assumption|].
  destruct (dict_mem (pick_publicID pick) (attempted_picks ws1));
    [split; assumption|].
  destruct (isRepick pick (Some (app_author self))); [split; assumption|].
  destruct (existsb _ (attempted_picks ws1)); [split; assumption|].
  split; cbn.
  - intros id p. rewrite !dict_get_set.
    destruct (decide (id = pick_publicID pick)); [auto | apply Hn].
  - intros id. rewrite dict_mem_set.
    destruct (bool_decide (id = pick_publicID pick)) eqn:Hid; cbn.
    + apply bool_decide_eq_true_1 in Hid. subst id. intros _. exact Hall.
    + apply Ha.
Qed.

Lemma processOrigin_predicted_consistent (st : Workspace * list LogLine)
    (item : string * Pick) :
  workspace_consistent (fst st) ->
  workspace_consistent (fst (processOrigin_predicted st item)).
Proof.
  destruct st as [ws log], item as [pickID pick]. cbn [fst].
  intros [Hn Ha]. unfold processOrigin_predicted.
  destruct (dict_mem pickID (all_picks ws)) eqn:Hall; [split; assumption|].
  cbn [attempted_picks set_all_picks].
  assert (Ha' : forall id, dict_mem id (attempted_picks ws) = true ->
                  dict_mem id (dict_set pickID pick (all_picks ws)) = true).
  { intros id Hid. rewrite dict_mem_set, (Ha id Hid). apply orb_true_r. }
  destruct (dict_mem pickID (attempted_picks ws)); [split; assumption|].
  split; cbn.
  - intros id p. rewrite !dict_get_set.
    destruct (decide (id = pickID)); [auto | apply Hn].
  - intros id. rewrite !dict_mem_set.
    destruct (bool_decide (id = pickID)); cbn; [reflexivity|]. apply Ha.
Qed.

Lemma drop_incomplete_picks
    (streamIDs : dict (string * string * string) (list string))
    (st : Workspace * list LogLine) :
  workspace_consistent (fst st) ->
  workspace_consistent (fst (drop_incomplete streamIDs st)).
Proof.
  unfold drop_incomplete. intros Hst.
  apply (foldl_invariant (fun st => workspace_consistent (fst st)));
    [|exact Hst].
  intros st1 [nsl ids] _ Hst1. destruct (length ids <? 3)%nat; [|exact Hst1].
  apply (foldl_invariant (fun st => workspace_consistent (fst st)));
    [|exact Hst1].
  intros [ws log] streamID _ Hws. exact Hws.
Qed.

(** X13.  The loop over the associated picks never registers a second
    attempted pick for a waveform ID: if the attempted picks have
    pairwise different waveform IDs before the loop, they have after. *)
Theorem attempted_waveformIDs_stay_distinct (workspace : Workspace)
    (log : list LogLine) (picks : list Pick) :
  one_pick_per_waveformID (attempted_picks workspace) ->
  one_pick_per_waveformID
    (attempted_picks (fst (foldl (processOrigin_pick self) (workspace, log) picks))).
Proof.
  intros Hws0.
  apply (foldl_invariant
           (fun st => one_pick_per_waveformID (attempted_picks (fst st)))
           (processOrigin_pick self) picks (workspace, log)); [|exact Hws0].
  intros [ws log1] pick _ Hws. cbn [fst] in Hws. unfold processOrigin_pick.
  set (st1 := if dict_mem (pick_publicID pick) (all_picks ws)
              then (ws, log1)
              else (set_all_picks
                      (dict_set (pick_publicID pick) pick (all_picks ws)) ws,
                    log1 ++ [AddedToWorkspace (pick_publicID pick)])).
  assert (H1 : attempted_picks (fst st1) = attempted_picks ws).
  { subst st1. destruct (dict_mem _ (all_picks ws)); reflexivity. }
  destruct st1 as [ws1 log2]. cbn [fst] in H1.
  destruct (manual pick && negb (repickManualPicks self));
    [cbn [fst]; rewrite H1; exact Hws|].
  destruct (dict_mem (pick_publicID pick) (attempted_picks ws1)) eqn:Hmem;
    [cbn [fst]; rewrite H1; exact Hws|].
  destruct (isRepick pick (Some (app_author self)));
    [cbn [fst]; rewrite H1; exact Hws|].
  destruct (existsb _ (attempted_picks ws1)) eqn:Hfound;
    [cbn [fst]; rewrite H1; exact Hws|].
  cbn. rewrite H1 in *. rewrite dict_set_fresh by exact Hmem.
  assert (Hother : forall e, e ∈ attempted_picks ws ->
                     pick_waveformID (snd e) <> pick_waveformID pick).
  { intros [id p] He Heq.
    assert (Hex : existsb (fun '((_, _pick) : string * Pick) =>
                    bool_decide (pick_waveformID _pick = pick_waveformID pick))
                    (attempted_picks ws) = true).
    { apply existsb_exists. exists (id, p). split.
      - apply list_elem_of_In. exact He.
      - apply bool_decide_eq_true_2. exact Heq. }
    rewrite Hex in Hfound. discriminate Hfound. }
  intros e1 e2 He1 He2 Heq.
  apply elem_of_app in He1 as [He1|He1]; apply elem_of_app in He2 as [He2|He2].
  - exact (Hws e1 e2 He1 He2 Heq).
  - apply list_elem_of_singleton in He2. subst e2.
    exfalso. exact (Hother e1 He1 Heq).
  - apply list_elem_of_singleton in He1. subst e1.
    exfalso. apply (Hother e2 He2). symmetry. exact Heq.
  - apply list_elem_of_singleton in He1, He2. subst e1 e2. reflexivity.
Qed.

End offered.

Section passes.
Variable sm : Seismology.
Variable env : Environment.
Variable query : Query.
Variable self : App.

Lemma predict_unpicked_consistent (origin : Origin) (event : Event)
    (maxDelta : Float) (st : Workspace * list LogLine) :
  workspace_consistent (fst st) ->
  workspace_consistent
    (fst (fst (predict_unpicked sm env self origin event maxDelta st))).
Proof.
  destruct st as [workspace log]. cbn [fst]. intros Hws. unfold predict_unpicked.
  destruct (tryUpickedStations self); [|exact Hws].
  destruct (findUnpickedStations sm env self origin maxDelta
              (all_picks workspace)) as [predictedPicks|e]; [|exact Hws].
  destruct (0 <? length predictedPicks)%nat; [|exact Hws].
  pose proof (foldl_invariant (fun st => workspace_consistent (fst st))
                processOrigin_predicted predictedPicks (workspace, log)
                (fun st1 item _ => processOrigin_predicted_consistent st1 item)
                Hws) as Hloop.
  destruct (foldl processOrigin_predicted (workspace, log) predictedPicks)
    as [workspace1 log1].
  destruct (_loadWaveformsForPicks env self (new_picks workspace1) event)
    as [wf log']. exact Hloop.
Qed.

Lemma processOrigin_consistent (origin : Origin) (event : Event)
    (workspace : Workspace) :
  workspace_consistent workspace ->
  workspace_consistent
    (fst (fst (processOrigin sm env query self origin event workspace))).
Proof.
  intros Hws. unfold processOrigin.
  destruct (bool_decide (origin_agencyID origin ∈ app_ignoredAgencyIDs self));
    [exact Hws|].
  destruct ((length (origin_arrivals origin) =? 0)%nat && _); [exact Hws|].
  assert (Hstart : workspace_consistent
                     (fst (set_new_picks [] (set_origin origin workspace),
                           @nil LogLine))).
  { split; [intros id p Hget; discriminate Hget | exact (proj2 Hws)]. }
  pose proof (foldl_invariant (fun st => workspace_consistent (fst st))
                (processOrigin_pick self)
                (getAssociatedPicksForOrigin query (origin_publicID origin)) _
                (fun st1 pick _ => processOrigin_pick_consistent self st1 pick)
                Hstart) as Hloop.
  destruct (foldl (processOrigin_pick self) _ _) as [workspace1 log1].
  destruct (_loadWaveformsForPicks env self (new_picks workspace1) event)
    as [wf log'].
  pose proof (predict_unpicked_consistent origin event (adaptiveMaxDelta origin)
                (store_waveforms wf workspace1, log1 ++ log') Hloop) as Hpred.
  destruct (predict_unpicked sm env self origin event (adaptiveMaxDelta origin) _)
    as [[workspace2 log2] [[]|e]]; cbn [fst] in Hpred; [|exact Hpred].
  destruct (streams_per_nsl (waveforms workspace2)) as [streamIDs|e];
    [|exact Hpred].
  pose proof (drop_incomplete_picks streamIDs (workspace2, log2) Hpred) as Hdrop.
  destruct (drop_incomplete streamIDs (workspace2, log2)) as [workspace3 log3].
  exact Hdrop.
Qed.

End passes.

(** X14.  Over any number of passes of [processOrigin], also passes that end in
    an exception, the workspace stays consistent: every new pick is
    registered as attempted, with the same pick object, and every
    attempted pick is a known pick of the workspace. *)
Theorem passes_keep_workspace_consistent (workspace0 workspace : Workspace) :
  passes workspace0 workspace ->
  workspace_consistent workspace0 ->
  workspace_consistent workspace.
Proof.
  induction 1 as [ws|ws ws1 ws2 sm env query self origin event log r Hrun _ IH];
    [auto|].
  intros Hws. apply IH.
  pose proof (processOrigin_consistent sm env query self origin event ws Hws)
    as Hstep.
  rewrite Hrun in Hstep. exact Hstep.
Qed.

(** *** Where the new picks come from *)

Section offered_picks.
Variable sm : Seismology.
Variable env : Environment.
Variable query : Query.
Variable self : App.
Variable origin : Origin.

(** The entry of [new_picks] is a pick of the origin that passed the
    tests of the pick loop, or a pick predicted for the origin. *)
Local Abbreviation offered :=
  (fun e : string * Pick =>
     (snd e ∈ getAssociatedPicksForOrigin query (origin_publicID origin)
      /\ fst e = pick_publicID (snd e)
      /\ manual (snd e) && negb (repickManualPicks self) = false
      /\ isRepick (snd e) (Some (app_author self)) = false)
     \/ exists picks predicted,
          findUnpickedStations sm env self origin (adaptiveMaxDelta origin) picks
          = Ok predicted
          /\ e ∈ predicted).

Local Abbreviation inv :=
  (fun st : Workspace * list LogLine =>
     ws_origin (fst st) = Some origin
     /\ forall e, e ∈ new_picks (fst st) -> offered e).

Lemma processOrigin_pick_offered (st : Workspace * list LogLine) (pick : Pick) :
  pick ∈ getAssociatedPicksForOrigin query (origin_publicID origin) ->
  inv st -> inv (processOrigin_pick self st pick).
Proof.
  destruct st as [ws log]. cbn [fst]. intros Hpick [Horigin Hnew].
  unfold processOrigin_pick.
  set (st1 := if dict_mem (pick_publicID pick) (all_picks ws)
              then (ws, log)
              else (set_all_picks
                      (dict_set (pick_publicID pick) pick (all_picks ws)) ws,
                    log ++ [AddedToWorkspace (pick_publicID pick)])).
  assert (H1 : ws_origin (fst st1) = Some origin
               /\ new_picks (fst st1) = new_picks ws).
  { subst st1. destruct (dict_mem _ (all_picks ws)); split; auto. }
  destruct st1 as [ws1 log1]. cbn [fst] in H1. destruct H1 as [Ho1 Hn1].
  assert (Hsame : inv (ws1, log1)).
  { split; [exact Ho1|]. cbn [fst]. rewrite Hn1. exact Hnew. }
  destruct (manual pick && negb (repickManualPicks self)) eqn:Hman;
    [exact Hsame|].
  destruct (dict_mem (pick_publicID pick) (attempted_picks ws1));
    [exact Hsame|].
  destruct (isRepick pick (Some (app_author self))) eqn:Hrep; [exact Hsame|].
  destruct (existsb _ (attempted_picks ws1)); [exact Hsame|].
  split; [exact Ho1|]. cbn. intros e He.
  apply dict_set_elem in He as [He|Heq].
  - apply Hnew. rewrite <- Hn1. exact He.
  - subst e. left. cbn [fst snd]. auto.
Qed.

Lemma processOrigin_predicted_offered (picks predicted : dict string Pick)
    (st : Workspace * list LogLine) (item : string * Pick) :
  findUnpickedStations sm env self origin (adaptiveMaxDelta origin) picks
  = Ok predicted ->
  item ∈ predicted ->
  inv st -> inv (processOrigin_predicted st item).
Proof.
  destruct st as [ws log], item as [pickID pick]. cbn [fst].
  intros Hrun Hitem [Horigin Hnew]. unfold processOrigin_predicted.
  destruct (dict_mem pickID (all_picks ws)); [split; assumption|].
  cbn [attempted_picks set_all_picks].
  destruct (dict_mem pickID (attempted_picks ws)); [split; assumption|].
  split; [exact Horigin|]. cbn. intros e He.
  apply dict_set_elem in He as [He|Heq]; [exact (Hnew e He)|].
  subst e. right. exists picks, predicted. auto.
Qed.

Lemma drop_incomplete_offered
    (streamIDs : dict (string * string * string) (list string))
    (st : Workspace * list LogLine) :
  inv st -> inv (drop_incomplete streamIDs st).
Proof.
  unfold drop_incomplete. intros Hst.
  apply (foldl_invariant inv); [|exact Hst].
  intros st1 [nsl ids] _ Hst1. destruct (length ids <? 3)%nat; [|exact Hst1].
  apply (foldl_invariant inv); [|exact Hst1].
  intros [ws log] streamID _ Hws. exact Hws.
Qed.

(** X15.  When [processOrigin] does not return at once, the workspace holds
    the origin afterwards, and every new pick it offers for repicking is
    either a pick associated with this origin, filed under its public
    ID, that is not a repick and (unless manual picks are to be repicked)
    not manual, or one of the picks that [findUnpickedStations] predicted
    for this origin with the adaptive search distance. *)
Theorem new_picks_come_from_the_origin (event : Event)
    (workspace workspace' : Workspace) (log : list LogLine)
    (r : result ReturnValue) :
  processOrigin sm env query self origin event workspace
  = (workspace', log, r) ->
  origin_agencyID origin ∉ app_ignoredAgencyIDs self ->
  origin_arrivals origin <> []
  \/ origin_agencyID origin ∈ app_emptyOriginAgencyIDs self ->
  ws_origin workspace' = Some origin
  /\ forall id p, (id, p) ∈ new_picks workspace' ->
       (p ∈ getAssociatedPicksForOrigin query (origin_publicID origin)
        /\ id = pick_publicID p
        /\ manual p && negb (repickManualPicks self) = false
        /\ isRepick p (Some (app_author self)) = false)
       \/ exists picks predicted,
            findUnpickedStations sm env self origin (adaptiveMaxDelta origin)
                                 picks
            = Ok predicted
            /\ (id, p) ∈ predicted.
Proof.
  intros Hrun Hagency Harrivals.
  assert (Hgoal : inv (workspace', log)).
  2:{ destruct Hgoal as [Ho Hn]. split; [exact Ho|].
      intros id p Hin. exact (Hn (id, p) Hin). }
  unfold processOrigin in Hrun.
  rewrite bool_decide_eq_false_2 in Hrun by exact Hagency.
  assert (Hgate : (length (origin_arrivals origin) =? 0)%nat
                  && negb (bool_decide
                             (origin_agencyID origin
                              ∈ app_emptyOriginAgencyIDs self)) = false).
  { destruct Harrivals as [Hne|Hin].
    - destruct (origin_arrivals origin); [destruct (Hne eq_refl)|reflexivity].
    - rewrite (bool_decide_eq_true_2 _ Hin). apply andb_false_r. }
  rewrite Hgate in Hrun.
  assert (Hstart : inv (set_new_picks [] (set_origin origin workspace),
                        @nil LogLine)).
  { split; [reflexivity|]. intros e He. apply elem_of_nil in He. destruct He. }
  pose proof (foldl_invariant inv (processOrigin_pick self)
                (getAssociatedPicksForOrigin query (origin_publicID origin)) _
                (fun st1 pick Hpick => processOrigin_pick_offered st1 pick Hpick)
                Hstart) as Hloop.
  destruct (foldl (processOrigin_pick self) _ _) as [workspace1 log1].
  destruct (_loadWaveformsForPicks env self (new_picks workspace1) event)
    as [wf log'].
  assert (Hpred : inv (fst (predict_unpicked sm env self origin event
                              (adaptiveMaxDelta origin)
                              (store_waveforms wf workspace1, log1 ++ log')))).
  { unfold predict_unpicked.
    destruct (tryUpickedStations self); [|exact Hloop].
    destruct (findUnpickedStations sm env self origin (adaptiveMaxDelta origin)
                (all_picks (store_waveforms wf workspace1)))
      as [predictedPicks|e] eqn:Hfind; [|exact Hloop].
    destruct (0 <? length predictedPicks)%nat; [|exact Hloop].
    pose proof (foldl_invariant inv processOrigin_predicted predictedPicks
                  (store_waveforms wf workspace1, log1 ++ log')
                  (fun st1 item Hitem =>
                     processOrigin_predicted_offered _ _ st1 item Hfind Hitem)
                  Hloop) as Hloop2.
    destruct (foldl processOrigin_predicted _ predictedPicks)
      as [workspace2 log2].
    destruct (_loadWaveformsForPicks env self (new_picks workspace2) event)
      as [wf2 log2']. exact Hloop2. }
  destruct (predict_unpicked sm env self origin event (adaptiveMaxDelta origin) _)
    as [[workspace2 log2] [[]|e]]; cbn [fst] in Hpred.
  - destruct (streams_per_nsl (waveforms workspace2)) as [streamIDs|e].
    + pose proof (drop_incomplete_offered streamIDs (workspace2, log2) Hpred)
        as Hdrop.
      destruct (drop_incomplete streamIDs (workspace2, log2))
        as [workspace3 log3].
      injection Hrun as <- <- _. exact Hdrop.
    + injection Hrun as <- <- _. exact Hpred.
  - injection Hrun as <- <- _. exact Hpred.
Qed.

End offered_picks.

Section samples.
Local Open Scope Q_scope.

(** A pick of "dlpicker", the author of the application. *)
Lemma own_and_manual_picks_are_not_offered_witness :
  let st := processOrigin_pick sample_app (empty_workspace, []) dl_APE in
  new_picks (fst st) = new_picks empty_workspace
  /\ attempted_picks (fst st) = attempted_picks empty_workspace
  /\ dict_mem (pick_publicID dl_APE) (all_picks (fst st)) = true.
Proof.
  apply (own_and_manual_picks_are_not_offered sample_app empty_workspace []
           dl_APE).
  left. reflexivity.
Defined.

(** "auto-APE" was attempted; a second pick on the same channel and a
    pick on KARP are offered. *)
Lemma attempted_waveformIDs_stay_distinct_witness :
  one_pick_per_waveformID
    (attempted_picks
       (fst (foldl (processOrigin_pick sample_app) (attempted_workspace, [])
               [auto_pick "auto-APE-2" "APE" 1201;
                auto_pick "auto-KARP" "KARP" 1300])))
  /\ dict_keys
       (attempted_picks
          (fst (foldl (processOrigin_pick sample_app) (attempted_workspace, [])
                  [auto_pick "auto-APE-2" "APE" 1201;
                   auto_pick "auto-KARP" "KARP" 1300])))
     = ["auto-APE"; "auto-KARP"].
Proof.
  split; [|reflexivity].
  apply (attempted_waveformIDs_stay_distinct sample_app attempted_workspace []).
  intros e1 e2 He1 He2 _.
  apply list_elem_of_singleton in He1, He2. subst e1 e2. reflexivity.
Defined.

Lemma passes_keep_workspace_consistent_witness :
  exists workspace' log r,
    processOrigin sample_sm (sample_env [] [])
      (sample_query [] [auto_pick "auto-APE" "APE" 1200] [])
      sample_app origin_with_arrival sample_event empty_workspace
    = (workspace', log, r)
    /\ dict_keys (new_picks workspace') = ["auto-APE"]
    /\ workspace_consistent workspace'.
Proof.
  do 3 eexists. split; [vm_compute; reflexivity|]. split; [reflexivity|].
  apply (passes_keep_workspace_consistent empty_workspace).
  - eapply (passes_more _ _ _ sample_sm (sample_env [] [])
              (sample_query [] [auto_pick "auto-APE" "APE" 1200] [])
              sample_app origin_with_arrival sample_event);
      [vm_compute; reflexivity | apply passes_none].
  - split; intros id; [intros p Hget|intros Hmem]; discriminate.
Defined.

Lemma new_picks_come_from_the_origin_witness :
  exists workspace' log r,
    processOrigin sample_sm (sample_env [] [])
      (sample_query [] [auto_pick "auto-APE" "APE" 1200; dl_APE] [])
      sample_app origin_with_arrival sample_event empty_workspace
    = (workspace', log, r)
    /\ dict_keys (new_picks workspace') = ["auto-APE"]
    /\ ws_origin workspace' = Some origin_with_arrival
    /\ forall id p, (id, p) ∈ new_picks workspace' ->
         (p ∈ getAssociatedPicksForOrigin
                (sample_query [] [auto_pick "auto-APE" "APE" 1200; dl_APE] [])
                (origin_publicID origin_with_arrival)
          /\ id = pick_publicID p
          /\ manual p && negb (repickManualPicks sample_app) = false
          /\ isRepick p (Some (app_author sample_app)) = false)
         \/ exists picks predicted,
              findUnpickedStations sample_sm (sample_env [] []) sample_app
                origin_with_arrival (adaptiveMaxDelta origin_with_arrival) picks
              = Ok predicted
              /\ (id, p) ∈ predicted.
Proof.
  do 3 eexists. split; [vm_compute; reflexivity|]. split; [reflexivity|].
  eapply (new_picks_come_from_the_origin sample_sm (sample_env [] [])
            (sample_query [] [auto_pick "auto-APE" "APE" 1200; dl_APE] [])
            sample_app origin_with_arrival sample_event empty_workspace).
  - vm_compute. reflexivity.
  - apply not_elem_of_nil.
  - left. discriminate.
Defined.

End samples.

End ClientMore.

(** ** The client: picks predicted for unpicked stations *)

Module ClientPredicted.
Import PyFacts PyFactsMore Util Client Vocabulary Sample.

Section predicted.
Variable sm : Seismology.
Variable env : Environment.
Variable self : App.
Variable origin : Origin.
Variable maxDelta : Float.
Variable picks : dict string Pick.

Local Abbreviation blacklist :=
  (map (fun '((_, pick) : string * Pick) =>
          let '(net, sta, loc, cha) := nslc pick in (net, sta))
       picks).

Local Abbreviation step :=
  (findUnpickedStations_step sm env self origin maxDelta blacklist).

Lemma blacklist_spec (net sta : string) :
  (net, sta) ∈ blacklist
  <-> exists e, e ∈ picks /\ station_of (snd e) = (net, sta).
Proof.
  rewrite list_elem_of_In, in_map_iff. split.
  - intros ([id p] & Heq & Hin). exists (id, p). split.
    + apply list_elem_of_In. exact Hin.
    + exact Heq.
  - intros ([id p] & Hin & Heq). exists (id, p). split.
    + exact Heq.
    + apply list_elem_of_In. exact Hin.
Qed.

(** One stream of the inventory either leaves the predicted picks as
    they are or appends the predicted pick of an unpicked station. *)
Lemma step_Ok (acc acc' : dict string Pick) (item : InventoryStream) :
  step acc item = Ok acc' ->
  acc' = acc
  \/ exists firstArrival,
       unpicked_station sm self origin maxDelta picks item firstArrival
       /\ Pick_Find env (pick_publicID (predicted_pick env origin item firstArrival))
          = false
       /\ dict_mem (pick_publicID (predicted_pick env origin item firstArrival)) acc
          = false
       /\ acc' = acc ++ [(pick_publicID (predicted_pick env origin item firstArrival),
                          predicted_pick env origin item firstArrival)].
Proof.
  unfold findUnpickedStations_step.
  destruct (bool_decide ((inv_network item, inv_station item) ∈ blacklist))
    eqn:Hblack; [intros [= <-]; left; reflexivity|].
  destruct (bool_decide (_ ∈ configuredStreams self)) eqn:Hconf; cbn [negb];
    [|intros [= <-]; left; reflexivity].
  destruct (exceeds _ maxDelta) eqn:Hfar; [intros [= <-]; left; reflexivity|].
  unfold computeTravelTimes.
  destruct (ttt_compute sm _ _) as [|firstArrival rest] eqn:Httt;
    [discriminate|].
  destruct (Pick_Find env _) eqn:Hfind; [intros [= <-]; left; reflexivity|].
  destruct (dict_mem _ acc) eqn:Hmem; intros [= <-]; [left; reflexivity|].
  right. exists firstArrival. split; [|split; [exact Hfind|split; [exact Hmem|]]].
  - repeat split.
    + intros e He Heq. apply bool_decide_eq_false_1 in Hblack. apply Hblack.
      apply blacklist_spec. exists e. auto.
    + apply bool_decide_eq_true_1 in Hconf. exact Hconf.
    + exact Hfar.
    + cbv zeta. rewrite Httt. reflexivity.
  - apply dict_set_fresh. exact Hmem.
Qed.

(** A stream of an unpicked station whose predicted pick is not yet a
    public object has its pick ID among the predicted picks after its
    turn. *)
Lemma step_complete (acc : dict string Pick) (item : InventoryStream)
    (firstArrival : TravelTime) :
  unpicked_station sm self origin maxDelta picks item firstArrival ->
  Pick_Find env (pick_publicID (predicted_pick env origin item firstArrival))
  = false ->
  exists acc', step acc item = Ok acc'
    /\ dict_mem (pick_publicID (predicted_pick env origin item firstArrival)) acc'
       = true.
Proof.
  intros (Hblack & Hconf & Hfar & Httt) Hfind. cbv zeta in Hfar, Httt.
  unfold findUnpickedStations_step.
  rewrite bool_decide_eq_false_2.
  2:{ intros Hin. apply blacklist_spec in Hin as (e & He & Heq).
      exact (Hblack e He Heq). }
  rewrite bool_decide_eq_true_2 by exact Hconf. cbn [negb].
  rewrite Hfar. unfold computeTravelTimes.
  destruct (ttt_compute sm _ _) as [|fa rest]; [discriminate|].
  injection Httt as ->.
  change (Pick_Find env _)
    with (Pick_Find env (pick_publicID (predicted_pick env origin item firstArrival))).
  rewrite Hfind.
  change (dict_mem _ acc)
    with (dict_mem (pick_publicID (predicted_pick env origin item firstArrival)) acc).
  destruct (dict_mem _ acc) eqn:Hmem; eexists; (split; [reflexivity|]).
  - exact Hmem.
  - rewrite dict_mem_set, bool_decide_eq_true_2 by reflexivity. reflexivity.
Qed.

Lemma step_grows (acc acc' : dict string Pick) (item : InventoryStream)
    (id : string) :
  step acc item = Ok acc' -> dict_mem id acc = true -> dict_mem id acc' = true.
Proof.
  intros Hstep Hid. apply step_Ok in Hstep as [->|(fa & _ & _ & _ & ->)];
    [exact Hid|].
  apply dict_mem_keys. unfold dict_keys. rewrite fmap_app.
  apply elem_of_app. left. apply dict_mem_keys. exact Hid.
Qed.

Lemma loop_grows (l : list InventoryStream) (acc acc' : dict string Pick)
    (id : string) :
  foldlM step acc l = Ok acc' -> dict_mem id acc = true ->
  dict_mem id acc' = true.
Proof.
  intros Hrun Hid.
  exact (foldlM_invariant (fun d => dict_mem id d = true) step l acc acc'
           (fun s x s' _ Hs Hb => step_grows s s' x id Hb Hs) Hid Hrun).
Qed.

Lemma loop_complete (l : list InventoryStream) (acc acc' : dict string Pick)
    (item : InventoryStream) (firstArrival : TravelTime) :
  foldlM step acc l = Ok acc' ->
  item ∈ l ->
  unpicked_station sm self origin maxDelta picks item firstArrival ->
  Pick_Find env (pick_publicID (predicted_pick env origin item firstArrival))
  = false ->
  dict_mem (pick_publicID (predicted_pick env origin item firstArrival)) acc'
  = true.
Proof.
  revert acc. induction l as [|x l IH]; intros acc Hrun Hin Hst Hfind.
  - apply elem_of_nil in Hin. destruct Hin.
  - cbn [foldlM] in Hrun. apply bind_Ok in Hrun as (acc1 & Hx & Hrun).
    apply elem_of_cons in Hin as [->|Hin].
    + destruct (step_complete acc x firstArrival Hst Hfind) as (acc2 & H2 & Hid).
      rewrite Hx in H2. injection H2 as <-.
      exact (loop_grows l acc1 acc' _ Hrun Hid).
    + exact (IH acc1 Hrun Hin Hst Hfind).
Qed.

Lemma findUnpickedStations_keys (predicted : dict string Pick) :
  findUnpickedStations sm env self origin maxDelta picks = Ok predicted ->
  NoDup (dict_keys predicted).
Proof.
  unfold findUnpickedStations. intros Hrun.
  apply (foldlM_invariant (fun d => NoDup (dict_keys d)) step
           (inventoryIterator env) [] predicted); [|constructor|exact Hrun].
  intros d item d' _ Hd Hstep.
  apply step_Ok in Hstep as [->|(fa & _ & _ & Hmem & ->)]; [exact Hd|].
  unfold dict_keys. rewrite fmap_app. apply NoDup_app. split; [exact Hd|].
  split; [|apply NoDup_singleton].
  intros k Hk Hk'. apply list_elem_of_singleton in Hk'. cbn [fst] in Hk'. subst k.
  apply dict_mem_keys in Hk. rewrite Hk in Hmem. discriminate Hmem.
Qed.

Lemma findUnpickedStations_sound (predicted : dict string Pick) :
  findUnpickedStations sm env self origin maxDelta picks = Ok predicted ->
  forall id p, (id, p) ∈ predicted ->
    exists item firstArrival,
      item ∈ inventoryIterator env
      /\ unpicked_station sm self origin maxDelta picks item firstArrival
      /\ p = predicted_pick env origin item firstArrival
      /\ id = pick_publicID p
      /\ Pick_Find env id = false.
Proof.
  unfold findUnpickedStations. intros Hrun.
  apply (foldlM_invariant
           (fun d => forall id p, (id, p) ∈ d ->
              exists item firstArrival,
                item ∈ inventoryIterator env
                /\ unpicked_station sm self origin maxDelta picks item firstArrival
                /\ p = predicted_pick env origin item firstArrival
                /\ id = pick_publicID p
                /\ Pick_Find env id = false)
           step (inventoryIterator env) [] predicted);
    [|intros id p Hin; apply elem_of_nil in Hin; destruct Hin|exact Hrun].
  intros d item d' Hitem Hd Hstep id p Hin.
  apply step_Ok in Hstep as [->|(fa & Hst & Hfind & _ & ->)]; [auto|].
  apply elem_of_app in Hin as [Hin|Hin]; [auto|].
  apply list_elem_of_singleton in Hin. injection Hin as -> ->.
  exists item, fa. repeat split; try assumption; apply Hst.
Qed.

(** X16.  [findUnpickedStations], when it returns, returns exactly the
    predicted picks of the unpicked stations: each entry is the "P" pick
    predicted for a stream of the inventory whose station none of the
    given picks represents, whose band is configured and which is not
    beyond [maxDelta], filed under its own public ID, which is not the ID
    of a registered public object; the IDs are pairwise different; and
    every such stream has its pick ID among the entries. *)
Theorem findUnpickedStations_predicts_unpicked_stations
    (predicted : dict string Pick) :
  findUnpickedStations sm env self origin maxDelta picks = Ok predicted ->
  NoDup (dict_keys predicted)
  /\ (forall id p, (id, p) ∈ predicted ->
        exists item firstArrival,
          item ∈ inventoryIterator env
          /\ unpicked_station sm self origin maxDelta picks item firstArrival
          /\ p = predicted_pick env origin item firstArrival
          /\ id = pick_publicID p
          /\ Pick_Find env id = false)
  /\ (forall item firstArrival,
        item ∈ inventoryIterator env ->
        unpicked_station sm self origin maxDelta picks item firstArrival ->
        Pick_Find env (pick_publicID (predicted_pick env origin item firstArrival))
        = false ->
        pick_publicID (predicted_pick env origin item firstArrival)
        ∈ dict_keys predicted).
Proof.
  intros Hrun. split; [|split].
  - exact (findUnpickedStations_keys predicted Hrun).
  - exact (findUnpickedStations_sound predicted Hrun).
  - intros item fa Hitem Hst Hfind. apply dict_mem_keys.
    unfold findUnpickedStations in Hrun.
    exact (loop_complete _ _ _ item fa Hrun Hitem Hst Hfind).
Qed.

End predicted.

(** *** Predicted picks in the workspace *)

Lemma processOrigin_predicted_all_picks (st : Workspace * list LogLine)
    (item : string * Pick) :
  all_picks (fst (processOrigin_predicted st item))
  = if dict_mem (fst item) (all_picks (fst st)) then all_picks (fst st)
    else all_picks (fst st) ++ [item].
Proof.
  destruct st as [ws log], item as [pickID pick]. cbn [fst].
  unfold processOrigin_predicted.
  destruct (dict_mem pickID (all_picks ws)) eqn:Hall; [reflexivity|].
  cbn [attempted_picks set_all_picks].
  destruct (dict_mem pickID (attempted_picks ws)); cbn;
    apply dict_set_fresh; exact Hall.
Qed.

Lemma predicted_loop_persists (pp : dict string Pick)
    (st : Workspace * list LogLine) (e : string * Pick) :
  e ∈ all_picks (fst st) ->
  e ∈ all_picks (fst (foldl processOrigin_predicted st pp)).
Proof.
  intros He.
  apply (foldl_invariant (fun st => e ∈ all_picks (fst st))); [|exact He].
  intros st1 item _ H1. rewrite processOrigin_predicted_all_picks.
  destruct (dict_mem _ _); [exact H1|]. apply elem_of_app. left. exact H1.
Qed.

(** Predicted picks whose IDs are new to the workspace are known picks
    of the workspace after the loop of lines 748-757. *)
Lemma predicted_loop_known (pp : dict string Pick)
    (st : Workspace * list LogLine) :
  NoDup (dict_keys pp) ->
  (forall id, id ∈ dict_keys pp -> dict_mem id (all_picks (fst st)) = false) ->
  forall e, e ∈ pp -> e ∈ all_picks (fst (foldl processOrigin_predicted st pp)).
Proof.
  revert st. induction pp as [|x pp IH]; intros st Hnd Hfresh e He.
  - apply elem_of_nil in He. destruct He.
  - cbn [foldl]. cbn in Hnd. apply NoDup_cons in Hnd as [Hx Hnd].
    assert (Hall : all_picks (fst (processOrigin_predicted st x))
                   = all_picks (fst st) ++ [x]).
    { rewrite processOrigin_predicted_all_picks, Hfresh; [reflexivity|].
      apply elem_of_cons. left. reflexivity. }
    apply elem_of_cons in He as [->|He].
    + apply predicted_loop_persists. rewrite Hall. apply elem_of_app. right.
      apply list_elem_of_singleton. reflexivity.
    + apply IH; [exact Hnd| |exact He].
      intros id Hid. rewrite Hall.
      destruct (dict_mem id (all_picks (fst st) ++ [x])) eqn:Hmem; [|reflexivity].
      apply dict_mem_keys in Hmem. unfold dict_keys in Hmem.
      rewrite fmap_app in Hmem. apply elem_of_app in Hmem as [Hmem|Hmem].
      * apply dict_mem_keys in Hmem.
        rewrite Hfresh in Hmem; [discriminate Hmem|].
        apply elem_of_cons. right. exact Hid.
      * apply list_elem_of_singleton in Hmem. subst id. contradiction.
Qed.

(** X17.  A station for which a pick was predicted and filed in the workspace
    is not predicted for again, as long as the picks handed to
    [findUnpickedStations] include the known picks of that workspace. *)
Theorem predicted_station_is_not_predicted_again
    (sm sm2 : Seismology) (env env2 : Environment) (self self2 : App)
    (origin origin2 : Origin) (maxDelta maxDelta2 : Float)
    (workspace : Workspace) (log : list LogLine)
    (predicted picks2 predicted2 : dict string Pick) :
  findUnpickedStations sm env self origin maxDelta (all_picks workspace)
  = Ok predicted ->
  (forall id, id ∈ dict_keys predicted ->
              dict_mem id (all_picks workspace) = false) ->
  (forall e,
     e ∈ all_picks (fst (foldl processOrigin_predicted (workspace, log) predicted)) ->
     e ∈ picks2) ->
  findUnpickedStations sm2 env2 self2 origin2 maxDelta2 picks2 = Ok predicted2 ->
  forall e e2, e ∈ predicted -> e2 ∈ predicted2 ->
               station_of (snd e2) <> station_of (snd e).
Proof.
  intros Hrun Hfresh Hsub Hrun2 e [id2 p2] He He2 Heq.
  pose proof (findUnpickedStations_keys sm env self origin maxDelta _ _ Hrun)
    as Hnd.
  destruct (findUnpickedStations_sound sm2 env2 self2 origin2 maxDelta2 _ _
              Hrun2 id2 p2 He2) as (item & fa & _ & (Hblack & _) & -> & _).
  apply (Hblack e); [|symmetry; exact Heq].
  apply Hsub. apply predicted_loop_known; [exact Hnd| |exact He].
  exact Hfresh.
Qed.

Section samples.
Local Open Scope Q_scope.

(** APE is represented by a pick, KARP (at 30 degrees) is not, FAR (at
    102 degrees) is beyond the table of the toy earth and beyond the
    search distance of 40 degrees. *)
Lemma findUnpickedStations_predicts_unpicked_stations_witness :
  exists predicted,
    findUnpickedStations sample_sm
      (sample_env [] [inventory_stream "APE" 20; inventory_stream "KARP" 30;
                      inventory_stream "FAR" 102])
      sample_app sample_origin (Num 40)
      [("auto-APE", auto_pick "auto-APE" "APE" 1200)]
    = Ok predicted
    /\ dict_keys predicted = ["19700101.002000.00-PRE-GE.KARP..BH"]
    /\ NoDup (dict_keys predicted).
Proof.
  eexists. split; [vm_compute; reflexivity|]. split; [reflexivity|].
  apply (findUnpickedStations_predicts_unpicked_stations sample_sm
           (sample_env [] [inventory_stream "APE" 20; inventory_stream "KARP" 30;
                           inventory_stream "FAR" 102])
           sample_app sample_origin (Num 40)
           [("auto-APE", auto_pick "auto-APE" "APE" 1200)]).
  vm_compute. reflexivity.
Defined.

(** First KARP is predicted for; in a later search out to 105 degrees,
    with FAR at 90 degrees, only FAR is. *)
Lemma predicted_station_is_not_predicted_again_witness :
  let inventory lat :=
    [inventory_stream "APE" 20; inventory_stream "KARP" 30;
     inventory_stream "FAR" lat] in
  let workspace :=
    Client.mkWorkspace None [("auto-APE", auto_pick "auto-APE" "APE" 1200)]
                       [] [] [] [] in
  exists predicted predicted2,
    findUnpickedStations sample_sm (sample_env [] (inventory 102)) sample_app
      sample_origin (Num 40) (all_picks workspace)
    = Ok predicted
    /\ findUnpickedStations sample_sm (sample_env [] (inventory 90)) sample_app
         sample_origin (Num 105)
         (all_picks (fst (foldl processOrigin_predicted (workspace, []) predicted)))
       = Ok predicted2
    /\ dict_keys predicted2 = ["19700101.002000.00-PRE-GE.FAR..BH"]
    /\ forall e e2, e ∈ predicted -> e2 ∈ predicted2 ->
                    station_of (snd e2) <> station_of (snd e).
Proof.
  cbv zeta. do 2 eexists.
  split; [vm_compute; reflexivity|].
  split; [vm_compute; reflexivity|].
  split; [reflexivity|].
  eapply (predicted_station_is_not_predicted_again
            sample_sm sample_sm
            (sample_env [] [inventory_stream "APE" 20; inventory_stream "KARP" 30;
                            inventory_stream "FAR" 102])
            (sample_env [] [inventory_stream "APE" 20; inventory_stream "KARP" 30;
                            inventory_stream "FAR" 90])
            sample_app sample_app sample_origin sample_origin (Num 40) (Num 105)
            (Client.mkWorkspace None
               [("auto-APE", auto_pick "auto-APE" "APE" 1200)] [] [] [] [])
            []).
  - vm_compute. reflexivity.
  - intros id Hid. apply list_elem_of_singleton in Hid. subst id. reflexivity.
  - intros e He. exact He.
  - vm_compute. reflexivity.
Defined.

End samples.

End ClientPredicted.

(** ** The client: waveforms of the workspace *)

Module ClientWaveforms.
Import PyFacts PyFactsMore Util Client Vocabulary Sample ClientSpec.

(** *** Records as they arrive *)

Lemma receive_get (records : list (option Record_))
    (wf : dict string (list Record_)) (sid : string) :
  dict_get sid (receive records wf)
  = match filter (fun r => rec_streamID r = sid) (until_None records) with
    | [] => dict_get sid wf
    | l => Some (default [] (dict_get sid wf) ++ l)
    end.
Proof.
  revert wf. induction records as [|[rec|] rest IH]; intros wf;
    [reflexivity| |reflexivity].
  cbn [receive until_None]. rewrite IH, @filter_cons.
  set (wf0 := if dict_mem (rec_streamID rec) wf then wf
              else dict_set (rec_streamID rec) [] wf).
  assert (Hget0 : forall k, k <> rec_streamID rec -> dict_get k wf0 = dict_get k wf).
  { intros k Hk. subst wf0. destruct (dict_mem _ wf); [reflexivity|].
    rewrite dict_get_set, decide_False by exact Hk. reflexivity. }
  assert (Hdef : default [] (dict_get (rec_streamID rec) wf0)
                 = default [] (dict_get (rec_streamID rec) wf)).
  { subst wf0. unfold dict_mem.
    destruct (dict_get (rec_streamID rec) wf) eqn:Hg; [rewrite Hg; reflexivity|].
    rewrite dict_get_set, decide_True by reflexivity. reflexivity. }
  rewrite dict_get_set.
  destruct (decide (rec_streamID rec = sid)) as [Heq|Hne].
  - subst sid. rewrite decide_True by reflexivity. rewrite Hdef. cbn [default].
    destruct (filter _ (until_None rest)) as [|r l]; [reflexivity|].
    cbn. rewrite <- app_assoc. reflexivity.
  - rewrite decide_False by (intros ->; apply Hne; reflexivity).
    rewrite Hget0 by (intros ->; apply Hne; reflexivity). reflexivity.
Qed.

(** X18.  The records that arrive before the end marker are filed under their
    stream ID in the order of arrival, each stream once; a stream of
    which no record arrived has no entry, and what the iterator yields
    after the marker is not read. *)
Theorem received_records_are_filed_per_stream
    (records : list (option Record_)) :
  NoDup (dict_keys (receive records []))
  /\ forall sid,
       dict_get sid (receive records [])
       = match filter (fun r => rec_streamID r = sid) (until_None records) with
         | [] => None
         | l => Some l
         end.
Proof.
  split; [apply receive_keys; constructor|].
  intros sid. rewrite receive_get. reflexivity.
Qed.

(** *** Streams with fewer than three components *)

Local Abbreviation group_step :=
  (fun (streamIDs : dict (string * string * string) (list string))
       '((streamID, recs) : string * list Record_) =>
     match recs with
     | [] => Raise IndexError
     | firstRecord :: _ =>
         let '(net, sta, loc, cha) := rec_nslc firstRecord in
         let streamIDs :=
           if dict_mem (net, sta, loc) streamIDs then streamIDs
           else dict_set (net, sta, loc) [] streamIDs in
         Ok (dict_set (net, sta, loc)
               (default [] (dict_get (net, sta, loc) streamIDs) ++ [streamID])
               streamIDs)
     end).

Lemma group_step_Ok (acc acc' : dict (string * string * string) (list string))
    (e : string * list Record_) :
  group_step acc e = Ok acc' ->
  exists nsl,
    nsl_of (snd e) = Some nsl
    /\ (NoDup (dict_keys acc) -> NoDup (dict_keys acc'))
    /\ forall k, dict_get k acc'
                 = if decide (k = nsl)
                   then Some (default [] (dict_get nsl acc) ++ [fst e])
                   else dict_get k acc.
Proof.
  destruct e as [sid [|r recs]]; [discriminate|]. cbn [snd fst nsl_of].
  destruct (rec_nslc r) as [[[net sta] loc] cha]. intros [= <-].
  exists (net, sta, loc). split; [reflexivity|]. split.
  - intros Hnd. apply dict_keys_set_NoDup.
    destruct (dict_mem (net, sta, loc) acc); [exact Hnd|].
    apply dict_keys_set_NoDup. exact Hnd.
  - intros k. rewrite dict_get_set.
    destruct (decide (k = (net, sta, loc))) as [->|Hk].
    + unfold dict_mem.
      destruct (dict_get (net, sta, loc) acc) eqn:Hg; [rewrite Hg; reflexivity|].
      rewrite dict_get_set, decide_True by reflexivity. reflexivity.
    + destruct (dict_mem (net, sta, loc) acc); [reflexivity|].
      rewrite dict_get_set, decide_False by exact Hk. reflexivity.
Qed.

(** X19.  [streams_per_nsl] reads the first record of every stream: it raises
    [IndexError] exactly when a stream of the workspace holds no record. *)
Theorem stream_without_records_raises_IndexError
    (wf : dict string (list Record_)) :
  ((exists streamIDs, streams_per_nsl wf = Ok streamIDs)
   /\ forall e, e ∈ wf -> snd e <> [])
  \/ (streams_per_nsl wf = Raise IndexError
      /\ exists e, e ∈ wf /\ snd e = []).
Proof.
  unfold streams_per_nsl.
  destruct (foldlM_cases group_step (fun e => snd e = []) IndexError wf [])
    as [(s' & Hrun & Hall)|[Hrun Hbad]].
  - intros acc [sid [|r recs]] _; [left; split; reflexivity|].
    right. split; [discriminate|]. cbn.
    destruct (rec_nslc r) as [[[net sta] loc] cha]. eexists. reflexivity.
  - left. split; [exists s'; exact Hrun | exact Hall].
  - right. split; assumption.
Qed.

Lemma streams_per_nsl_nonempty (wf : dict string (list Record_))
    (streamIDs : dict (string * string * string) (list string)) :
  streams_per_nsl wf = Ok streamIDs -> forall e, e ∈ wf -> snd e <> [].
Proof.
  unfold streams_per_nsl. intros Hrun [sid recs] He Hnil. cbn [snd] in Hnil.
  subst recs. apply list_elem_of_split in He as (l1 & l2 & ->).
  rewrite foldlM_app in Hrun. apply bind_Ok in Hrun as (acc & _ & Hrun).
  discriminate Hrun.
Qed.

Lemma streams_per_nsl_get (wf : list (string * list Record_))
    (acc streamIDs : dict (string * string * string) (list string)) :
  foldlM group_step acc wf = Ok streamIDs ->
  (NoDup (dict_keys acc) -> NoDup (dict_keys streamIDs))
  /\ forall nsl,
       dict_get nsl streamIDs
       = match fst <$> filter (fun e => nsl_of (snd e) = Some nsl) wf with
         | [] => dict_get nsl acc
         | l => Some (default [] (dict_get nsl acc) ++ l)
         end.
Proof.
  revert acc. induction wf as [|e wf IH]; intros acc Hrun.
  - injection Hrun as <-. split; [auto|reflexivity].
  - cbn [foldlM] in Hrun. apply bind_Ok in Hrun as (acc1 & He & Hrun).
    apply group_step_Ok in He as (nsl0 & Hnsl & Hnd1 & Hget1).
    destruct (IH acc1 Hrun) as [Hnd Hget]. split; [auto|].
    intros nsl. rewrite Hget, @filter_cons, !Hget1.
    destruct (decide (nsl_of (snd e) = Some nsl)) as [Heq|Hne].
    + rewrite Hnsl in Heq. injection Heq as ->.
      rewrite !decide_True by reflexivity. rewrite fmap_cons.
      destruct (fst <$> filter (fun e0 => nsl_of (snd e0) = Some nsl) wf)
        as [|x l]; [reflexivity|].
      cbn. rewrite <- app_assoc. reflexivity.
    + rewrite !decide_False by (intros ->; apply Hne; exact Hnsl).
      reflexivity.
Qed.

Lemma drop_streams (ids : list string) (workspace : Workspace)
    (log : list LogLine) :
  NoDup (dict_keys (waveforms workspace)) ->
  waveforms
    (fst (foldl (fun '((workspace, log) : Workspace * list LogLine)
                     (streamID : string) =>
                   (set_waveforms (dict_del streamID (waveforms workspace))
                                  workspace,
                    log ++ [IncompleteStreamIgnored streamID]))
                (workspace, log) ids))
  = filter (fun e => fst e ∉ ids) (waveforms workspace).
Proof.
  revert workspace log. induction ids as [|id ids IH]; intros ws log Hnd.
  - cbn. symmetry. apply filter_all. intros x _. apply not_elem_of_nil.
  - cbn [foldl]. rewrite IH; cbn [waveforms set_waveforms].
    + rewrite dict_del_filter by exact Hnd. rewrite @list_filter_filter.
      apply filter_ext_elem. intros x _. rewrite not_elem_of_cons. tauto.
    + rewrite dict_del_filter by exact Hnd. apply filter_keys_NoDup. exact Hnd.
Qed.

Lemma drop_incomplete_filter
    (streamIDs : dict (string * string * string) (list string))
    (workspace : Workspace) (log : list LogLine) :
  NoDup (dict_keys (waveforms workspace)) ->
  waveforms (fst (drop_incomplete streamIDs (workspace, log)))
  = filter (fun e => Forall (fun g => (length (snd g) < 3)%nat -> fst e ∉ snd g)
                            streamIDs)
           (waveforms workspace).
Proof.
  unfold drop_incomplete. revert workspace log.
  induction streamIDs as [|[nsl ids] groups IH]; intros ws log Hnd.
  - cbn. symmetry. apply filter_all. intros x _. constructor.
  - cbn [foldl].
    destruct (length ids <? 3)%nat eqn:Hlen.
    + pose proof (drop_streams ids ws log Hnd) as Hdrop.
      destruct (foldl _ (ws, log) ids) as [ws1 log1]. cbn [fst] in Hdrop.
      rewrite IH by (rewrite Hdrop; apply filter_keys_NoDup; exact Hnd).
      rewrite Hdrop, @list_filter_filter. apply filter_ext_elem.
      intros x _. rewrite Forall_cons. cbn [snd].
      apply Nat.ltb_lt in Hlen. tauto.
    + rewrite IH by exact Hnd. apply filter_ext_elem.
      intros x _. rewrite Forall_cons. cbn [snd].
      apply Nat.ltb_ge in Hlen. split; [|tauto].
      intros Hall. split; [lia | exact Hall].
Qed.

(** X20.  After the last loop of [processOrigin] the workspace holds exactly
    the streams whose (network, station, location) is shared by at least
    three streams of the workspace, in their order: a stream is kept or
    deleted together with all streams of its (network, station,
    location), whatever their channel codes. *)
Theorem incomplete_streams_are_dropped (workspace : Workspace)
    (log : list LogLine)
    (streamIDs : dict (string * string * string) (list string)) :
  NoDup (dict_keys (waveforms workspace)) ->
  streams_per_nsl (waveforms workspace) = Ok streamIDs ->
  waveforms (fst (drop_incomplete streamIDs (workspace, log)))
  = filter (fun e => (3 <= components_of (waveforms workspace) (snd e))%nat)
           (waveforms workspace).
Proof.
  intros Hnd Hrun. rewrite drop_incomplete_filter by exact Hnd.
  destruct (streams_per_nsl_get _ _ _ Hrun) as [Hndg Hget].
  specialize (Hndg (NoDup_nil_2)). cbn [dict_get] in Hget.
  pose proof (streams_per_nsl_nonempty _ _ Hrun) as Hrecs.
  assert (Hgroup : forall nsl ids, (nsl, ids) ∈ streamIDs ->
            ids = fst <$> filter (fun e => nsl_of (snd e) = Some nsl)
                                 (waveforms workspace)).
  { intros nsl ids Hin. apply (dict_elem_get _ _ _ Hndg) in Hin.
    rewrite Hget in Hin.
    match type of Hin with
    | context [fst <$> ?L] => destruct (fst <$> L) as [|x l] eqn:HL
    end; [discriminate Hin|]. injection Hin as <-. symmetry. exact HL. }
  apply filter_ext_elem. intros [sid recs] He. cbn [fst snd].
  destruct (nsl_of recs) as [nsl|] eqn:Hnsl.
  2:{ exfalso. apply (Hrecs _ He). destruct recs as [|r recs]; [reflexivity|].
      cbn in Hnsl. destruct (rec_nslc r) as [[[net sta] loc] cha].
      discriminate Hnsl. }
  assert (Hcount : components_of (waveforms workspace) recs
                   = length (fst <$> filter (fun e => nsl_of (snd e) = Some nsl)
                                            (waveforms workspace))).
  { unfold components_of. rewrite Hnsl, length_fmap. reflexivity. }
  assert (Hmine : sid ∈ fst <$> filter (fun e => nsl_of (snd e) = Some nsl)
                                       (waveforms workspace)).
  { apply (list_elem_of_fmap_2 fst _ (sid, recs)).
    apply list_elem_of_filter. split; [exact Hnsl | exact He]. }
  rewrite Hcount. rewrite Forall_forall.
  specialize (Hget nsl). unfold dict in *. split.
  - intros Hall.
    match type of Hmine with
    | _ ∈ ?L => destruct L as [|x l] eqn:Hl
    end; [apply elem_of_nil in Hmine; destruct Hmine|].
    cbn in Hget.
    apply dict_get_Some_elem in Hget.
    destruct (Nat.lt_ge_cases (length (x :: l)) 3) as [Hlt|Hge]; [|exact Hge].
    exfalso. exact (Hall _ Hget Hlt Hmine).
  - intros Hge [nsl' ids'] Hin Hlt Hsid. cbn [fst snd] in *.
    pose proof (Hgroup _ _ Hin) as ->.
    apply list_elem_of_fmap in Hsid as ([sid' recs'] & Hfst & Hin').
    cbn in Hfst. subst sid'.
    apply list_elem_of_filter in Hin' as [Hnsl' Hin']. cbn [snd] in Hnsl'.
    assert (recs' = recs).
    { pose proof (dict_elem_get _ _ _ Hnd Hin') as H1.
      pose proof (dict_elem_get _ _ _ Hnd He) as H2. congruence. }
    subst recs'. rewrite Hnsl in Hnsl'. injection Hnsl' as <-. lia.
Qed.

(** *** The waveform request *)

Section request.
Variable env : Environment.
Variable self : App.
Variable picks : dict string Pick.
Variable event : Event.

Local Abbreviation eventID := (event_publicID event).

Lemma request_entries :
  forall entry, entry ∈ foldl (request_step env self eventID) [] picks ->
    exists e, e ∈ picks
              /\ requested_for env self eventID (snd e) (fst entry) (snd entry).
Proof.
  apply (foldl_invariant
           (fun request => forall entry, entry ∈ request ->
              exists e, e ∈ picks
                /\ requested_for env self eventID (snd e) (fst entry) (snd entry)));
    [|intros entry Hin; apply elem_of_nil in Hin; destruct Hin].
  intros request e He Hreq entry. unfold request_step.
  destruct (mseedExists env eventID _) eqn:Hfile; [apply Hreq|].
  match goal with
  | |- context [dict_mem ?k (components self)] =>
      destruct (dict_mem k (components self)) eqn:Hcomp
  end; cbn [negb]; [|apply Hreq].
  intros Hin. apply dict_set_elem in Hin as [Hin|Heq]; [exact (Hreq _ Hin)|].
  subst entry.
  exists e. split; [exact He|]. cbn [fst snd]. unfold requested_for.
  repeat split; assumption.
Qed.

(** X21.  Every stream added to the record stream is a component of the
    stream of one of the given picks for which the event has no
    miniSEED file yet, with the time window of that pick: data already
    saved is not requested again. *)
Theorem requested_streams_come_from_unsaved_picks (req : StreamRequest) :
  req ∈ requested_streams self (foldl (request_step env self eventID) [] picks) ->
  exists e net sta loc cha t1 t2 comp,
    e ∈ picks
    /\ requested_for env self eventID (snd e) (net, sta, loc, cha) (t1, t2)
    /\ comp ∈ default [] (dict_get (net, sta, loc, String.substring 0 2 cha)
                                   (components self))
    /\ req = (net, sta, (if decide (loc = "--") then "" else loc),
              (String.substring 0 2 cha +:+ comp)%string, t1, t2).
Proof.
  unfold requested_streams. rewrite list_elem_of_In, in_flat_map.
  intros ([[[net sta] loc] cha] & _ & Hreq).
  cbv beta iota in Hreq. revert Hreq.
  match goal with
  | |- In req (match ?g with Some _ => _ | None => _ end) -> _ =>
      destruct g as [[t1 t2]|] eqn:Hget
  end; [intros Hreq | intros Hnil; exact (False_ind _ Hnil)].
  apply dict_get_Some_elem in Hget.
  destruct (request_entries _ Hget) as (e & He & Hfor). cbn [fst snd] in Hfor.
  apply in_map_iff in Hreq as (comp & <- & Hcomp).
  exists e, net, sta, loc, cha, t1, t2, comp.
  split; [exact He|]. split; [exact Hfor|].
  split; [apply list_elem_of_In; exact Hcomp | reflexivity].
Qed.

End request.

(** *** What [_loadWaveformsForPicks] returns *)

Section loaded.
Variable env : Environment.

Local Abbreviation prepared :=
  (fun e : string * list Record_ => (fst e, prepare env (snd e))).

Lemma dict_get_app_fresh {V : Type} (k : string) (d1 d2 : dict string V) :
  k ∉ dict_keys d1 -> dict_get k (d1 ++ d2) = dict_get k d2.
Proof.
  induction d1 as [|[k' v'] d1 IH]; [reflexivity|].
  cbn. rewrite not_elem_of_cons. intros [Hk Hd].
  rewrite decide_False by exact Hk. exact (IH Hd).
Qed.

Lemma dict_set_app_fresh {V : Type} (k : string) (v : V) (d1 d2 : dict string V) :
  k ∉ dict_keys d1 -> dict_set k v (d1 ++ d2) = d1 ++ dict_set k v d2.
Proof.
  induction d1 as [|[k' v'] d1 IH]; [reflexivity|].
  cbn. rewrite not_elem_of_cons. intros [Hk Hd].
  rewrite decide_False by exact Hk. rewrite (IH Hd). reflexivity.
Qed.

Lemma gappy_fold (todo done : list (string * list Record_)) (gs : list string) :
  NoDup (dict_keys (done ++ todo)) ->
  foldl (gappy_step env) (done ++ todo, gs) (dict_keys todo)
  = (done ++ (prepared <$> todo),
     gs ++ (fst <$> filter (fun e => gappy (snd e) 1 = true) (prepared <$> todo))).
Proof.
  revert done gs. induction todo as [|[k recs] todo IH]; intros done gs Hnd.
  - cbn. rewrite !app_nil_r. reflexivity.
  - assert (Hk : k ∉ dict_keys done).
    { unfold dict_keys in Hnd. rewrite fmap_app in Hnd.
      apply NoDup_app in Hnd as (_ & Hdisj & _).
      intros Hin. apply (Hdisj k Hin). apply list_elem_of_here. }
    cbn [dict_keys fmap list_fmap foldl fst]. unfold gappy_step at 2.
    rewrite dict_get_app_fresh by exact Hk. cbn [dict_get].
    rewrite decide_True by reflexivity. cbn [default].
    rewrite dict_set_app_fresh by exact Hk. cbn [dict_set].
    rewrite decide_True by reflexivity.
    cbn [from_option id fst snd].
    assert (Hshape : done ++ (k, prepare env recs) :: todo
                     = (done ++ [(k, prepare env recs)]) ++ todo)
      by (rewrite <- app_assoc; reflexivity).
    rewrite Hshape.
    assert (Hnd' : NoDup (dict_keys ((done ++ [(k, prepare env recs)]) ++ todo))).
    { unfold dict_keys in *. rewrite <- app_assoc. rewrite !fmap_app in *.
      exact Hnd. }
    rewrite @filter_cons. cbn [snd].
    destruct (gappy (prepare env recs) 1) eqn:Hgap.
    + rewrite (IH _ _ Hnd'). rewrite decide_True by reflexivity.
      rewrite <- !app_assoc. reflexivity.
    + rewrite (IH _ _ Hnd'). rewrite decide_False by discriminate.
      rewrite <- !app_assoc. reflexivity.
Qed.

(** X22.  [_loadWaveformsForPicks] returns nothing, without opening the record
    stream, when no stream is to be requested; otherwise it returns every
    stream that was received, in the order of first arrival, with its
    records passed through [prepare], and reports as gappy exactly the
    returned streams whose prepared records are gappy, which it returns
    nevertheless. *)
Theorem loaded_waveforms_are_prepared_records (self : App)
    (picks : dict string Pick) (event : Event) :
  let request := foldl (request_step env self (event_publicID event)) [] picks in
  let waveforms :=
    prepared <$> receive (recordStream env (requested_streams self request)) [] in
  _loadWaveformsForPicks env self picks event
  = match request with
    | [] => ([], [])
    | _ :: _ =>
        (waveforms,
         GappyStreamIgnored
           <$> (fst <$> filter (fun e => gappy (snd e) 1 = true) waveforms))
    end.
Proof.
  cbv zeta. unfold _loadWaveformsForPicks.
  destruct (foldl (request_step env self (event_publicID event)) [] picks)
    as [|entry request]; [reflexivity|].
  pose proof (gappy_fold
                (receive (recordStream env
                            (requested_streams self (entry :: request))) [])
                [] []
                (receive_keys
                   (recordStream env (requested_streams self (entry :: request)))
                   [] (NoDup_nil_2))) as Hfold.
  cbn [app] in Hfold. cbv beta iota zeta.
  match goal with
  | |- context [foldl ?f ?s ?l] =>
      match type of Hfold with
      | ?lhs = _ => change (foldl f s l) with lhs
      end
  end.
  rewrite Hfold. reflexivity.
Qed.

End loaded.

Section samples.
Local Open Scope Q_scope.

Lemma incomplete_streams_are_dropped_witness :
  exists streamIDs,
    streams_per_nsl (waveforms three_and_one_workspace) = Ok streamIDs
    /\ dict_keys
         (waveforms (fst (drop_incomplete streamIDs (three_and_one_workspace, []))))
       = ["GE.APE..BHZ"; "GE.APE..BHN"; "GE.APE..BHE"]
    /\ waveforms (fst (drop_incomplete streamIDs (three_and_one_workspace, [])))
       = filter (fun e => (3 <= components_of (waveforms three_and_one_workspace)
                                              (snd e))%nat)
                (waveforms three_and_one_workspace).
Proof.
  eexists. split; [vm_compute; reflexivity|]. split; [vm_compute; reflexivity|].
  apply (incomplete_streams_are_dropped three_and_one_workspace []).
  - apply (bool_decide_unpack _). vm_compute. exact I.
  - vm_compute. reflexivity.
Defined.

(** The pick on APE has no file yet: its three components are requested
    from 60 s before to 120 s after the pick. *)
Lemma requested_streams_come_from_unsaved_picks_witness :
  exists e net sta loc cha t1 t2 comp,
    e ∈ [("auto-APE", auto_pick "auto-APE" "APE" 1200)]
    /\ requested_for (sample_env [] []) sample_app "Event/1" (snd e)
                     (net, sta, loc, cha) (t1, t2)
    /\ comp ∈ default [] (dict_get (net, sta, loc, String.substring 0 2 cha)
                                   (components sample_app))
    /\ ("GE", "APE", "", "BHN", 1200 + - 60, 1200 + 120)
       = (net, sta, (if decide (loc = "--") then "" else loc),
          (String.substring 0 2 cha +:+ comp)%string, t1, t2).
Proof.
  apply (requested_streams_come_from_unsaved_picks (sample_env [] []) sample_app
           [("auto-APE", auto_pick "auto-APE" "APE" 1200)] sample_event
           ("GE", "APE", "", "BHN", 1200 + - 60, 1200 + 120)).
  vm_compute. apply list_elem_of_further. apply list_elem_of_here.
Defined.

End samples.

End ClientWaveforms.

(** ** The client: configuration, workspaces of events *)

Module ClientEventsSpec.
Import PyFacts PyFactsMore Util Client Relocate ClientEvents Vocabulary Sample.

(** X23.  [initConfiguration] returns [False] exactly when the base class
    does, and otherwise succeeds only if [scdlpicker.emptyOriginAgencyIDs]
    is configured: without it the function ends in a [NameError] after
    having assigned the messaging group, the ignored authors and the
    ignored agencies, and before the stream timeout is set.  Whenever the
    ignored authors are assigned the author of the application is the
    last of them. *)
Theorem initConfiguration_needs_emptyOriginAgencyIDs
    (super_initConfiguration : bool) (config : Configuration)
    (author : string) (self : Settings) :
  let r := initConfiguration super_initConfiguration config author self in
  (snd r = Ok false <-> super_initConfiguration = false)
  /\ (snd r = Raise NameError
      <-> super_initConfiguration = true
          /\ configGetStrings config "scdlpicker.emptyOriginAgencyIDs" = None)
  /\ (snd r = Ok true
      <-> super_initConfiguration = true
          /\ configGetStrings config "scdlpicker.emptyOriginAgencyIDs"
             = Some (self_emptyOriginAgencyIDs (fst r)))
  /\ (snd r = Raise NameError ->
        self_streamTimeout (fst r) = self_streamTimeout self
        /\ self_emptyOriginAgencyIDs (fst r) = self_emptyOriginAgencyIDs self)
  /\ (super_initConfiguration = true ->
        last (self_ignoredAuthors (fst r)) = Some author
        /\ self_targetMessagingGroup (fst r) <> None).
Proof.
  unfold initConfiguration.
  destruct super_initConfiguration; cbn [negb].
  - destruct (configGetStrings config "scdlpicker.emptyOriginAgencyIDs")
      as [l|] eqn:Hcfg; cbn [fst snd self_streamTimeout self_emptyOriginAgencyIDs
                             self_ignoredAuthors self_targetMessagingGroup].
    + repeat split; try discriminate; try reflexivity; try apply last_snoc.
      * intros [_ H]; discriminate H.
    + repeat split; try discriminate; try reflexivity; try apply last_snoc.
      * intros [_ H]; discriminate H.
  - cbn. repeat split; try discriminate; try reflexivity.
    + intros [H _]; discriminate H.
    + intros [H _]; discriminate H.
Qed.

(** *** [cleanup] *)

Local Abbreviation cleanup_step tmin :=
  (fun (blacklist : list string) '((eventID, workspace) : string * Workspace) =>
     match ws_origin workspace with
     | None => Raise AttributeError
     | Some origin =>
         if Qltb (origin_time origin) tmin
         then Ok (blacklist ++ [eventID])
         else Ok blacklist
     end).

Lemma cleanup_blacklist (now timeout : Q)
    (workspaces : list (string * Workspace)) (acc blacklist : list string) :
  foldlM (cleanup_step (now - timeout)%Q) acc workspaces = Ok blacklist ->
  blacklist
  = acc ++ (fst <$> filter (fun e => expired now timeout (snd e) = true) workspaces).
Proof.
  revert acc. induction workspaces as [|[id ws] l IH]; intros acc Hrun.
  - injection Hrun as <-. cbn. rewrite app_nil_r. reflexivity.
  - cbn [foldlM] in Hrun. apply bind_Ok in Hrun as (acc1 & Hstep & Hrun).
    apply IH in Hrun. rewrite Hrun. clear Hrun IH.
    rewrite @filter_cons. cbn [snd].
    assert (Hexp : expired now timeout ws
                   = match ws_origin ws with
                     | Some origin => Qltb (origin_time origin) (now - timeout)
                     | None => false
                     end) by reflexivity.
    destruct (ws_origin ws) as [origin|]; [|discriminate Hstep].
    destruct (Qltb (origin_time origin) (now - timeout)); injection Hstep as <-.
    + rewrite decide_True by exact Hexp. rewrite fmap_cons, <- app_assoc.
      reflexivity.
    + rewrite decide_False by (rewrite Hexp; discriminate). reflexivity.
Qed.

(** X24.  [cleanup] raises [AttributeError] when some workspace has no origin
    yet, as the one of an event whose first origin was skipped; otherwise
    it keeps, in their order, exactly the workspaces whose origin is not
    older than the timeout. *)
Theorem cleanup_drops_expired_workspaces (now timeout : Q)
    (workspaces : dict string Workspace) :
  NoDup (dict_keys workspaces) ->
  ((forall e, e ∈ workspaces -> ws_origin (snd e) <> None)
   /\ cleanup now timeout workspaces
      = Ok (filter (fun e => expired now timeout (snd e) = false) workspaces))
  \/ ((exists e, e ∈ workspaces /\ ws_origin (snd e) = None)
      /\ cleanup now timeout workspaces = Raise AttributeError).
Proof.
  intros Hnd. unfold cleanup.
  destruct (foldlM_cases (cleanup_step (now - timeout)%Q)
              (fun e => ws_origin (snd e) = None) AttributeError workspaces [])
    as [(blacklist & Hrun & Hall)|[Hrun Hbad]].
  - intros acc [id ws] _. cbn [snd].
    destruct (ws_origin ws) as [origin|]; [right|left; split; reflexivity].
    split; [discriminate|].
    destruct (Qltb (origin_time origin) (now - timeout)); eexists; reflexivity.
  - left. split; [exact Hall|]. rewrite Hrun. cbn [mbind result_bind].
    pose proof (cleanup_blacklist _ _ _ _ _ Hrun) as ->. cbn [app].
    rewrite dict_del_all by exact Hnd. f_equal.
    apply filter_ext_elem. intros [id ws] He. cbn [fst snd].
    rewrite list_elem_of_fmap. split.
    + intros Hnot. destruct (expired now timeout ws) eqn:Hexp; [|reflexivity].
      exfalso. apply Hnot. exists (id, ws). split; [reflexivity|].
      apply list_elem_of_filter. split; [exact Hexp | exact He].
    + intros Hexp ([id' ws'] & Hid & Hin). cbn in Hid. subst id'.
      apply list_elem_of_filter in Hin as [Hexp' Hin]. cbn [snd] in Hexp'.
      assert (ws' = ws).
      { pose proof (dict_elem_get _ _ _ Hnd Hin) as H1.
        pose proof (dict_elem_get _ _ _ Hnd He) as H2. congruence. }
      subst ws'. rewrite Hexp in Hexp'. discriminate Hexp'.
  - right. split; [exact Hbad|]. rewrite Hrun. reflexivity.
Qed.

(** *** Events in real-time mode *)

Section events.
Variable sm : Seismology.
Variable env : Environment.
Variable lib : Library.
Variable query : Query.
Variable self : App.
Variable EventWorkspace : Workspace.

Lemma registered_get (workspaces : dict string Workspace) (event : Event) :
  exists workspace,
    dict_get (event_publicID event) (registered EventWorkspace workspaces event)
    = Some workspace.
Proof.
  unfold registered, dict_mem.
  destruct (dict_get (event_publicID event) workspaces) as [ws|] eqn:Hget.
  - exists ws. exact Hget.
  - exists EventWorkspace. rewrite dict_get_set, decide_True by reflexivity.
    reflexivity.
Qed.

(** X25.  In real-time mode no event is processed: [processEvent] registers
    the workspace of the event and then ends in the [TypeError] of
    [_loadEvent], which passes the keyword [full] to a function without
    such a parameter; no origin is loaded and [cleanup] is not reached. *)
Theorem processEvent_registers_and_raises (now : Q)
    (workspaces : dict string Workspace) (event : Event) :
  processEvent sm env lib query self EventWorkspace now workspaces event
  = (registered EventWorkspace workspaces event, Raise TypeError).
Proof.
  unfold processEvent. fold (registered EventWorkspace workspaces event).
  destruct (registered_get workspaces event) as [ws ->]. reflexivity.
Qed.

Lemma insert_string_elem (k : string) (l : list string) (z : string) :
  z ∈ insert_string k l <-> z = k \/ z ∈ l.
Proof.
  induction l as [|k' l IH]; cbn [insert_string].
  - rewrite list_elem_of_singleton, elem_of_nil. tauto.
  - destruct (String.compare k k'); rewrite !elem_of_cons; tauto.
Qed.

Lemma sorted_strings_elem (l : list string) (z : string) :
  z ∈ sorted_strings l <-> z ∈ l.
Proof.
  induction l as [|k l IH]; [reflexivity|].
  change (sorted_strings (k :: l)) with (insert_string k (sorted_strings l)).
  rewrite insert_string_elem, elem_of_cons, IH. tauto.
Qed.

Lemma sorted_strings_head (l : list string) :
  l <> [] -> exists x l', sorted_strings l = x :: l' /\ x ∈ l.
Proof.
  intros Hne. destruct (sorted_strings l) as [|x l'] eqn:Hs.
  - destruct l as [|k l]; [destruct (Hne eq_refl)|].
    assert (Hk : k ∈ sorted_strings (k :: l))
      by (apply sorted_strings_elem, list_elem_of_here).
    rewrite Hs in Hk. apply elem_of_nil in Hk. destruct Hk.
  - exists x, l'. split; [reflexivity|]. apply sorted_strings_elem.
    rewrite Hs. apply list_elem_of_here.
Qed.

(** X26.  A timer tick with pending events handles the first of them, in the
    order of the event IDs, only: that event is taken off the pending
    events, its workspace is registered, and the [TypeError] of
    [processEvent] leaves [processPendingEvents]; the other events stay
    pending. *)
Theorem processPendingEvents_stops_at_first_event (now : string -> Q)
    (pendingEvents : dict string Event) (workspaces : dict string Workspace) :
  pendingEvents <> [] ->
  exists eventID event,
    head (sorted_strings (dict_keys pendingEvents)) = Some eventID
    /\ dict_get eventID pendingEvents = Some event
    /\ processPendingEvents sm env lib query self EventWorkspace now
         pendingEvents workspaces
       = (dict_del eventID pendingEvents,
          registered EventWorkspace workspaces event, Raise TypeError).
Proof.
  intros Hne. unfold processPendingEvents.
  destruct (sorted_strings_head (dict_keys pendingEvents)) as (x & l' & Hs & Hx).
  { destruct pendingEvents; [destruct (Hne eq_refl) | discriminate]. }
  rewrite Hs. apply dict_mem_keys in Hx. unfold dict_mem in Hx.
  destruct (dict_get x pendingEvents) as [event|] eqn:Hget; [|discriminate Hx].
  exists x, event. split; [reflexivity|]. split; [exact Hget|].
  cbn [processPendingEvents_loop]. rewrite Hget.
  unfold processEvent. fold (registered EventWorkspace workspaces event).
  destruct (registered_get workspaces event) as [ws ->]. reflexivity.
Qed.

End events.

Section samples.
Local Open Scope Q_scope.

Lemma cleanup_drops_expired_workspaces_witness :
  let old :=
    Client.mkWorkspace (Some (mkOrigin "Origin/0" 0 0 0 10 "GFZ" []))
                       [] [] [] [] [] in
  let recent :=
    Client.mkWorkspace (Some (mkOrigin "Origin/1" 100000 0 0 10 "GFZ" []))
                       [] [] [] [] [] in
  cleanup 200000 cleanup_timeout [("Event/0", old); ("Event/1", recent)]
  = Ok [("Event/1", recent)]
  /\ cleanup 200000 cleanup_timeout
       [("Event/0", old); ("Event/2", empty_workspace)]
     = Raise AttributeError.
Proof.
  cbv zeta. split.
  - destruct (cleanup_drops_expired_workspaces 200000 cleanup_timeout
                [("Event/0",
                  Client.mkWorkspace (Some (mkOrigin "Origin/0" 0 0 0 10 "GFZ" []))
                                     [] [] [] [] []);
                 ("Event/1",
                  Client.mkWorkspace
                    (Some (mkOrigin "Origin/1" 100000 0 0 10 "GFZ" []))
                    [] [] [] [] [])])
      as [[_ Hok]|[_ Hraise]].
    + apply (bool_decide_unpack _). vm_compute. exact I.
    + rewrite Hok. reflexivity.
    + vm_compute in Hraise. discriminate Hraise.
  - reflexivity.
Defined.

Lemma processPendingEvents_stops_at_first_event_witness :
  exists eventID event,
    head (sorted_strings (dict_keys sample_pending)) = Some eventID
    /\ dict_get eventID sample_pending = Some event
    /\ processPendingEvents sample_sm (sample_env [] []) sample_library
         (sample_query [] [] []) sample_app empty_workspace (fun _ => 0)
         sample_pending []
       = (dict_del eventID sample_pending,
          registered empty_workspace [] event, Raise TypeError).
Proof.
  apply (processPendingEvents_stops_at_first_event
           sample_sm (sample_env [] []) sample_library (sample_query [] [] [])
           sample_app empty_workspace (fun _ => 0) sample_pending []).
  discriminate.
Defined.

Lemma sample_pending_first :
  fst (fst (processPendingEvents sample_sm (sample_env [] []) sample_library
              (sample_query [] [] []) sample_app empty_workspace (fun _ => 0)
              sample_pending []))
  = [("Event/2", mkEvent "Event/2" "Origin/2")].
Proof. reflexivity. Qed.

End samples.

End ClientEventsSpec.

(** ** The standalone relocator *)

Module RelocateSpec.
Import Relocate.

Lemma loadEvent_rejects_full (body : dict string value -> result value)
    (q : value) (publicID : value) (full : value) :
  call loadEvent_sig body [q; publicID] [("full", full)] = Raise TypeError.
Proof. reflexivity. Qed.

Lemma loadPicksForOrigin_needs_six (body : dict string value -> result value)
    (a1 a2 a3 a4 a5 : value) :
  call loadPicksForOrigin_sig body [a1; a2; a3; a4; a5] [] = Raise TypeError.
Proof. reflexivity. Qed.

(** C9.  Whatever the command line, the database and the event ID,
    [processEvent] as [run] invokes it ends in an exception and never
    reaches the relocation: already the call of [loadEvent] is refused
    (keyword [full]); moreover [run] leaves [maxDelta], [minimumDepth] and
    [maxResidual] unassigned, and the call of [loadPicksForOrigin] gives
    five positional arguments, the query object first (bound to
    [origin]), to a function with six parameters without default. *)
Theorem processEvent_always_raises
    (lib : Library) (cl : CommandLine) (query : Query)
    (allowedAuthorIDs : list string) (inventory : InventoryUtil.Inventory)
    (eventID : string) :
  let self := self_in_run cl allowedAuthorIDs inventory in
  processEvent lib cl query self eventID = Raise TypeError
  /\ getattr self "maxDelta" = Raise AttributeError
  /\ getattr self "minimumDepth" = Raise AttributeError
  /\ getattr self "maxResidual" = Raise AttributeError
  /\ length (sig_required loadPicksForOrigin_sig) = 6%nat
  /\ (forall origin inv authors maxDelta,
        head (zip (sig_params loadPicksForOrigin_sig)
                  [VQuery query; origin; inv; authors; maxDelta])
        = Some ("origin", VQuery query)
        /\ call loadPicksForOrigin_sig (loadPicksForOrigin_body lib)
                [VQuery query; origin; inv; authors; maxDelta] []
           = Raise TypeError).
Proof.
  cbv zeta. repeat split.
Qed.

(** [run] therefore fails on the first event ID it is given. *)
Lemma run_raises_on_first_event
    (lib : Library) (cl : CommandLine) (query : Query)
    (allowedAuthorIDs : list string) (inventory : InventoryUtil.Inventory)
    (ids eventID : string) (rest : list string) :
  optionString cl "event" = Some ids ->
  str_split lib ids = eventID :: rest ->
  run lib cl query (init inventory (__init__ allowedAuthorIDs))
  = Raise TypeError.
Proof.
  intros Hopt Hsplit. unfold run. rewrite Hopt, Hsplit. reflexivity.
Qed.

End RelocateSpec.

(** ** The standalone relocator: outcome of [run] *)

Module RelocateMore.
Import Relocate.

(** X27.  [run] returns [True] only when the option [event] is given and names
    no event.  Unlike the other options the option [event] is read
    outside a [try]: without it [run] ends in a [RuntimeError]; with at
    least one event ID it ends in the [TypeError] of the first
    [processEvent]. *)
Theorem run_outcome (lib : Library) (cl : CommandLine) (query : Query)
    (allowedAuthorIDs : list string) (inventory : InventoryUtil.Inventory) :
  run lib cl query (init inventory (__init__ allowedAuthorIDs))
  = match optionString cl "event" with
    | None => Raise RuntimeError
    | Some ids =>
        match str_split lib ids with
        | [] => Ok true
        | _ :: _ => Raise TypeError
        end
    end.
Proof.
  unfold run. destruct (optionString cl "event") as [ids|]; [|reflexivity].
  destruct (str_split lib ids); reflexivity.
Qed.

End RelocateMore.
